(** * HICV availability scanner: the interaction and extraction engine

    A shallow embedding of [hicv_original_working.py].  Python strings are
    lists of Unicode code points, Playwright calls are operations of a
    session interface that may raise, and every Python function is a
    computation in a small error-and-state monad that also records the
    calls it makes. *)

From Stdlib Require Import NArith ZArith Ascii String Bool Lia.
From Stdlib Require Import DecimalString DecimalZ.
From stdpp Require Import base option list gmap strings.


(** ** Text *)

(** A Python [str] is a sequence of code points. *)
Abbreviation text := (list N).

(** ASCII literals of the source, as code points. *)
Definition T (s : string) : text := N_of_ascii <$> list_ascii_of_string s.

(** [s.replace(",", empty)]: the commas are dropped. *)
Definition comma : N := 44%N.
Definition replace_comma (s : text) : text :=
  List.filter (fun c => negb (c =? comma)%N) s.

(** ** The [re] fragment used by the source

    The tables of Python's [re] for code points outside ASCII (which
    characters are digits, white space, word characters, and which match an
    ASCII letter when case is ignored) are not part of the repository: they
    are a parameter.  Inside ASCII the classes are written out. *)

Record unicode_tables := {
  uni_digit : N -> bool;
  uni_space : N -> bool;
  uni_word : N -> bool;
  uni_ci : N -> N -> bool   (* pattern letter, text character *)
}.

Definition between (lo hi c : N) : bool := ((lo <=? c) && (c <=? hi))%N.

Definition ascii_lower (c : N) : N := (if between 65 90 c then c + 32 else c)%N.

(** A match object: what [m.group(1)] holds. *)
Definition mtch := option (list N).

Definition group1 (mt : mtch) : text := default [] mt.

Inductive regex :=
| Eps
| Chr (p : N -> bool)
| Bnd
| Cat (r1 r2 : regex)
| Alt (r1 r2 : regex)
| Rep (lo : nat) (hi : option nat) (r : regex)
| Grp (r : regex).

Definition below (hi : option nat) (n : nat) : bool :=
  match hi with None => true | Some h => (n <? h)%nat end.

Section Regex.
Variable U : unicode_tables.

(** [\d] *)
Definition is_digit (c : N) : bool :=
  if (c <? 128)%N then between 48 57 c else uni_digit U c.

(** [\s] *)
Definition is_space (c : N) : bool :=
  if (c <? 128)%N then between 9 13 c || between 28 32 c else uni_space U c.

(** [\w] *)
Definition is_word (c : N) : bool :=
  if (c <? 128)%N
  then between 48 57 c || between 65 90 c || between 97 122 c || (c =? 95)%N
  else uni_word U c.

(** A lower-case ASCII letter of a pattern compiled with [re.I]. *)
Definition ci (p c : N) : bool :=
  if (c <? 128)%N then (ascii_lower c =? p)%N else uni_ci U p c.

(** [[\d,]] *)
Definition digit_or_comma (c : N) : bool := is_digit c || (c =? comma)%N.

Definition word_opt (o : option N) : bool :=
  match o with Some c => is_word c | None => false end.

(** [\b]: exactly one side is a word character. *)
Definition boundary (prev next : option N) : bool :=
  xorb (word_opt prev) (word_opt next).

(** A greedy repetition [r{lo,hi}] of [body]: one more round first, and
    only when everything after it fails, stop here.  A round that consumes
    nothing is not repeated. *)
Fixpoint rep_loop {R : Type}
    (body : option N -> text -> mtch ->
            (option N -> text -> mtch -> option R) -> option R)
    (lo : nat) (hi : option nat) (k : option N -> text -> mtch -> option R)
    (fuel n : nat) (prev : option N) (s : text) (cap : mtch) : option R :=
  let stop := if (lo <=? n)%nat then k prev s cap else None in
  match fuel with
  | O => stop
  | S fuel' =>
      if below hi n then
        match body prev s cap
                (fun prev' s' cap' =>
                   if (length s' <? length s)%nat
                   then rep_loop body lo hi k fuel' (S n) prev' s' cap'
                   else None) with
        | Some x => Some x
        | None => stop
        end
      else stop
  end.

(** Backtracking matcher.  [prev] is the character before the current
    position, [s] the rest of the text, [cap] the text of group 1 so far,
    [k] what remains to be matched.  Alternatives are tried left to
    right, repetitions are greedy. *)
Fixpoint rmatch {R : Type} (r : regex) (prev : option N) (s : text)
    (cap : mtch) (k : option N -> text -> mtch -> option R) : option R :=
  match r with
  | Eps => k prev s cap
  | Chr p =>
      match s with
      | c :: s' => if p c then k (Some c) s' cap else None
      | [] => None
      end
  | Bnd => if boundary prev (head s) then k prev s cap else None
  | Cat r1 r2 =>
      rmatch r1 prev s cap (fun prev' s' cap' => rmatch r2 prev' s' cap' k)
  | Alt r1 r2 =>
      match rmatch r1 prev s cap k with
      | Some x => Some x
      | None => rmatch r2 prev s cap k
      end
  | Grp r1 =>
      rmatch r1 prev s cap
        (fun prev' s' _ => k prev' s' (Some (take (length s - length s') s)))
  | Rep lo hi r1 => rep_loop (rmatch r1) lo hi k (length s) O prev s cap
  end.

Definition accept : option N -> text -> mtch -> option mtch :=
  fun _ _ cap => Some cap.

(** [re.search]: the first position, from the left, where the pattern
    matches. *)
Fixpoint search_from (r : regex) (prev : option N) (s : text) : option mtch :=
  match rmatch r prev s None accept with
  | Some mt => Some mt
  | None =>
      match s with
      | [] => None
      | c :: s' => search_from r (Some c) s'
      end
  end.

Definition re_search (r : regex) (s : text) : option mtch :=
  search_from r None s.

Definition lit_ci (w : text) : regex :=
  foldr (fun p r => Cat (Chr (ci p)) r) Eps w.

(** [r"([\d,]+)\s*points"] with [re.I] *)
Definition points_re : regex :=
  Cat (Grp (Rep 1 None (Chr digit_or_comma)))
      (Cat (Rep 0 None (Chr is_space)) (lit_ci (T "points"))).

(** [r"\b(\d{1,3}(?:,\d{3})+|\d{4,})\b"] *)
Definition group_re : regex :=
  Cat (Chr (N.eqb comma)) (Rep 3 (Some 3) (Chr is_digit)).

Definition grouped_re : regex :=
  Cat (Rep 1 (Some 3) (Chr is_digit)) (Rep 1 None group_re).

Definition long_re : regex := Rep 4 None (Chr is_digit).

Definition number_re : regex :=
  Cat Bnd (Cat (Grp (Alt grouped_re long_re)) Bnd).

(** [clean_points_from_text] (and its copy [_points_from_text] inside
    [scrape_results], which has the same body). *)
Definition clean_points_from_text (txt : text) : text :=
  match txt with
  | [] => []
  | _ =>
      match re_search points_re txt with
      | Some m => replace_comma (group1 m)
      | None =>
          match re_search number_re txt with
          | Some m2 => replace_comma (group1 m2)
          | None => []
          end
      end
  end.

Definition _points_from_text (txt : text) : text := clean_points_from_text txt.

End Regex.

(** *** What the patterns mean, independently of the matcher *)

Record config := { prev : option N; rest : text; cap : mtch }.

(** Greedy or not, a repetition relates the configurations joined by [n]
    more rounds of [step], each round consuming something. *)
Inductive rep_rel (step : config -> config -> Prop) (lo : nat) (hi : option nat)
  : nat -> config -> config -> Prop :=
| rep_stop n c : (lo <= n)%nat -> rep_rel step lo hi n c c
| rep_more n c c1 c' :
    below hi n = true -> step c c1 ->
    (length (rest c1) < length (rest c))%nat ->
    rep_rel step lo hi (S n) c1 c' ->
    rep_rel step lo hi n c c'.

Section RegexMeaning.
Variable U : unicode_tables.

Fixpoint matches (r : regex) (c c' : config) : Prop :=
  match r with
  | Eps => c' = c
  | Chr p =>
      exists ch, rest c = ch :: rest c' /\ p ch = true /\
                 prev c' = Some ch /\ cap c' = cap c
  | Bnd => boundary U (prev c) (head (rest c)) = true /\ c' = c
  | Cat r1 r2 => exists c1, matches r1 c c1 /\ matches r2 c1 c'
  | Alt r1 r2 => matches r1 c c' \/ matches r2 c c'
  | Grp r1 =>
      exists cap1,
        matches r1 c {| prev := prev c'; rest := rest c'; cap := cap1 |} /\
        cap c' = Some (take (length (rest c) - length (rest c')) (rest c))
  | Rep lo hi r1 => rep_rel (matches r1) lo hi 0 c c'
  end.

Definition digits (w : text) : Prop := Forall (fun c => is_digit U c = true) w.

(** [,ddd] *)
Definition group3 (g : text) : Prop :=
  exists d, g = comma :: d /\ length d = 3%nat /\ digits d.

(** [d,ddd], [dd,ddd,ddd], ... *)
Definition grouped_number (w : text) : Prop :=
  exists h gs, w = h ++ concat gs /\ (1 <= length h <= 3)%nat /\ digits h /\
               gs <> [] /\ Forall group3 gs.

Definition long_number (w : text) : Prop := (4 <= length w)%nat /\ digits w.

Definition number_shape (w : text) : Prop := grouped_number w \/ long_number w.

(** A number standing on its own in a text: word boundaries on both sides. *)
Definition number_token (pre num post : text) : Prop :=
  number_shape num /\
  boundary U (last pre) (head (num ++ post)) = true /\
  boundary U (last (pre ++ num)) (head post) = true.

(** Does [s] start with the letters [w], case ignored? *)
Fixpoint prefix_ci (w s : text) : bool :=
  match w, s with
  | [], _ => true
  | p :: w', c :: s' => ci U p c && prefix_ci w' s'
  | _ :: _, [] => false
  end.

(** Do the letters [w] occur in [s], case ignored? *)
Fixpoint occurs_ci (w s : text) : bool :=
  prefix_ci w s ||
  match s with
  | [] => false
  | _ :: s' => occurs_ci w s'
  end.

End RegexMeaning.

Definition run_k {R : Type} (k : option N -> text -> mtch -> option R)
    (c : config) : option R :=
  k (prev c) (rest c) (cap c).

(** The character before the position reached after reading [w]. *)
Definition prev_after (p : option N) (w : text) : option N :=
  match last w with Some c => Some c | None => p end.

Definition no_tables : unicode_tables :=
  {| uni_digit := fun _ => false; uni_space := fun _ => false;
     uni_word := fun _ => false; uni_ci := fun _ _ => false |}.

Definition em_dash : N := 8212%N.

(** ** The browser session

    Every Playwright call may raise.  A computation threads the state of
    the outside world and the list of the actions performed so far.
    [time.sleep] and [print] have no counterpart. *)

Inductive exn :=
| PlaywrightError                 (* raised by a call into the session *)
| ValueError                      (* [int] of a text that is no number *)
| TimeoutError (msg : string)
| RuntimeError (msg : string)
| Exception (msg : string).

Inductive result (A : Type) :=
| Ok (a : A)
| Raise (e : exn).
Arguments Ok {A} a.
Arguments Raise {A} e.

Inductive visibility := Visible | Hidden.

Inductive locator :=
| ResortsBtn       (* "#resorts-dropdown, button[data-uitest='multi-select-button'], [aria-label='Open multi select.']" *)
| ResortsPanel     (* "ul[data-uitest='ul-resorts'][role='listbox'], ul[role='listbox']" *)
| ResortsBtnText   (* btn.locator(".FormFieldButton_text__jmMUQ") *)
| FloridaHeader    (* panel.locator("#list-item-Florida-id") *)
| OptionLi (fid : string)      (* "//input[@id='{fid}']/ancestor::li[1]" in the resorts panel *)
| OptionLabel (fid : string)   (* "label[for='{fid}']" in the resorts panel *)
| CounterSpan (adults : bool)  (* "[data-uitest='number-of-...-number-of-guests']" *)
| MinusBtn (adults : bool)     (* "[data-uitest='number-of-...-left-icon-button']" *)
| PlusBtn (adults : bool)      (* "[data-uitest='number-of-...-right-icon-button']" *)
| UnitDropdown                 (* "#unit-size-dropdown" *)
| UnitPanel                    (* "ul[data-uitest='ul-unit-sizes']" *)
| UnitRowLabel (input_id : string)  (* "li[role='option'] >> label[for='{input_id}']" *)
| UnitLi (input_id : string)        (* "//input[@id='{input_id}']/ancestor::li[1]" in the unit panel *)
| DayBtn (mb : nat) (day : Z).      (* the button around the span showing [day] in [blocks.nth(mb)] *)

(** Calls made for their effect. *)
Inductive call :=
| Click (l : locator) (force : bool)
| DblClick (l : locator)
| Focus (l : locator)
| Press (key : string)
| WaitFor (l : locator) (v : visibility)
| ScrollIntoView (l : locator)
| ScrollPanel (half : bool)      (* scrollTop += clientHeight, or half of it *)
| DispatchClick (l : locator)    (* el.dispatchEvent(new MouseEvent('click')) *)
| InjectChecked (input_id : string) (should : bool)
| Screenshot (target : option locator) (path : string)
| WriteContent (path : string).  (* Path(path).write_text(page.content()) *)

(** One [li role=option] of the resorts list box, as the script of
    [_collect_florida_ids_from_dom] sees it. *)
Record item := {
  li_id : string;
  li_group : bool;              (* className includes "group-label" *)
  li_input : option string      (* id of its checkbox input, if any *)
}.

Class Session (W : Type) := {
  perform : call -> W -> result unit * W;
  count : locator -> W -> result nat * W;
  get_attribute : locator -> string -> W -> result (option text) * W;
  inner_text : locator -> W -> result text * W;
  element_handle : locator -> W -> result bool * W;   (* is there a handle? *)
  panel_items : W -> result (list item) * W
}.

Record st (W : Type) := { env : W; log : list call }.
Arguments env {W} s.
Arguments log {W} s.

Definition M (W A : Type) : Type := st W -> result A * st W.

Definition ret {W A : Type} (a : A) : M W A := fun s => (Ok a, s).

Definition raise {W A : Type} (e : exn) : M W A := fun s => (Raise e, s).

Definition bind {W A B : Type} (m : M W A) (f : A -> M W B) : M W B :=
  fun s =>
    match m s with
    | (Ok a, s') => f a s'
    | (Raise e, s') => (Raise e, s')
    end.

(** [try: m  except Exception: h] *)
Definition try_except {W A : Type} (m : M W A) (h : M W A) : M W A :=
  fun s =>
    match m s with
    | (Ok a, s') => (Ok a, s')
    | (Raise _, s') => h s'
    end.

#[global] Instance M_ret (W : Type) : MRet (M W) := fun A => ret.
#[global] Instance M_bind (W : Type) : MBind (M W) := fun A B f m => bind m f.

(** A query: the world answers, nothing is logged. *)
Definition ask {W A : Type} (q : W -> result A * W) : M W A :=
  fun s => let '(r, w) := q (env s) in (r, {| env := w; log := log s |}).

(** An action: logged, then performed. *)
Definition act {W : Type} `{Session W} (c : call) : M W unit :=
  fun s =>
    let '(r, w) := perform c (env s) in
    (r, {| env := w; log := log s ++ [c] |}).

(** [pass] *)
Definition pass {W : Type} : M W unit := ret tt.

(** [(x or empty).lower() == "true"]; no character outside ASCII lowers to a
    letter of "true". *)
Definition is_true_attr (o : option text) : bool :=
  bool_decide (ascii_lower <$> default [] o = T "true").

Section Interaction.
Context {W : Type} `{Session W}.

Definition aria_selected (li : locator) : M W bool :=
  a ← ask (get_attribute li "aria-selected"); mret (is_true_attr a).

(** [write_debug(page, stem)] *)
Definition write_debug (stem : string) : M W unit :=
  try_except (act (Screenshot None (stem +:+ ".png"))) pass;;
  try_except (act (WriteContent (stem +:+ ".html"))) pass.

(** The body of [if attempt == 0: ... elif ...] in [open_resorts_dropdown]. *)
Definition strategy (attempt : nat) : M W unit :=
  match attempt with
  | 0 => act (Click ResortsBtn false)
  | 1 => act (Click ResortsBtn true)
  | 2 => act (DblClick ResortsBtn)
  | 3 => act (Focus ResortsBtn);; act (Press "Enter")
  | 4 => act (Focus ResortsBtn);; act (Press "Space")
  | _ =>
      eh ← ask (element_handle ResortsBtn);
      if (eh : bool) then act (DispatchClick ResortsBtn) else mret tt
  end.

(** What stands inside [try:] for one attempt. *)
Definition attempt_body (attempt : nat) : M W locator :=
  strategy attempt;;
  act (WaitFor ResortsPanel Visible);;
  mret ResortsPanel.

(** [for attempt in range(6): try: ...; return panel  except Exception: sleep] *)
Fixpoint attempts (todo : list nat) : M W (option locator) :=
  match todo with
  | [] => mret None
  | attempt :: todo' =>
      r ← try_except (panel ← attempt_body attempt; mret (Some panel)) (mret None);
      match r with
      | Some panel => mret (Some panel)
      | None => attempts todo'
      end
  end.

Definition open_resorts_dropdown : M W locator :=
  act (WaitFor ResortsBtn Visible);;
  act (ScrollIntoView ResortsBtn);;
  r ← attempts (seq 0 6);
  match r with
  | Some panel => mret panel
  | None =>
      write_debug "open_dropdown_failed";;
      raise (TimeoutError "Location listbox did not appear after clicking the dropdown.")
  end.

End Interaction.

(** ** Selecting every Florida location *)

(** The loop of [_collect_florida_ids_from_dom] from [startIdx + 1] on. *)
Fixpoint ids_until_group (items : list item) : list string * bool :=
  match items with
  | [] => ([], false)
  | li :: items' =>
      if li_group li then ([], true)
      else
        let '(ids, has_next_group) := ids_until_group items' in
        match li_input li with
        | Some i => if bool_decide (i = EmptyString) then (ids, has_next_group)
                    else (i :: ids, has_next_group)
        | None => (ids, has_next_group)
        end
  end.

(** The items after [items.findIndex(li => li.id === "list-item-Florida-id")]. *)
Fixpoint after_florida (items : list item) : option (list item) :=
  match items with
  | [] => None
  | li :: items' =>
      if bool_decide (li_id li = "list-item-Florida-id") then Some items'
      else after_florida items'
  end.

Definition collect_florida (items : list item) : list string * bool :=
  match after_florida items with
  | None => ([], false)
  | Some items' => ids_until_group items'
  end.

Section Florida.
Context {W : Type} `{Session W}.

Definition _collect_florida_ids_from_dom : M W (list string * bool) :=
  items ← ask panel_items; mret (collect_florida items).

(** [for _ in range(60)]: is the Florida header there? *)
Fixpoint find_florida (n : nat) : M W bool :=
  match n with
  | O => mret false
  | S n' =>
      c ← ask (count FloridaHeader);
      if (0 <? c)%nat then mret true
      else
        try_except (act (ScrollPanel false)) pass;;
        find_florida n'
  end.

(** [for _ in range(80)]: gather the ids until the next group shows. *)
Fixpoint collect_ids (n : nat) (all_ids : gset string) : M W (gset string) :=
  match n with
  | O => mret all_ids
  | S n' =>
      snap ← _collect_florida_ids_from_dom;
      let all_ids := all_ids ∪ list_to_set snap.1 in
      if snap.2 && (0 <? size all_ids)%nat then mret all_ids
      else
        try_except (act (ScrollPanel true)) pass;;
        collect_ids n' all_ids
  end.

(** [try: label.click  except: try: label.click(force)  except: li.click(force)] *)
Definition click_option (label li : locator) : M W unit :=
  try_except (act (Click label false))
    (try_except (act (Click label true))
       (act (Click li true))).

(** [for _ in range(12)]: read until the state is the wanted one. *)
Fixpoint poll_selected (n : nat) (li : locator) (want : bool) : M W bool :=
  match n with
  | O => mret false
  | S n' =>
      selected ← aria_selected li;
      if bool_decide (selected = want) then mret true
      else poll_selected n' li want
  end.

(** One round of [for fid in for_ids]; the result is what it adds to
    [newly_selected]. *)
Definition select_one (fid : string) : M W nat :=
  let li := OptionLi fid in
  selected ← aria_selected li;
  if (selected : bool) then mret 0%nat
  else
    let label := OptionLabel fid in
    try_except (_ ← ask (element_handle label); act (ScrollIntoView label)) pass;;
    click_option label li;;
    seen ← poll_selected 12 li true;
    if (seen : bool) then mret 1%nat
    else
      act (InjectChecked fid true);;
      selected ← aria_selected li;
      mret (if (selected : bool) then 1%nat else 0%nat).

Fixpoint select_each (for_ids : list string) : M W nat :=
  match for_ids with
  | [] => mret 0%nat
  | fid :: rest =>
      n ← select_one fid;
      m ← select_each rest;
      mret (n + m)%nat
  end.

Fixpoint count_confirmed (for_ids : list string) : M W nat :=
  match for_ids with
  | [] => mret 0%nat
  | fid :: rest =>
      selected ← aria_selected (OptionLi fid);
      m ← count_confirmed rest;
      mret ((if (selected : bool) then 1 else 0) + m)%nat
  end.

(** [for _ in range(20)]: wait for the button to show the selection.
    Only [inner_text] is consulted, inside [try]. *)
Fixpoint wait_button_text (n : nat) (looks_done : text -> bool) : M W unit :=
  match n with
  | O => mret tt
  | S n' =>
      txt ← try_except (ask (inner_text ResortsBtnText)) (mret []);
      if looks_done txt then mret tt else wait_button_text n' looks_done
  end.

(** [select_all_florida_locations]; the result is the three numbers it
    prints.  [looks_done] is the test
    [txt and ("Selected" in txt or txt.isdigit())] on the stripped text. *)
Definition select_all_florida_locations (looks_done : text -> bool)
    : M W (nat * nat * nat) :=
  _ ← open_resorts_dropdown;
  found_florida ← find_florida 60;
  if negb found_florida then
    write_debug "location_panel_no_florida";;
    raise (Exception "Couldn't find the Florida group header in the list.")
  else
    all_ids ← collect_ids 80 ∅;
    let for_ids := elements all_ids in
    match for_ids with
    | [] =>
        write_debug "location_panel_after";;
        raise (Exception "Florida group found, but no Florida options were rendered.")
    | _ =>
        newly_selected ← select_each for_ids;
        confirmed ← count_confirmed for_ids;
        try_except (act (Screenshot (Some ResortsPanel) "location_panel_after.png")) pass;;
        act (Press "Escape");;
        wait_button_text 20 looks_done;;
        try_except (act (Screenshot (Some ResortsBtn) "location_button_after.png")) pass;;
        mret (length for_ids, newly_selected, confirmed)
    end.

End Florida.

(** ** Counters and unit sizes *)

Section Counters.
Context {W : Type} `{Session W}.
(** [int(s.strip())] of the Python run time; [None] when it raises. *)
Variable py_int : text -> option Z.

(** [int((span.inner_text() or "0").strip())] *)
Definition read_counter (span : locator) : M W Z :=
  txt ← ask (inner_text span);
  match py_int (match txt with [] => T "0" | _ => txt end) with
  | Some n => mret n
  | None => raise ValueError
  end.

(** [while cur != target and tries < 30], with [budget = 30 - tries].
    The result is the value of [(cur, tries)] when the loop is left. *)
Fixpoint counter_loop (adults : bool) (target : Z) (budget : nat)
    (cur : Z) (tries : nat) : M W (Z * nat) :=
  match budget with
  | O => mret (cur, tries)
  | S budget' =>
      if bool_decide (cur = target) then mret (cur, tries)
      else
        (if bool_decide (cur < target)%Z
         then act (Click (PlusBtn adults) false)
         else try_except (act (Click (MinusBtn adults) false)) pass);;
        cur' ← try_except (read_counter (CounterSpan adults)) (mret cur);
        counter_loop adults target budget' cur' (S tries)
  end.

Definition set_counter (kind : string) (target : Z) : M W unit :=
  let adults := bool_decide (kind = "adults") in
  cur ← read_counter (CounterSpan adults);
  counter_loop adults target 30 cur 0;;
  mret tt.

End Counters.

Section UnitSizes.
Context {W : Type} `{Session W}.

Definition options : list (string * string) :=
  [ ("Studio", "option-ST-id");
    ("1 Bedroom", "option-1BD-id");
    ("2 Bedroom", "option-2BD-id");
    ("3+ Bedroom", "option-3BDPlus-id") ].

Definition ensure_state (name input_id : string) (should_select : bool) : M W unit :=
  let row_label := UnitRowLabel input_id in
  n ← ask (count row_label);
  if bool_decide (n = 0%nat) then mret tt
  else
    let li := UnitLi input_id in
    selected ← aria_selected li;
    if bool_decide (selected = should_select) then mret tt
    else
      click_option row_label li;;
      seen ← poll_selected 12 li should_select;
      if (seen : bool) then mret tt
      else act (InjectChecked input_id should_select).

(** [for name, input_id in options: ensure_state(name, input_id, name in desired_labels)] *)
Fixpoint reconcile (opts : list (string * string)) (desired_labels : list string)
    : M W unit :=
  match opts with
  | [] => mret tt
  | (name, input_id) :: rest =>
      ensure_state name input_id (bool_decide (name ∈ desired_labels));;
      reconcile rest desired_labels
  end.

Fixpoint final_selected (opts : list (string * string)) : M W (list string) :=
  match opts with
  | [] => mret []
  | (name, input_id) :: rest =>
      sel ← aria_selected (UnitLi input_id);
      names ← final_selected rest;
      mret (if (sel : bool) then name :: names else names)
  end.

(** [set_unit_sizes]; the result is the list [final_selected] it prints. *)
Definition set_unit_sizes (desired_labels : list string) : M W (list string) :=
  act (Click UnitDropdown false);;
  act (WaitFor UnitPanel Visible);;
  reconcile options desired_labels;;
  names ← final_selected options;
  act (Press "Escape");;
  mret names.

End UnitSizes.

Definition UNIT_SIZES : list string := ["Studio"; "1 Bedroom"].

(** *** Vocabulary for the opening strategies *)

(** The calls of the strategy tried at each attempt. *)
Definition technique (attempt : nat) : list call :=
  match attempt with
  | 0 => [Click ResortsBtn false]
  | 1 => [Click ResortsBtn true]
  | 2 => [DblClick ResortsBtn]
  | 3 => [Focus ResortsBtn; Press "Enter"]
  | 4 => [Focus ResortsBtn; Press "Space"]
  | _ => [DispatchClick ResortsBtn]
  end.

(** The state left by the attempts in [js], one after the other. *)
Definition after_attempts {W : Type} `{Session W} (js : list nat) (s : st W) : st W :=
  foldl (fun s j => (attempt_body j s).2) s js.

(** A world that never changes: which calls raise and what the queries
    answer is fixed once and for all. *)
Record behaviour := {
  fw_raises : call -> bool;
  fw_count : locator -> nat;
  fw_attr : locator -> option text;
  fw_text : locator -> text;
  fw_items : list item
}.

Inductive fixed_world (b : behaviour) := Fixed.

#[global] Instance fixed_session (b : behaviour) : Session (fixed_world b) := {|
  perform c w := (if fw_raises b c then Raise PlaywrightError else Ok tt, w);
  count l w := (Ok (fw_count b l), w);
  get_attribute l _ w := (Ok (fw_attr b l), w);
  inner_text l w := (Ok (fw_text b l), w);
  element_handle _ w := (Ok true, w);
  panel_items w := (Ok (fw_items b), w)
|}.

Definition start (b : behaviour) : st (fixed_world b) :=
  {| env := Fixed b; log := [] |}.

(** The native click raises, everything else goes through. *)
Definition native_click_fails : behaviour := {|
  fw_raises c := match c with Click ResortsBtn false => true | _ => false end;
  fw_count _ := 1;
  fw_attr _ := None;
  fw_text _ := [];
  fw_items := []
|}.

(** *** Vocabulary for the Florida selection *)

Definition never_raises {W A : Type} (q : W -> result A * W) : Prop :=
  forall w, exists a w', q w = (Ok a, w').

(** The calls that [select_all_florida_locations] makes outside any [try],
    once the panel is open. *)
Record unguarded_calls_return {W : Type} `{Session W} : Prop := {
  count_returns : never_raises (count FloridaHeader);
  attr_returns : forall fid, never_raises (get_attribute (OptionLi fid) "aria-selected");
  items_return : never_raises panel_items;
  li_click_returns : forall fid, never_raises (perform (Click (OptionLi fid) true));
  inject_returns : forall fid, never_raises (perform (InjectChecked fid true));
  escape_returns : never_raises (perform (Press "Escape"))
}.
Arguments unguarded_calls_return W {_}.

(** A computation that always returns normally. *)
Definition returns {W A : Type} (m : M W A) : Prop :=
  forall s, exists a s', m s = (Ok a, s').

(** The two calls of [write_debug(page, stem)]. *)
Definition debug_calls (stem : string) : list call :=
  [Screenshot None (stem +:+ ".png"); WriteContent (stem +:+ ".html")].

Definition florida_list : list item :=
  [ {| li_id := "list-item-Texas-id"; li_group := true; li_input := None |};
    {| li_id := "list-item-Florida-id"; li_group := true; li_input := None |};
    {| li_id := "list-item-orlando"; li_group := false; li_input := Some "option-orlando" |};
    {| li_id := "list-item-Nevada-id"; li_group := true; li_input := None |} ].

(** The list shows one Florida option; every click raises, every other
    call goes through, and the option never reads as selected. *)
Definition every_click_fails : behaviour := {|
  fw_raises c := match c with Click _ _ => true | _ => false end;
  fw_count _ := 1;
  fw_attr _ := None;
  fw_text _ := [];
  fw_items := florida_list
|}.

(** The same list with clicks that go through but change nothing. *)
Definition clicks_without_effect : behaviour := {|
  fw_raises _ := false;
  fw_count _ := 1;
  fw_attr _ := None;
  fw_text _ := [];
  fw_items := florida_list
|}.

(** The clicks of [set_counter]. *)
Definition counter_click (adults : bool) (c : call) : Prop :=
  c = Click (PlusBtn adults) false \/ c = Click (MinusBtn adults) false.

(** A counter that never moves: the span always reads 0. *)
Definition stuck_counter : behaviour := {|
  fw_raises _ := false;
  fw_count _ := 1;
  fw_attr _ := None;
  fw_text _ := T "0";
  fw_items := []
|}.

(** *** The unit-size panel as a state

    What the source observes of an option is whether it is rendered and
    the value of its [aria-selected]: that is the state kept here, by input
    id.  A click on the label or on the list item of an option toggles it,
    changes nothing, or raises, as the list [coming] says for the clicks
    to come (a click beyond the list toggles).  The script injected by
    [ensure_state] is the source's: when the input exists it sets
    [aria-selected] of its list item to the wanted value.  Reading the
    attribute of an option that is not rendered raises, as a locator that
    finds no element does. *)

Inductive outcome := Lands | Misses | Fails.

Record panel_ui := {
  aria : gmap string bool;   (* input id of a rendered option ↦ aria-selected *)
  coming : list outcome
}.

Definition toggle (input_id : string) (m : gmap string bool) : gmap string bool :=
  match m !! input_id with
  | Some b => <[input_id := negb b]> m
  | None => m
  end.

Definition clicked (l : locator) (m : gmap string bool) : gmap string bool :=
  match l with
  | UnitRowLabel input_id | UnitLi input_id => toggle input_id m
  | _ => m
  end.

Definition panel_perform (c : call) (w : panel_ui) : result unit * panel_ui :=
  match c with
  | Click l _ =>
      match coming w with
      | Fails :: rest => (Raise PlaywrightError, {| aria := aria w; coming := rest |})
      | Misses :: rest => (Ok tt, {| aria := aria w; coming := rest |})
      | Lands :: rest => (Ok tt, {| aria := clicked l (aria w); coming := rest |})
      | [] => (Ok tt, {| aria := clicked l (aria w); coming := [] |})
      end
  | InjectChecked input_id should =>
      match aria w !! input_id with
      | Some _ => (Ok tt, {| aria := <[input_id := should]> (aria w); coming := coming w |})
      | None => (Ok tt, w)
      end
  | _ => (Ok tt, w)
  end.

Definition panel_count (l : locator) (w : panel_ui) : result nat * panel_ui :=
  (Ok match l with
      | UnitRowLabel input_id =>
          match aria w !! input_id with Some _ => 1%nat | None => 0%nat end
      | _ => 1%nat
      end, w).

Definition panel_get_attribute (l : locator) (name : string) (w : panel_ui)
    : result (option text) * panel_ui :=
  (match l with
   | UnitLi input_id =>
       match aria w !! input_id with
       | Some b => Ok (Some (T (if b : bool then "true" else "false")))
       | None => Raise PlaywrightError
       end
   | _ => Ok None
   end, w).

#[global] Instance panel_session : Session panel_ui := {|
  perform := panel_perform;
  count := panel_count;
  get_attribute := panel_get_attribute;
  inner_text _ w := (Ok [], w);
  element_handle _ w := (Ok true, w);
  panel_items w := (Ok [], w)
|}.

(** The four options of the source, rendered. *)
Definition panel_of (st_ bd1 bd2 bd3 : bool) : gmap string bool :=
  <["option-ST-id" := st_]> (<["option-1BD-id" := bd1]>
    (<["option-2BD-id" := bd2]> (<["option-3BDPlus-id" := bd3]> ∅))).

(** What reconciliation is to make of a panel: every rendered option of
    [opts] reads as its label's membership in [desired_labels]. *)
Definition reconciled (desired_labels : list string) (opts : list (string * string))
    (m : gmap string bool) : gmap string bool :=
  foldl (fun (m : gmap string bool) (o : string * string) =>
           match m !! o.2 with
           | Some _ => <[o.2 := bool_decide (o.1 ∈ desired_labels)]> m
           | None => m
           end) m opts.

(** The labels of [opts] that read as selected; none when an option is not
    rendered. *)
Fixpoint confirmed (opts : list (string * string)) (m : gmap string bool)
    : option (list string) :=
  match opts with
  | [] => Some []
  | (name, input_id) :: rest =>
      match m !! input_id, confirmed rest m with
      | Some b, Some names => Some (if b : bool then name :: names else names)
      | _, _ => None
      end
  end.

Definition ui (m : gmap string bool) (os : list outcome) (lg : list call) : st panel_ui :=
  {| env := {| aria := m; coming := os |}; log := lg |}.

(** ** The calendar

    A month block is the list of its day cells in document order; the
    overlay shows the blocks of [div.rdp-month], at most two. *)

Record cell := {
  day_num : Z;         (* the number shown in the span *)
  in_button : bool;    (* the span has an ancestor button *)
  disabled : bool      (* that button carries the attribute "disabled" *)
}.

Abbreviation block := (list cell).
Abbreviation page := (list block).

(** A day button: the block it is in and the number it shows. *)
Abbreviation day_btn := (nat * Z)%type.

(** [_find_day_btn_in_block(mb, day_num)], [mb] being [blocks.nth(mb)].
    A block is meant to show each day number once ([one_cell_per_day]
    below); the span looked at is the first with that number. *)
Definition _find_day_btn_in_block (p : page) (mb : nat) (day : Z) : option day_btn :=
  match p !! mb with
  | None => None
  | Some b =>
      match list_find (fun c => day_num c = day) b with
      | None => None
      | Some (_, c) =>
          if in_button c then
            if disabled c then None else Some (mb, day)
          else None
      end
  end.

Fixpoint first_found (p : page) (mb : nat) (days : list Z) : option day_btn :=
  match days with
  | [] => None
  | d :: days' =>
      match _find_day_btn_in_block p mb d with
      | Some btn => Some btn
      | None => first_found p mb days'
      end
  end.

(** [for d in range(min_day + 1, 32)] *)
Definition _first_enabled_after (p : page) (mb : nat) (min_day : Z) : option day_btn :=
  first_found p mb (seqZ (min_day + 1) (32 - (min_day + 1))).

(** [other.locator("button[class*='rdp-day']:not([disabled])").first], when
    it matches something *)
Definition first_enabled (p : page) (mb : nat) : option day_btn :=
  match p !! mb with
  | None => None
  | Some b =>
      match list_find (fun c => in_button c = true /\ disabled c = false) b with
      | Some (_, c) => Some (mb, day_num c)
      | None => None
      end
  end.

(** [a == b] for two locators, given by the blocks they stand for.  The
    locator class of the browser library defines no equality of its own, so
    [==] compares the identity of the two Python objects; [blocks.nth(0)]
    builds a new object at every call, so [start_mb == blocks.nth(0)] is
    [False] whatever block [start_mb] stands for. *)
Definition locator_eq (a b : nat) : bool := false.

(** The part of [_try_click_range] between the two clicks: the button of
    the end day in the overlay as it is after the first click.  [same] is
    the comparison in [start_mb == blocks.nth(0)]; the code runs with
    [locator_eq]. *)
Definition end_button (NIGHTS : Z) (same : nat -> nat -> bool)
    (p : page) (start_mb : nat) (start_day : Z) : option day_btn :=
  let target_end := (start_day + Z.max 1 (NIGHTS - 1))%Z in
  match _find_day_btn_in_block p start_mb target_end with
  | Some end_btn => Some end_btn
  | None =>
      match _first_enabled_after p start_mb start_day with
      | Some end_btn => Some end_btn
      | None =>
          let other := if same start_mb 0%nat then 1%nat else 0%nat in
          match p !! other with
          | None => None
          | Some _ =>
              match _find_day_btn_in_block p other
                      (if (31 <? target_end)%Z then target_end - 31 else target_end)%Z with
              | Some exact => Some exact
              | None => first_enabled p other
              end
          end
      end
  end.

Section Calendar.
Context {W : Type} `{Session W}.
(** The month blocks the overlay shows in a given state of the world. *)
Variable calendar : W -> page.

(** [try: b.scroll_into_view_if_needed()  except: pass]
    [try: b.click(timeout=1500)  except: b.click(force=True, timeout=1500)] *)
Definition click_day (b : day_btn) : M W unit :=
  try_except (act (ScrollIntoView (DayBtn b.1 b.2))) pass;;
  try_except (act (Click (DayBtn b.1 b.2) false)) (act (Click (DayBtn b.1 b.2) true)).

(** The blocks as they are now. *)
Definition blocks_now : M W page := fun s => (Ok (calendar (env s)), s).

Definition _try_click_range (NIGHTS : Z) (same : nat -> nat -> bool)
    (start_mb : nat) (start_day : Z) : M W bool :=
  p ← blocks_now;
  match _find_day_btn_in_block p start_mb start_day with
  | None => mret false
  | Some start_btn =>
      click_day start_btn;;
      p1 ← blocks_now;
      match end_button NIGHTS same p1 start_mb start_day with
      | None => mret false
      | Some end_btn => click_day end_btn;; mret true
      end
  end.

End Calendar.

(** The overlay as a world of its own: clicks go through and leave the
    blocks as they are. *)
Record overlay := { shown : page }.

#[global] Instance overlay_session : Session overlay := {|
  perform _ w := (Ok tt, w);
  count _ w := (Ok 1%nat, w);
  get_attribute _ _ w := (Ok None, w);
  inner_text _ w := (Ok [], w);
  element_handle _ w := (Ok true, w);
  panel_items w := (Ok [], w)
|}.

(** *** Vocabulary for the calendar *)

(** Day [d] can be clicked in block [mb]. *)
Definition enabled (p : page) (mb : nat) (d : Z) : Prop :=
  exists b c, p !! mb = Some b /\ c ∈ b /\ day_num c = d /\
              in_button c = true /\ disabled c = false.

(** No block shows a day number twice. *)
Definition one_cell_per_day (p : page) : Prop :=
  forall mb b, p !! mb = Some b -> NoDup (day_num <$> b).

(** A month of [n] days whose days from [from] to [to] can be clicked, the
    others being disabled. *)
Definition month (n from to : Z) : block :=
  (fun d => {| day_num := d; in_button := true;
               disabled := negb ((from <=? d)%Z && (d <=? to)%Z) |}) <$> seqZ 1 n.

(** ** Results *)

(** A row: the dict with the keys "Date Range", "Resort", "Room", "Points". *)
Record row := {
  date_range : text;
  resort : text;
  room : text;
  points : text
}.

Definition key (r : row) : text * text * text * text :=
  (date_range r, resort r, room r, points r).

(** [for r in rows: ... if key in seen: continue; seen.add(key); out.append(r)] *)
Fixpoint dedup_loop (rows : list row) (seen : gset (text * text * text * text))
    (out : list row) : list row :=
  match rows with
  | [] => out
  | r :: rows' =>
      if bool_decide (key r ∈ seen) then dedup_loop rows' seen out
      else dedup_loop rows' ({[key r]} ∪ seen) (out ++ [r])
  end.

Definition dedup (rows : list row) : list row := dedup_loop rows ∅ [].

Section Scraping.
Context {W : Type} `{Session W}.
(** What comes before the post-pass, taken as it is: [before_tiers] stands
    for [extract_date_range], [scroll_results_into_view] and
    [wait_for_result_cards] and yields the date range; [tier1], [tier2],
    [tier3] are the three loops that build candidate rows from the page. *)
Variable before_tiers : M W text.
Variables tier1 tier2 tier3 : text -> M W (list row).

Definition scrape_results : M W (list row) :=
  date_range ← before_tiers;
  rows ← tier1 date_range;
  rows ← (match rows with [] => tier2 date_range | _ => mret rows end);
  rows ← (match rows with [] => tier3 date_range | _ => mret rows end);
  let out := dedup rows in
  (if bool_decide (length out = 0%nat) then
     try_except (act (WriteContent "no_results_debug.html")) pass;;
     act (Screenshot None "no_results_debug.png")
   else mret tt);;
  mret out.

End Scraping.

(** Nothing to scrape, and the page refuses the screenshot. *)
Definition screenshot_fails : behaviour := {|
  fw_raises c := match c with Screenshot _ _ => true | _ => false end;
  fw_count _ := 0;
  fw_attr _ := None;
  fw_text _ := [];
  fw_items := []
|}.

(** The start month has 31 days of which 29 to 31 cannot be clicked; the
    next month is open. *)
Definition closing_month : page := [month 31 1 28; month 30 1 30].

(** Both months are open. *)
Definition open_months : page := [month 31 1 31; month 30 1 30].

(** The rows that reach the post-pass: those of the first tier that found
    any. *)
Definition candidates (r1 r2 r3 : list row) : list row :=
  match r1 with
  | [] => match r2 with [] => r3 | _ => r2 end
  | _ => r1
  end.

(** * The code around the claims *)

(** ** More text helpers *)

Section Whitespace.
Variable U : unicode_tables.

(** [s.lstrip()].  [str.strip] and [\s] test white space in the same way. *)
Fixpoint lstrip (s : text) : text :=
  match s with
  | [] => []
  | c :: s' => if is_space U c then lstrip s' else s
  end.

(** [s.strip()] *)
Definition strip (s : text) : text := reverse (lstrip (reverse (lstrip s))).

(** [re.sub(r"\s+", " ", s)]: every maximal run of white space becomes one
    space; [in_run] says that the character before was white space. *)
Fixpoint sub_spaces (in_run : bool) (s : text) : text :=
  match s with
  | [] => []
  | c :: s' =>
      if is_space U c
      then (if in_run then sub_spaces true s' else 32%N :: sub_spaces true s')
      else c :: sub_spaces false s'
  end.

(** [_normalize_ws] (and its copy [_norm] inside [scrape_results]). *)
Definition _normalize_ws (s : text) : text := sub_spaces false (strip s).

Definition _norm (s : text) : text := _normalize_ws s.

(** A pattern letter taken as it is (no [re.I]). *)
Definition lit (w : text) : regex := foldr (fun p r => Cat (Chr (N.eqb p)) r) Eps w.

Fixpoint one_of (ws : list text) : regex :=
  match ws with
  | [] => Chr (fun _ => false)
  | [w] => lit w
  | w :: ws' => Alt (lit w) (one_of ws')
  end.

Definition month_names : list text :=
  T <$> [ "January"; "February"; "March"; "April"; "May"; "June"; "July";
          "August"; "September"; "October"; "November"; "December" ]%string.

(** [MONTH_NAME_RE]; its group is never read. *)
Definition MONTH_NAME_RE : regex := one_of month_names.

(** [rf"{MONTH_NAME_RE} \d{{1,2}}\s*-\s*{MONTH_NAME_RE} \d{{1,2}}, \d{{4}}"] *)
Definition date_range_body : regex :=
  Cat MONTH_NAME_RE (Cat (lit (T " "))
  (Cat (Rep 1 (Some 2) (Chr (is_digit U)))
  (Cat (Rep 0 None (Chr (is_space U))) (Cat (lit (T "-"))
  (Cat (Rep 0 None (Chr (is_space U)))
  (Cat MONTH_NAME_RE (Cat (lit (T " "))
  (Cat (Rep 1 (Some 2) (Chr (is_digit U)))
  (Cat (lit (T ", ")) (Rep 4 (Some 4) (Chr (is_digit U)))))))))))).

(** The group around the whole pattern is what [m.group(0)] reads. *)
Definition date_range_re : regex := Grp date_range_body.

(** The last two lines of [extract_date_range], on the text [full]. *)
Definition date_range_in (full : text) : text :=
  match re_search U date_range_re full with
  | Some m => strip (group1 m)
  | None => []
  end.

(** *** Vocabulary *)

Definition spaces (w : text) : Prop := Forall (fun c => is_space U c = true) w.

(** White space occurs only as single spaces between other characters. *)
Fixpoint single_spaced (s : text) : Prop :=
  match s with
  | [] => True
  | c :: s' =>
      (is_space U c = true ->
       c = 32%N /\ exists d r, s' = d :: r /\ is_space U d = false) /\
      single_spaced s'
  end.

Definition normalized (s : text) : Prop :=
  (forall c, head s = Some c -> is_space U c = false) /\ single_spaced s.

(** The characters that are not white space, in order. *)
Definition ink (s : text) : text := List.filter (fun c => negb (is_space U c)) s.

(** "Month d - Month d, yyyy" *)
Definition date_range_shape (w : text) : Prop :=
  exists m1 d1 s1 s2 m2 d2 y,
    w = m1 ++ T " " ++ d1 ++ s1 ++ T "-" ++ s2 ++ m2 ++ T " " ++ d2 ++ T ", " ++ y /\
    m1 ∈ month_names /\ m2 ∈ month_names /\
    digits U d1 /\ (1 <= length d1 <= 2)%nat /\
    digits U d2 /\ (1 <= length d2 <= 2)%nat /\
    spaces s1 /\ spaces s2 /\
    digits U y /\ length y = 4%nat.

End Whitespace.

Section PatternVocabulary.
Variable U : unicode_tables.

(** The pattern [r] can read [w] wherever it stands, leaving the group as
    it is. *)
Definition reads (r : regex) (w : text) : Prop :=
  forall p s cp,
    matches U r {| prev := p; rest := w ++ s; cap := cp |}
                {| prev := prev_after p w; rest := s; cap := cp |}.

(** Whatever [r] reads satisfies [P], and [r] leaves the group as it is. *)
Definition yields (r : regex) (P : text -> Prop) : Prop :=
  forall c c', matches U r c c' ->
    exists w, rest c = w ++ rest c' /\ P w /\ cap c' = cap c.

(** A run of digits and commas before the word "points". *)
Definition points_run (g sp post : text) : Prop :=
  g <> [] /\ Forall (fun ch => digit_or_comma U ch = true) g /\
  spaces U sp /\ prefix_ci U (T "points") post = true.

End PatternVocabulary.

(** *** Vocabulary for the Florida group *)

(** [input?.id], when it is there and not empty *)
Definition option_id (li : item) : option string :=
  match li_input li with
  | Some i => if bool_decide (i = EmptyString) then None else Some i
  | None => None
  end.

(** The list box shows [pre], then the Florida header [hdr], then the
    options [opts] of the group, then [tail], which is empty or starts with
    the label of the next group. *)
Definition florida_group (pre : list item) (hdr : item) (opts tail : list item) : Prop :=
  Forall (fun li => li_id li <> "list-item-Florida-id") pre /\
  li_id hdr = "list-item-Florida-id" /\
  Forall (fun li => li_group li = false) opts /\
  (forall li, head tail = Some li -> li_group li = true).

(** *** The guest counters as a state

    What the source observes of a counter is the number its span shows.
    The plus button adds one to it and the minus button takes one off; the
    span shows the number in decimal, as [str] writes it. *)

Record counters := {
  adults_shown : Z;
  children_shown : Z
}.

Definition shown_count (adults : bool) (w : counters) : Z :=
  if adults then adults_shown w else children_shown w.

Definition moved (adults : bool) (d : Z) (w : counters) : counters :=
  if adults
  then {| adults_shown := adults_shown w + d; children_shown := children_shown w |}
  else {| adults_shown := adults_shown w; children_shown := children_shown w + d |}.

(** [str(z)] *)
Definition str (z : Z) : text := T (NilZero.string_of_int (Z.to_int z)).

(** [int(s)] of a decimal numeral; Python's [int] reads these, and more. *)
Definition int_of_numeral (s : text) : option Z :=
  Z.of_int <$> NilZero.int_of_string (string_of_list_ascii (ascii_of_N <$> s)).

Definition counters_perform (c : call) (w : counters) : result unit * counters :=
  match c with
  | Click (PlusBtn adults) _ => (Ok tt, moved adults 1 w)
  | Click (MinusBtn adults) _ => (Ok tt, moved adults (-1) w)
  | _ => (Ok tt, w)
  end.

Definition counters_inner_text (l : locator) (w : counters) : result text * counters :=
  (Ok match l with
      | CounterSpan adults => str (shown_count adults w)
      | _ => []
      end, w).

#[global] Instance counters_session : Session counters := {|
  perform := counters_perform;
  count _ w := (Ok 1%nat, w);
  get_attribute _ _ w := (Ok None, w);
  inner_text := counters_inner_text;
  element_handle _ w := (Ok true, w);
  panel_items w := (Ok [], w)
|}.

(** Where [set_counter] leaves a counter that shows [cur]: at [target] when
    it is at most 30 away, and 30 nearer to it otherwise. *)
Definition settled (cur target : Z) : Z :=
  if (Z.abs (target - cur) <=? 30)%Z then target
  else (cur + 30 * Z.sgn (target - cur))%Z.

(** ** The rest of the page

    The functions around the ones above reach the page through locators
    that are built from selectors; they are kept as the source writes
    them.  Building a locator asks nothing of the page. *)

Inductive loc :=
| Sel (sel : string)                   (* page.locator(sel) *)
| ByRole (role name : string)          (* page.get_by_role(role, name=name) *)
| ByText (pattern : string)            (* page.get_by_text(re.compile(pattern, re.I)) *)
| First (l : loc)                      (* l.first *)
| Nth (l : loc) (i : nat)              (* l.nth(i) *)
| Sub (l : loc) (sel : string)         (* l.locator(sel) *)
| HasText (l : loc) (pattern : string). (* l.filter(has_text=re.compile(pattern, re.I)) *)

(** Calls made for their effect. *)
Inductive op :=
| PClick (l : loc) (force : bool)
| PWaitFor (l : loc) (state : option visibility)   (* wait_for(state=...), or wait_for() *)
| PScrollIntoView (l : loc)
| MouseWheel (dx dy : Z)
| WaitLoadState (state : string)
| PScreenshot (path : string)
| WriteMarkup (l : loc) (path : string).   (* Path(path).write_text(l.evaluate("el => el.outerHTML")) *)

Class Page (W : Type) := {
  page_do : op -> W -> result unit * W;
  page_count : loc -> W -> result nat * W;
  page_text : loc -> W -> result text * W;
  page_visible : loc -> W -> result bool * W;
  page_attr : loc -> string -> W -> result (option text) * W;
  scroll_height : W -> result Z * W   (* page.evaluate("() => document.body.scrollHeight") *)
}.

(** [try: m  except Exception as e: h e] *)
Definition try_catch {W A : Type} (m : M W A) (h : exn -> M W A) : M W A :=
  fun s =>
    match m s with
    | (Ok a, s') => (Ok a, s')
    | (Raise e, s') => h e s'
    end.

Section Waiting.
Context {W : Type} `{Session W} `{Page W}.

Definition op_ (c : op) : M W unit := ask (page_do c).

(** [wait_for_booking_form] *)
Definition wait_for_booking_form : M W unit :=
  try_except (op_ (PWaitFor (Sel "#resorts-dropdown") (Some Visible)))
    (op_ (PWaitFor (Sel "text=Select Check In Date") None)).

Definition anchors : list loc :=
  [ First (Sel "[data-uitest='availability-results']");
    Sel "h1:has-text('Book a Villa')";
    Sel "text=Modify Search";
    Sel "h2" ].

(** [for a in anchors: try: a.wait_for(...); return  except Exception as e: last_err = e].
    The result is [None] when the function has returned, and the value of
    [last_err] when the loop is left. *)
Fixpoint try_anchors (todo : list loc) (last_err : option exn)
    : M W (option (option exn)) :=
  match todo with
  | [] => mret (Some last_err)
  | a :: todo' =>
      r ← try_catch (op_ (PWaitFor a (Some Visible));; mret None)
                    (fun e => mret (Some e));
      match r with
      | None => mret None
      | Some e => try_anchors todo' (Some e)
      end
  end.

(** [wait_for_results]; [raise None] is a [TypeError]. *)
Definition wait_for_results : M W unit :=
  r ← try_anchors anchors None;
  match r with
  | None => mret tt
  | Some last_err =>
      write_debug "results_wait_failed";;
      match last_err with
      | Some e => raise e
      | None => raise (Exception "exceptions must derive from BaseException")
      end
  end.

(** The selectors tried by [pick_year], in order. *)
Definition year_selectors (year : string) : list string :=
  [ "label[for='year-selection-" +:+ year +:+ "']";
    "#year-selection-" +:+ year;
    "p[role='button']:has-text('" +:+ year +:+ "')";
    "//p[normalize-space()='" +:+ year +:+ "']" ].

(** The loop of [pick_year]; [true] when the function has returned. *)
Fixpoint click_first_present (sels : list string) : M W bool :=
  match sels with
  | [] => mret false
  | sel :: sels' =>
      let opt := First (Sel sel) in
      n ← ask (page_count opt);
      if (0 <? n)%nat then
        try_except (op_ (PClick opt false)) (op_ (PClick opt true));;
        mret true
      else click_first_present sels'
  end.

Definition pick_year (year : string) : M W unit :=
  op_ (PClick (Sel "#year-picker") false);;
  returned ← click_first_present (year_selectors year);
  if (returned : bool) then mret tt
  else
    returned ← try_except (op_ (PClick (ByRole "option" year) false);; mret true)
                          (mret false);
    if (returned : bool) then mret tt
    else raise (RuntimeError ("Could not select year " +:+ year)).

Definition overlay_loc : loc := First (Sel "#range-picker, .rdp").

Definition openers : list string :=
  [ "#date-picker";
    "button[data-uitest='date-picker']";
    "button:has-text('Select Check-In Date')";
    "button[aria-label*='Check-In Date']" ].

(** [for _ in range(n): try: btn.click(); break  except: btn.click(force=True)] *)
Fixpoint click_rounds (n : nat) (btn : loc) : M W unit :=
  match n with
  | O => mret tt
  | S n' =>
      broke ← try_except (op_ (PClick btn false);; mret true)
                         (op_ (PClick btn true);; mret false);
      if (broke : bool) then mret tt else click_rounds n' btn
  end.

(** The loop of [_open_calendar]; [true] when the function has returned. *)
Fixpoint try_openers (sels : list string) : M W bool :=
  match sels with
  | [] => mret false
  | sel :: sels' =>
      let btn := First (Sel sel) in
      n ← ask (page_count btn);
      if bool_decide (n = 0%nat) then try_openers sels'
      else
        try_except (op_ (PScrollIntoView btn)) pass;;
        click_rounds 2 btn;;
        shown ← try_except (op_ (PWaitFor overlay_loc (Some Visible));; mret true)
                           (mret false);
        if (shown : bool) then mret true else try_openers sels'
  end.

Definition _open_calendar : M W unit :=
  n ← ask (page_count overlay_loc);
  visible ← (if (0 <? n)%nat then ask (page_visible overlay_loc) else mret false);
  if (visible : bool) then mret tt
  else
    returned ← try_openers openers;
    if (returned : bool) then mret tt
    else raise (RuntimeError "Could not open the check-in calendar overlay.").

(** [try: new_h = page.evaluate(...)  except Exception: new_h = last_h] *)
Definition read_height (last_h : option Z) : M W (option Z) :=
  try_except (h ← ask scroll_height; mret (Some h)) (mret last_h).

(** [for _ in range(max_scrolls)] of [scroll_results_into_view] *)
Fixpoint scroll_loop (n : nat) (last_h : option Z) : M W unit :=
  match n with
  | O => mret tt
  | S n' =>
      op_ (MouseWheel 0 2500);;
      try_except (op_ (WaitLoadState "networkidle")) pass;;
      new_h ← read_height last_h;
      if bool_decide (new_h = last_h) then mret tt
      else scroll_loop n' new_h
  end.

Definition scroll_results_into_view (max_scrolls : nat) : M W unit :=
  last_h ← read_height None;
  scroll_loop max_scrolls last_h.

(** *** Vocabulary for runs

    [cs], run one after the other from [s], raise each and every one, and
    leave the state [s']. *)
Fixpoint all_raise (cs : list op) (s s' : st W) : Prop :=
  match cs with
  | [] => s' = s
  | c :: cs' => exists e s1, op_ c s = (Raise e, s1) /\ all_raise cs' s1 s'
  end.

(** The first match of each of [sels], counted one after the other from
    [s], is counted as zero, which leaves the state [s']. *)
Fixpoint none_matches (sels : list string) (s s' : st W) : Prop :=
  match sels with
  | [] => s' = s
  | sel :: sels' =>
      exists s1, ask (page_count (First (Sel sel))) s = (Ok 0%nat, s1) /\
                 none_matches sels' s1 s'
  end.

(** The waits for [todo] to show. *)
Definition waits (todo : list loc) : list op :=
  (fun a => PWaitFor a (Some Visible)) <$> todo.

End Waiting.

Section DateRange.
Context {W : Type} `{Page W}.
Variable U : unicode_tables.

(** [extract_date_range] *)
Definition extract_date_range : M W text :=
  full ← try_except
           (t ← ask (page_text (First (ByText "Showing availability for")));
            mret (strip U t))
           (try_except (ask (page_text (Sel "body"))) (mret []));
  mret (date_range_in U full).

End DateRange.

(** *** A page that keeps track of what is done to it *)

Record traced (W : Type) := { world : W; trace : list op }.
Arguments world {W} t.
Arguments trace {W} t.

Definition quiet {W A : Type} (q : W -> result A * W)
    : traced W -> result A * traced W :=
  fun tw => let '(r, w) := q (world tw) in (r, {| world := w; trace := trace tw |}).

Definition traced_do {W : Type} `{Page W} (c : op)
    : traced W -> result unit * traced W :=
  fun tw =>
    let '(r, w) := page_do c (world tw) in
    (r, {| world := w; trace := trace tw ++ [c] |}).

#[global] Instance traced_page {W : Type} `{Page W} : Page (traced W) := {|
  page_do := traced_do;
  page_count l := quiet (page_count l);
  page_text l := quiet (page_text l);
  page_visible l := quiet (page_visible l);
  page_attr l name := quiet (page_attr l name);
  scroll_height := quiet scroll_height
|}.

#[global] Instance traced_session {W : Type} `{Session W} : Session (traced W) := {|
  perform c := quiet (perform c);
  count l := quiet (count l);
  get_attribute l name := quiet (get_attribute l name);
  inner_text l := quiet (inner_text l);
  element_handle l := quiet (element_handle l);
  panel_items := quiet panel_items
|}.

(** What was done to the page since [s]. *)
Definition done_since {W : Type} (s s' : st (traced W)) (ops : list op) : Prop :=
  trace (env s') = trace (env s) ++ ops.

Definition is_wheel (c : op) : bool :=
  match c with MouseWheel _ _ => true | _ => false end.

Definition clicked_loc (c : op) : option loc :=
  match c with PClick l _ => Some l | _ => None end.

(** What the loop of [_open_calendar] may do to the page: wait for the
    overlay, or scroll to or click one of the opener buttons. *)
Definition opener_op (sels : list string) (c : op) : Prop :=
  c = PWaitFor overlay_loc (Some Visible) \/
  exists sel, sel ∈ sels /\
    (c = PScrollIntoView (First (Sel sel)) \/
     exists force, c = PClick (First (Sel sel)) force).

Definition scroll_op (c : op) : Prop :=
  c = MouseWheel 0 2500 \/ c = WaitLoadState "networkidle".

(** *** The three tiers of [scrape_results] *)

(** The truth value of a string. *)
Definition nonempty (t : text) : bool :=
  match t with [] => false | _ => true end.

Section Tiers.
Context {W : Type} `{Page W}.
Variable U : unicode_tables.

(** [try: text = block.inner_text()  except Exception: text = ""] *)
Definition block_text (block : loc) : M W text :=
  try_except (ask (page_text block)) (mret []).

(** One round of a heading loop,
    [loc = block.locator(sel).first
     if loc.count(): cur = _norm(loc.inner_text()); if cur: break];
    it yields the value of the variable and whether the loop is left. *)
Definition heading_round (block : loc) (sel : string) (cur : text)
    : M W (text * bool) :=
  let l := First (Sub block sel) in
  n ← ask (page_count l);
  if bool_decide (n = 0%nat) then mret (cur, false)
  else
    t ← ask (page_text l);
    let cur := _norm U t in
    mret (cur, nonempty cur).

(** [for sel in sels: ...] with the round inside [try: ... except Exception: pass]
    ([guarded]), as in the first two tiers, or bare, as in the third. *)
Fixpoint heading_loop (guarded : bool) (block : loc) (sels : list string)
    (cur : text) : M W text :=
  match sels with
  | [] => mret cur
  | sel :: sels' =>
      r ← (if guarded
           then try_except (heading_round block sel cur) (mret (cur, false))
           else heading_round block sel cur);
      if (r.2 : bool) then mret r.1 else heading_loop guarded block sels' r.1
  end.

(** [for i in range(n)] over the blocks of a tier, [rows] being the list
    that the body appends to. *)
Fixpoint for_blocks (body : nat -> list row -> M W (list row)) (todo : list nat)
    (rows : list row) : M W (list row) :=
  match todo with
  | [] => mret rows
  | i :: todo' => rows' ← body i rows; for_blocks body todo' rows'
  end.

(** The body of the loops of the first and of the second tier. *)
Definition block_rows (rsels usels : list string) (block : loc)
    (date_range : text) (rows : list row) : M W (list row) :=
  text ← block_text block;
  resort ← heading_loop true block rsels [];
  room ← heading_loop true block usels [];
  let pts := _points_from_text U text in
  if nonempty resort || nonempty room || nonempty pts
  then mret (rows ++ [{| date_range := date_range; resort := resort;
                         room := room; points := pts |}])
  else mret rows.

Definition card_sel : string :=
  "[data-uitest='availability-result-card'], [data-uitest='availability-resort-result']".

(** Primary: explicit result cards. *)
Definition tier1 (date_range : text) : M W (list row) :=
  let cards := Sel card_sel in
  n ← ask (page_count cards);
  if (0 <? n)%nat then
    n ← ask (page_count cards);
    for_blocks
      (fun i => block_rows ["[data-uitest='resort-name']"; "h2"; "[class*='resort'] h2"]
                           ["[data-uitest*='unit-name']"; "h3"; "[class*='unit'] h3"; "h4"]
                           (Nth cards i) date_range)
      (seq 0 n) []
  else mret [].

Definition blocks_loc : loc :=
  HasText (Sel "section:has(h2), article:has(h2)") "\bpoints\b".

(** Secondary: section and article blocks that mention points. *)
Definition tier2 (date_range : text) : M W (list row) :=
  n ← ask (page_count blocks_loc);
  for_blocks
    (fun i => block_rows ["h2"] ["[data-uitest*='unit-name']"; "h3"; "h4"]
                         (Nth blocks_loc i) date_range)
    (seq 0 n) [].

Definition pts_nodes : loc :=
  Sel "xpath=//*[contains(translate(., 'POINTS','points'),'points')]".

(** The body of the loop of the third tier. *)
Definition node_rows (node : loc) (date_range : text) (rows : list row)
    : M W (list row) :=
  let block :=
    First (Sub node "xpath=ancestor::section[1] | xpath=ancestor::article[1] | xpath=ancestor::div[1]") in
  n ← ask (page_count block);
  if bool_decide (n = 0%nat) then mret rows
  else
    text ← block_text block;
    let pts := _points_from_text U text in
    if negb (nonempty pts) then mret rows
    else
      resort ← heading_loop false block ["h2"; "header h2"] [];
      room ← heading_loop false block ["[data-uitest*='unit-name']"; "h3"; "h4"] [];
      mret (rows ++ [{| date_range := date_range; resort := resort;
                        room := room; points := pts |}]).

(** Tertiary: a nearby heading for nodes that contain "points". *)
Definition tier3 (date_range : text) : M W (list row) :=
  n ← ask (page_count pts_nodes);
  let count := Nat.min 60 n in
  for_blocks (fun i => node_rows (Nth pts_nodes i) date_range) (seq 0 count) [].

(** What every row of a tier looks like. *)
Definition row_ok (dr : text) (r : row) : Prop :=
  date_range r = dr /\
  normalized U (resort r) /\ normalized U (room r) /\ digits U (points r) /\
  (resort r <> [] \/ room r <> [] \/ points r <> []).

End Tiers.

(** ** Saving *)


Definition fieldnames : list text :=
  T <$> ["Date Range"; "Resort"; "Room"; "Points"]%string.

(** [writer.writerow(r)]: the values of [r] in the order of [fieldnames]. *)
Definition writerow (f : list (list text)) (r : row) : list (list text) :=
  f ++ [[date_range r; resort r; room r; points r]].

(** [save_csv] on the files by path, a CSV file being held record by
    record; opening a file for appending creates it when it is missing. *)
Definition save_csv (rows : list row) (csv_path : string) (fs : gmap string (list (list text)))
    : gmap string (list (list text)) :=
  let new_file := negb (bool_decide (is_Some (fs !! csv_path))) in
  let f := default [] (fs !! csv_path) in
  let f := if new_file then f ++ [fieldnames] else f in
  <[csv_path := foldl writerow f rows]> fs.

(** Nothing to scrape, and nothing that raises. *)
Definition nothing_there : behaviour := {|
  fw_raises _ := false;
  fw_count _ := 0;
  fw_attr _ := None;
  fw_text _ := [];
  fw_items := []
|}.

(** * Properties *)


(** ** The matcher against the meaning of the patterns *)

Section RegexFacts.
Variable U : unicode_tables.

Lemma rep_loop_sound {R : Type} body (step : config -> config -> Prop)
    lo hi (k : option N -> text -> mtch -> option R) :
  (forall p s cp k' x, body p s cp k' = Some x ->
     exists c1, step {| prev := p; rest := s; cap := cp |} c1 /\
                run_k k' c1 = Some x) ->
  forall fuel n p s cp x,
    rep_loop body lo hi k fuel n p s cp = Some x ->
    exists c', rep_rel step lo hi n {| prev := p; rest := s; cap := cp |} c' /\
               run_k k c' = Some x.
Proof.
  intros Hbody fuel.
  induction fuel as [|fuel IH]; intros n p s cp x Hrun; simpl in Hrun.
  - destruct (lo <=? n)%nat eqn:Hlo; [|discriminate].
    apply Nat.leb_le in Hlo. eexists. split; [by apply rep_stop|]. exact Hrun.
  - assert (Hstop : (if (lo <=? n)%nat then k p s cp else None) = Some x ->
              exists c', rep_rel step lo hi n {| prev := p; rest := s; cap := cp |} c' /\
                         run_k k c' = Some x).
    { intros H. destruct (lo <=? n)%nat eqn:Hlo; [|discriminate].
      apply Nat.leb_le in Hlo. eexists. split; [by apply rep_stop|]. exact H. }
    destruct (below hi n) eqn:Hhi; [|by apply Hstop].
    match type of Hrun with
    | match ?b with _ => _ end = _ => destruct b as [y|] eqn:Hb
    end; [|by apply Hstop].
    injection Hrun as ->.
    apply Hbody in Hb as (c1 & Hstep & Hk). unfold run_k in Hk.
    destruct (length (rest c1) <? length s)%nat eqn:Hlen; [|discriminate].
    apply Nat.ltb_lt in Hlen. destruct c1 as [p1 s1 cp1]; simpl in *.
    apply IH in Hk as (c' & Hrep & Hk).
    exists c'. split; [|exact Hk].
    eapply rep_more; eauto.
Qed.

Lemma rep_loop_complete {R : Type} body (step : config -> config -> Prop)
    lo hi (k : option N -> text -> mtch -> option R) :
  (forall c c1 k', step c c1 -> is_Some (run_k k' c1) ->
     is_Some (body (prev c) (rest c) (cap c) k')) ->
  forall n c c', rep_rel step lo hi n c c' ->
    forall fuel, (length (rest c) <= fuel)%nat -> is_Some (run_k k c') ->
    is_Some (rep_loop body lo hi k fuel n (prev c) (rest c) (cap c)).
Proof.
  intros Hbody n c c' Hrep.
  induction Hrep as [n c Hlo | n c c1 c' Hhi Hstep Hlen Hrep IH];
    intros fuel Hfuel Hk.
  - apply Nat.leb_le in Hlo.
    destruct fuel as [|fuel]; simpl; rewrite Hlo.
    + exact Hk.
    + destruct (below hi n); [|exact Hk].
      match goal with |- is_Some (match ?b with _ => _ end) => destruct b end;
        [by eexists | exact Hk].
  - destruct fuel as [|fuel]; [lia|]. simpl. rewrite Hhi.
    assert (Hsome : is_Some (body (prev c) (rest c) (cap c)
              (fun prev' s' cap' =>
                 if (length s' <? length (rest c))%nat
                 then rep_loop body lo hi k fuel (S n) prev' s' cap'
                 else None))).
    { apply (Hbody c c1); [exact Hstep|]. unfold run_k.
      apply Nat.ltb_lt in Hlen as Hlen'. rewrite Hlen'.
      apply IH; [lia | exact Hk]. }
    destruct Hsome as [y ->]. by eexists.
Qed.

Lemma rmatch_sound {R : Type} r :
  forall p s cp (k : option N -> text -> mtch -> option R) x,
    rmatch U r p s cp k = Some x ->
    exists c', matches U r {| prev := p; rest := s; cap := cp |} c' /\
               run_k k c' = Some x.
Proof.
  induction r as [|q| |r1 IH1 r2 IH2|r1 IH1 r2 IH2|lo hi r1 IH1|r1 IH1];
    intros p s cp k x Hrun; simpl in Hrun.
  - eexists. split; [reflexivity | exact Hrun].
  - destruct s as [|c s']; [discriminate|].
    destruct (q c) eqn:Hq; [|discriminate].
    exists {| prev := Some c; rest := s'; cap := cp |}. split; [|exact Hrun].
    simpl. by exists c.
  - destruct (boundary U p (head s)) eqn:Hb; [|discriminate].
    exists {| prev := p; rest := s; cap := cp |}. split; [|exact Hrun]. by split.
  - apply IH1 in Hrun as (c1 & H1 & Hk). unfold run_k in Hk.
    apply IH2 in Hk as (c' & H2 & Hk).
    exists c'. split; [|exact Hk]. exists c1. split; [exact H1|].
    by destruct c1.
  - destruct (rmatch U r1 p s cp k) as [y|] eqn:H1.
    + injection Hrun as ->. apply IH1 in H1 as (c' & H1 & Hk).
      exists c'. split; [by left | exact Hk].
    + apply IH2 in Hrun as (c' & H2 & Hk).
      exists c'. split; [by right | exact Hk].
  - eapply rep_loop_sound in Hrun; [exact Hrun|]. intros. by apply IH1.
  - apply IH1 in Hrun as (c1 & H1 & Hk). unfold run_k in Hk.
    exists {| prev := prev c1; rest := rest c1;
              cap := Some (take (length s - length (rest c1)) s) |}.
    split; [|exact Hk]. simpl. exists (cap c1). split; [|reflexivity].
    by destruct c1.
Qed.

Lemma rmatch_complete {R : Type} r :
  forall c c' (k : option N -> text -> mtch -> option R),
    matches U r c c' -> is_Some (run_k k c') ->
    is_Some (rmatch U r (prev c) (rest c) (cap c) k).
Proof.
  induction r as [|q| |r1 IH1 r2 IH2|r1 IH1 r2 IH2|lo hi r1 IH1|r1 IH1];
    intros c c' k Hm Hk; simpl in Hm; simpl.
  - by subst.
  - destruct Hm as (ch & Hrest & Hq & Hprev & Hcap).
    rewrite Hrest, Hq. unfold run_k in Hk. by rewrite Hprev, Hcap in Hk.
  - destruct Hm as [Hb ->]. by rewrite Hb.
  - destruct Hm as (c1 & H1 & H2).
    apply (IH1 c c1); [exact H1|]. unfold run_k. by apply (IH2 c1 c').
  - destruct Hm as [H1|H2].
    + destruct (IH1 c c' k H1 Hk) as [y ->]. by eexists.
    + destruct (rmatch U r1 (prev c) (rest c) (cap c) k); [by eexists|].
      by apply (IH2 c c').
  - eapply (rep_loop_complete _ (matches U r1)); eauto.
  - destruct Hm as (cap1 & H1 & Hcap).
    apply (IH1 c _ _ H1). unfold run_k; simpl.
    unfold run_k in Hk. by rewrite Hcap in Hk.
Qed.

Lemma prev_after_cons p c w : prev_after p (c :: w) = prev_after (Some c) w.
Proof.
  unfold prev_after. destruct w as [|d w]; [done|].
  change (last (c :: d :: w)) with (last (d :: w)).
  by destruct (last (d :: w)) eqn:E; [|by apply last_None in E].
Qed.

Lemma prev_after_last (pre w : text) :
  prev_after (last pre) w = last (pre ++ w).
Proof. unfold prev_after. by rewrite last_app. Qed.

Lemma search_from_sound r : forall txt p mt,
  search_from U r p txt = Some mt ->
  exists pre s, txt = pre ++ s /\
    rmatch U r (prev_after p pre) s None accept = Some mt.
Proof.
  induction txt as [|c txt IH]; intros p mt H; simpl in H.
  - destruct (rmatch U r p [] None accept) eqn:E; [|discriminate].
    injection H as ->. by exists [], [].
  - destruct (rmatch U r p (c :: txt) None accept) eqn:E.
    + injection H as ->. by exists [], (c :: txt).
    + apply IH in H as (pre & s & -> & H).
      exists (c :: pre), s. split; [done|]. by rewrite prev_after_cons.
Qed.

Lemma search_from_complete r : forall pre p s,
  is_Some (rmatch U r (prev_after p pre) s None accept) ->
  is_Some (search_from U r p (pre ++ s)).
Proof.
  induction pre as [|c pre IH]; intros p s H.
  - simpl. change (prev_after p []) with p in H.
    destruct s; simpl; by destruct H as [y ->].
  - simpl. destruct (rmatch U r p (c :: pre ++ s) None accept); [by eexists|].
    apply IH. by rewrite <- (prev_after_cons p).
Qed.

Lemma matches_consumes r : forall c c',
  matches U r c c' -> exists w, rest c = w ++ rest c'.
Proof.
  induction r as [|q| |r1 IH1 r2 IH2|r1 IH1 r2 IH2|lo hi r1 IH1|r1 IH1];
    intros c c' Hm; simpl in Hm.
  - subst. by exists [].
  - destruct Hm as (ch & -> & _). by exists [ch].
  - destruct Hm as [_ ->]. by exists [].
  - destruct Hm as (c1 & H1 & H2).
    apply IH1 in H1 as [w1 ->]. apply IH2 in H2 as [w2 ->].
    exists (w1 ++ w2). by rewrite <- app_assoc.
  - destruct Hm as [H|H]; eauto.
  - induction Hm as [n c _ | n c c1 c' _ Hstep _ _ IH]; [by exists []|].
    apply IH1 in Hstep as [w1 ->]. destruct IH as [w2 ->].
    exists (w1 ++ w2). by rewrite <- app_assoc.
  - destruct Hm as (cap1 & H1 & _). by apply IH1 in H1.
Qed.

(** *** Runs of digits *)

Lemma rep_class_inv (q : N -> bool) lo hi : forall n c c',
  rep_rel (matches U (Chr q)) lo hi n c c' ->
  exists w, rest c = w ++ rest c' /\ Forall (fun ch => q ch = true) w /\
            (lo <= n + length w)%nat /\
            (forall h, hi = Some h -> (n <= h)%nat -> (n + length w <= h)%nat) /\
            cap c' = cap c.
Proof.
  intros n c c' H.
  induction H as [n c Hlo | n c c1 c' Hhi Hstep _ _ IH].
  - exists []. repeat split; [constructor | simpl; lia | simpl; intros; lia].
  - destruct Hstep as (ch & Hrest & Hd & _ & Hcap).
    destruct IH as (w & Hw & Hdig & Hlo & Hup & Hcap').
    exists (ch :: w). rewrite Hrest, Hw. repeat split.
    + by constructor.
    + simpl; lia.
    + intros h -> Hn. simpl in Hhi. apply Nat.ltb_lt in Hhi.
      specialize (Hup h eq_refl). simpl. lia.
    + congruence.
Qed.

Lemma rep_digits_intro lo hi cp s : forall w n p,
  digits U w -> (lo <= n + length w)%nat ->
  (forall h, hi = Some h -> (n + length w <= h)%nat) ->
  rep_rel (matches U (Chr (is_digit U))) lo hi n
    {| prev := p; rest := w ++ s; cap := cp |}
    {| prev := prev_after p w; rest := s; cap := cp |}.
Proof.
  induction w as [|d w IH]; intros n p Hdig Hlo Hup.
  - apply rep_stop. simpl in Hlo. lia.
  - apply Forall_cons in Hdig as [Hd Hdig]. simpl in Hlo.
    apply rep_more with (c1 := {| prev := Some d; rest := w ++ s; cap := cp |}).
    + destruct hi as [h|]; [|done]. simpl. apply Nat.ltb_lt.
      specialize (Hup h eq_refl). simpl in Hup. lia.
    + simpl. by exists d.
    + simpl. lia.
    + rewrite prev_after_cons. apply IH; [done | lia |].
      intros h Hh. specialize (Hup h Hh). simpl in Hup. lia.
Qed.

(** *** Thousands groups *)

Lemma prev_after_app p (a b : text) :
  prev_after p (a ++ b) = prev_after (prev_after p a) b.
Proof. unfold prev_after. rewrite last_app. by destruct (last b). Qed.

Lemma group_step_inv c c1 :
  matches U (group_re U) c c1 ->
  exists g, rest c = g ++ rest c1 /\ group3 U g /\ cap c1 = cap c.
Proof.
  intros (c0 & (ch & Hrest & Heq & _ & Hcap) & Hrep).
  apply rep_class_inv in Hrep as (w & Hw & Hdig & Hlo & Hup & Hcap').
  specialize (Hup 3%nat eq_refl). apply N.eqb_eq in Heq as <-.
  exists (comma :: w). rewrite Hrest, Hw. repeat split; [|congruence].
  exists w. repeat split; [lia | done].
Qed.

Lemma rep_groups_inv : forall n c c',
  rep_rel (matches U (group_re U)) 1 None n c c' ->
  exists gs, rest c = concat gs ++ rest c' /\ Forall (group3 U) gs /\
             (1 <= n + length gs)%nat /\ cap c' = cap c.
Proof.
  intros n c c' H.
  induction H as [n c Hlo | n c c1 c' _ Hstep _ _ IH].
  - exists []. repeat split; [constructor | simpl; lia].
  - apply group_step_inv in Hstep as (g & Hrest & Hg & Hcap).
    destruct IH as (gs & Hgs & Hall & _ & Hcap').
    exists (g :: gs). rewrite Hrest, Hgs. simpl. rewrite <- app_assoc.
    repeat split; [by constructor | lia | congruence].
Qed.

Lemma rep_groups_intro cp s : forall gs n p,
  Forall (group3 U) gs -> (1 <= n + length gs)%nat ->
  rep_rel (matches U (group_re U)) 1 None n
    {| prev := p; rest := concat gs ++ s; cap := cp |}
    {| prev := prev_after p (concat gs); rest := s; cap := cp |}.
Proof.
  induction gs as [|g gs IH]; intros n p Hall Hlo.
  - apply rep_stop. simpl in Hlo. lia.
  - apply Forall_cons in Hall as [(d & -> & Hlen & Hdig) Hall].
    apply rep_more with
      (c1 := {| prev := prev_after p (comma :: d);
                rest := concat gs ++ s; cap := cp |}).
    + done.
    + exists {| prev := Some comma; rest := d ++ concat gs ++ s; cap := cp |}.
      split.
      * exists comma. simpl. rewrite <- app_assoc. by repeat split.
      * rewrite prev_after_cons.
        apply rep_digits_intro; [done | lia | intros h [= <-]; lia].
    + simpl. rewrite !length_app. lia.
    + change (concat ((comma :: d) :: gs)) with ((comma :: d) ++ concat gs).
      rewrite prev_after_app. apply IH; [done | lia].
Qed.

Lemma take_consumed (w r : text) : take (length (w ++ r) - length r) (w ++ r) = w.
Proof.
  rewrite length_app.
  replace (length w + length r - length r)%nat with (length w) by lia.
  apply take_app_length.
Qed.

Lemma number_re_inv p s c' :
  matches U (number_re U) {| prev := p; rest := s; cap := None |} c' ->
  exists g, cap c' = Some g /\ s = g ++ rest c' /\ number_shape U g.
Proof.
  intros (c1 & (_ & ->) & c2 & (cap1 & Halt & Hcap) & (_ & ->)).
  simpl in Hcap, Halt.
  assert (Hw : exists w, s = w ++ rest c2 /\ number_shape U w).
  { destruct Halt as [(c3 & Hh & Hg) | Hl].
    - apply rep_class_inv in Hh as (h & Hh & Hdig & Hlo & Hup & _).
      apply rep_groups_inv in Hg as (gs & Hgs & Hall & Hn & _).
      specialize (Hup 3%nat eq_refl). simpl in Hh, Hgs.
      exists (h ++ concat gs). rewrite Hh, Hgs, <- app_assoc. split; [done|].
      left. exists h, gs. repeat split; [lia | lia | done | | done].
      intros ->. simpl in Hn. lia.
    - apply rep_class_inv in Hl as (w & Hw & Hdig & Hlo & _).
      simpl in Hw. exists w. split; [done|]. right. split; [lia | done]. }
  destruct Hw as (w & -> & Hshape).
  exists w. rewrite Hcap, take_consumed. done.
Qed.

Lemma number_re_intro pre num post :
  number_token U pre num post ->
  matches U (number_re U)
    {| prev := last pre; rest := num ++ post; cap := None |}
    {| prev := last (pre ++ num); rest := post; cap := Some num |}.
Proof.
  intros (Hshape & Hb1 & Hb2).
  exists {| prev := last pre; rest := num ++ post; cap := None |}.
  split; [done|].
  exists {| prev := last (pre ++ num); rest := post; cap := Some num |}.
  split; [|done].
  exists None. simpl. split; [|by rewrite take_consumed].
  rewrite <- prev_after_last.
  destruct Hshape as [(h & gs & -> & Hlen & Hdig & Hne & Hall) | [Hlen Hdig]].
  - left.
    exists {| prev := prev_after (last pre) h; rest := concat gs ++ post;
              cap := None |}.
    split.
    + rewrite <- app_assoc.
      apply rep_digits_intro; [done | lia | intros ? [= <-]; lia].
    + rewrite prev_after_app. apply rep_groups_intro; [done|].
      destruct gs; [done | simpl; lia].
  - right. apply rep_digits_intro; [done | lia | done].
Qed.

Lemma number_shape_digit g :
  number_shape U g -> exists d w, g = d :: w /\ is_digit U d = true.
Proof.
  intros [(h & gs & -> & Hlen & Hdig & _) | [Hlen Hdig]].
  - destruct h as [|d h]; [simpl in Hlen; lia|].
    apply Forall_cons in Hdig as [Hd _]. by exists d, (h ++ concat gs).
  - destruct g as [|d g]; [simpl in Hlen; lia|].
    apply Forall_cons in Hdig as [Hd _]. by exists d, g.
Qed.

Lemma replace_comma_number g : number_shape U g -> replace_comma g <> [].
Proof.
  intros (d & w & -> & Hd)%number_shape_digit Hnil.
  unfold replace_comma in Hnil. simpl in Hnil.
  destruct (d =? comma)%N eqn:E; [|discriminate].
  apply N.eqb_eq in E. subst d. vm_compute in Hd. discriminate.
Qed.

(** *** The word "points" *)

Lemma lit_ci_prefix w : forall c c',
  matches U (lit_ci U w) c c' -> prefix_ci U w (rest c) = true.
Proof.
  induction w as [|q w IH]; intros c c' Hm; [done|].
  destruct Hm as (c1 & (ch & Hrest & Hq & _) & Hm).
  rewrite Hrest. simpl. rewrite Hq. simpl. by eapply IH.
Qed.

Lemma lit_ci_cap w : forall c c', matches U (lit_ci U w) c c' -> cap c' = cap c.
Proof.
  induction w as [|q w IH]; intros c c' Hm; [by rewrite Hm|].
  destruct Hm as (c1 & (ch & _ & _ & _ & Hcap) & Hm).
  apply IH in Hm. congruence.
Qed.

(** What a match of the first pattern is made of. *)
Lemma points_re_inv p s c' :
  matches U (points_re U) {| prev := p; rest := s; cap := None |} c' ->
  exists g sp post,
    s = g ++ sp ++ post /\ g <> [] /\
    Forall (fun ch => digit_or_comma U ch = true) g /\
    Forall (fun ch => is_space U ch = true) sp /\
    prefix_ci U (T "points") post = true /\
    cap c' = Some g.
Proof.
  intros (c1 & (cap1 & Hrun & Hcap1) & c2 & Hsp & Hlit). simpl in Hrun, Hcap1.
  apply rep_class_inv in Hrun as (g & Hg & Hall & Hlo & _). simpl in Hg.
  apply rep_class_inv in Hsp as (sp & Hsp & Hspall & _ & _ & Hcap2).
  pose proof (lit_ci_prefix _ _ _ Hlit) as Hpre.
  apply lit_ci_cap in Hlit.
  exists g, sp, (rest c2). rewrite Hg, Hsp in *.
  split_and!; [done | | done | done | done |].
  - intros ->. simpl in Hlo. lia.
  - by rewrite Hlit, Hcap2, Hcap1, take_consumed.
Qed.

Lemma occurs_ci_app w : forall pre s,
  prefix_ci U w s = true -> occurs_ci U w (pre ++ s) = true.
Proof.
  induction pre as [|c pre IH]; intros s H; simpl.
  - destruct s; simpl; by rewrite H.
  - rewrite IH by done. apply orb_true_r.
Qed.

Lemma points_re_mentions txt :
  is_Some (re_search U (points_re U) txt) ->
  occurs_ci U (T "points") txt = true.
Proof.
  intros [mt H]. apply search_from_sound in H as (pre & s & -> & H).
  apply rmatch_sound in H as (c' & Hm & _).
  destruct Hm as (c1 & Hg & c2 & Hs & Hp).
  apply matches_consumes in Hg as [w1 Hw1], Hs as [w2 Hw2].
  apply lit_ci_prefix in Hp. simpl in Hw1. rewrite Hw1, Hw2.
  rewrite !app_assoc. by apply occurs_ci_app.
Qed.

End RegexFacts.

(** ** Points parsing *)

(** The two inputs of the specification's points-parsing property. *)
Lemma points_oceanview (U : unicode_tables) :
  clean_points_from_text U
    (T "Oceanview Suite " ++ [em_dash] ++ T " 1,234 points/night") = T "1234".
Proof.
  destruct U as [dg sp wd cs]. vm_compute.
  destruct (dg 8212%N); reflexivity.
Qed.

Lemma points_studio_199 (U : unicode_tables) :
  clean_points_from_text U (T "Studio from $199") = [].
Proof. vm_compute. reflexivity. Qed.

Lemma points_dollar_price (U : unicode_tables) :
  clean_points_from_text U (T "Studio from $1,999") = T "1999".
Proof. vm_compute. reflexivity. Qed.

(** What the function returns when the first pattern matches: the commas
    removed from a non-empty run of digits and commas that is followed by
    white space, if any, and the word "points". *)
Lemma clean_points_first_run (U : unicode_tables) (txt : text) :
  is_Some (re_search U (points_re U) txt) ->
  exists pre g sp post,
    txt = pre ++ g ++ sp ++ post /\ g <> [] /\
    Forall (fun ch => digit_or_comma U ch = true) g /\
    Forall (fun ch => is_space U ch = true) sp /\
    prefix_ci U (T "points") post = true /\
    clean_points_from_text U txt = replace_comma g.
Proof.
  intros [mt Hs].
  assert (Hclean : clean_points_from_text U txt = replace_comma (group1 mt)).
  { unfold clean_points_from_text. rewrite Hs. destruct txt; [|done].
    vm_compute in Hs. discriminate. }
  apply search_from_sound in Hs as (pre & s & -> & Hrun).
  apply rmatch_sound in Hrun as (c' & Hm & Hacc).
  apply points_re_inv in Hm as (g & sp & post & -> & Hne & Hg & Hsp & Hpost & Hcap).
  unfold run_k, accept in Hacc. injection Hacc as <-.
  rewrite Hcap in Hclean. exists pre, g, sp, post. by split_and!.
Qed.

(** C3 (the code departs from the claim): a comma before the word "points"
    is taken by [[\d,]+] as the number, so the text below, whose first
    number followed by "points" is 2,500, yields the empty string and the
    second pattern is never consulted. *)
Theorem clean_points_comma_run (U : unicode_tables) :
  clean_points_from_text U (T "Studio, points from 2,500 points") = [] /\
  _points_from_text U (T "Studio, points from 2,500 points") = [].
Proof. split; vm_compute; reflexivity. Qed.



(** ** Opening the resorts list box *)

Ltac unfold_m :=
  unfold mbind, mret, M_bind, M_ret, bind, ret, raise, try_except, pass, act, ask.

Ltac case_perform :=
  repeat match goal with
         | |- context [perform ?c ?w] =>
             destruct (perform c w) as [[[]|?] ?]; simpl
         end.

Ltac prefix_by_computation := eexists; simpl; reflexivity.

Ltac split_log d v :=
  exists d, v; simpl; rewrite <- ?app_assoc; simpl;
  split; [first [reflexivity | symmetry; apply app_nil_r]|];
  split; [prefix_by_computation|];
  split; [prefix_by_computation|];
  intros p Hp; try discriminate; injection Hp as <-; split; reflexivity.

Lemma bind_ok {W A B : Type} (m : M W A) (f : A -> M W B) s a s' :
  m s = (Ok a, s') -> (m ≫= f) s = f a s'.
Proof. intros Hm. unfold_m. by rewrite Hm. Qed.

Lemma bind_raise {W A B : Type} (m : M W A) (f : A -> M W B) s e s' :
  m s = (Raise e, s') -> (m ≫= f) s = (Raise e, s').
Proof. intros Hm. unfold_m. by rewrite Hm. Qed.

Section Opening.
Context {W : Type} `{Session W}.

(** What one attempt adds to the log: some first calls of its own
    technique, then at most the wait for the panel; on success, that wait
    is the last call. *)
Lemma attempt_body_log (j : nat) (s : st W) :
  exists d v, log (attempt_body j s).2 = log s ++ d ++ v /\
    d `prefix_of` technique j /\
    v `prefix_of` [WaitFor ResortsPanel Visible] /\
    (forall p, (attempt_body j s).1 = Ok p ->
       p = ResortsPanel /\ v = [WaitFor ResortsPanel Visible]).
Proof.
  destruct s as [w lg].
  destruct (decide (j < 5)%nat) as [Hlt|Hge].
  - do 5 (destruct j as [|j]; [
      unfold attempt_body, strategy, technique; unfold_m; simpl;
      case_perform;
      first [ split_log (technique 0) [WaitFor ResortsPanel Visible]
            | split_log (technique 1) [WaitFor ResortsPanel Visible]
            | split_log (technique 2) [WaitFor ResortsPanel Visible]
            | split_log (technique 3) [WaitFor ResortsPanel Visible]
            | split_log (technique 4) [WaitFor ResortsPanel Visible]
            | split_log [Focus ResortsBtn] (@nil call)
            | split_log (technique 0) (@nil call)
            | split_log (technique 1) (@nil call)
            | split_log (technique 2) (@nil call)
            | split_log (technique 3) (@nil call)
            | split_log (technique 4) (@nil call) ] |]).
    lia.
  - assert (Hs : strategy (W:=W) j = strategy 5).
    { do 5 (destruct j as [|j]; [lia|]). reflexivity. }
    assert (Ht : technique j = technique 5).
    { do 5 (destruct j as [|j]; [lia|]). reflexivity. }
    unfold attempt_body. rewrite Hs, Ht.
    unfold strategy, technique; unfold_m; simpl.
    destruct (element_handle ResortsBtn w) as [[[]|?] ?]; simpl;
      case_perform;
      first [ split_log (technique 5) [WaitFor ResortsPanel Visible]
            | split_log (@nil call) [WaitFor ResortsPanel Visible]
            | split_log (technique 5) (@nil call)
            | split_log (@nil call) (@nil call) ].
Qed.

Lemma attempts_first_ok (j : nat) (rest : list nat) (s : st W) :
  (attempt_body j s).1 = Ok ResortsPanel ->
  attempts (j :: rest) s = (Ok (Some ResortsPanel), (attempt_body j s).2).
Proof.
  intros Hok. simpl. unfold_m.
  destruct (attempt_body j s) as [[p|e] s1]; simpl in *; [|discriminate].
  by injection Hok as ->.
Qed.

Lemma attempts_skip_failed (rest : list nat) : forall (pre : list nat) (s : st W),
  (forall k j, pre !! k = Some j ->
     exists e, (attempt_body j (after_attempts (take k pre) s)).1 = Raise e) ->
  attempts (pre ++ rest) s = attempts rest (after_attempts pre s).
Proof.
  induction pre as [|j pre IH]; intros s Hfail; [done|].
  destruct (Hfail 0%nat j eq_refl) as [e He]. simpl in He.
  change (attempts ((j :: pre) ++ rest) s) with
    ((r ← try_except (panel ← attempt_body j; mret (Some panel)) (mret None);
      match r with
      | Some panel => mret (Some panel)
      | None => attempts (pre ++ rest)
      end) s).
  unfold_m. destruct (attempt_body j s) as [[p|e'] s1] eqn:Hb;
    simpl in He; [discriminate|].
  rewrite IH.
  - simpl. by rewrite Hb.
  - intros k j' Hk. specialize (Hfail (S k) j' Hk). simpl in Hfail.
    by rewrite Hb in Hfail.
Qed.

Lemma after_attempts_snoc (js : list nat) (j : nat) (s : st W) :
  after_attempts (js ++ [j]) s = (attempt_body j (after_attempts js s)).2.
Proof. unfold after_attempts. by rewrite foldl_app. Qed.

Lemma after_attempts_log (n : nat) (s : st W) :
  exists failed : list (list call),
    length failed = n /\
    (forall j l, failed !! j = Some l ->
       exists d v, l = d ++ v /\ d `prefix_of` technique j /\
                   v `prefix_of` [WaitFor ResortsPanel Visible]) /\
    log (after_attempts (seq 0 n) s) = log s ++ concat failed.
Proof.
  induction n as [|n (failed & Hlen & Hall & Hlog)].
  - exists []. repeat split; [|by rewrite app_nil_r]. by intros ? ? [=].
  - rewrite seq_S, after_attempts_snoc. simpl.
    destruct (attempt_body_log n (after_attempts (seq 0 n) s))
      as (d & v & Hl & Hd & Hv & _).
    exists (failed ++ [d ++ v]). repeat split.
    + rewrite length_app. simpl. lia.
    + intros j l Hj. apply lookup_app_Some in Hj as [Hj|[Hge Hj]]; [by eauto|].
      rewrite Hlen in Hj, Hge.
      destruct (j - n)%nat as [|?] eqn:E; [|done]. injection Hj as <-.
      assert (j = n) as -> by lia. by exists d, v.
    + rewrite Hl, Hlog, concat_app. simpl. by rewrite app_nil_r, <- !app_assoc.
Qed.

Lemma open_after_prelude (s s0 : st W) :
  (act (WaitFor ResortsBtn Visible);; act (ScrollIntoView ResortsBtn) : M W unit) s
    = (Ok tt, s0) ->
  open_resorts_dropdown s =
    match attempts (seq 0 6) s0 with
    | (Ok (Some panel), s1) => (Ok panel, s1)
    | (Ok None, s1) =>
        (write_debug "open_dropdown_failed";;
         raise (TimeoutError
           "Location listbox did not appear after clicking the dropdown.")
         : M W locator) s1
    | (Raise e, s1) => (Raise e, s1)
    end.
Proof.
  unfold open_resorts_dropdown. generalize (attempts (W:=W) (seq 0 6)) as A.
  intros A. unfold_m. simpl.
  destruct (perform (WaitFor ResortsBtn Visible) (env s)) as [[[]|?] w1];
    simpl; [|discriminate].
  destruct (perform (ScrollIntoView ResortsBtn) w1) as [[[]|?] w2];
    simpl; [|discriminate].
  intros [= <-]. by destruct (A _) as [[[p|]|e] s1].
Qed.


End Opening.


(** ** Counters *)

Section CounterFacts.
Context {W : Type} `{Session W}.
Variable py_int : text -> option Z.

Lemma read_counter_log (span : locator) (s : st W) :
  log (read_counter py_int span s).2 = log s.
Proof.
  unfold read_counter. unfold_m. destruct s as [w lg]; simpl.
  destruct (inner_text span w) as [[txt|e] w1]; simpl; [|done].
  by destruct (py_int _).
Qed.

Lemma counter_step_log (adults : bool) (cur target : Z) (s : st W) :
  let step : M W unit :=
    if bool_decide (cur < target)%Z
    then act (Click (PlusBtn adults) false)
    else try_except (act (Click (MinusBtn adults) false)) pass in
  exists c, counter_click adults c /\ log (step s).2 = log s ++ [c] /\
    forall e, (step s).1 = Raise e ->
      c = Click (PlusBtn adults) false /\
      (perform (Click (PlusBtn adults) false) (env s)).1 = Raise e.
Proof.
  simpl. destruct s as [w lg]. case_bool_decide; unfold_m; simpl.
  - exists (Click (PlusBtn adults) false).
    destruct (perform (Click (PlusBtn adults) false) w) as [[[]|e] w1]; simpl;
      (split; [by left|]); (split; [done|]); by intros e' [= <-].
  - exists (Click (MinusBtn adults) false).
    destruct (perform (Click (MinusBtn adults) false) w) as [[[]|e] w1]; simpl;
      (split; [by right|]); (split; [done|]); by intros e' [=].
Qed.

Lemma counter_loop_bounded (adults : bool) (target : Z) :
  forall (budget : nat) (cur : Z) (tries : nat) (s : st W),
  exists clicks,
    log (counter_loop py_int adults target budget cur tries s).2 = log s ++ clicks /\
    (length clicks <= budget)%nat /\
    Forall (counter_click adults) clicks /\
    match (counter_loop py_int adults target budget cur tries s).1 with
    | Ok (cur', tries') =>
        tries' = (tries + length clicks)%nat /\
        (cur' = target \/ length clicks = budget)
    | Raise e =>
        last clicks = Some (Click (PlusBtn adults) false) /\
        exists w, (perform (Click (PlusBtn adults) false) w).1 = Raise e
    end.
Proof.
  induction budget as [|budget IH]; intros cur tries s.
  - exists []. simpl. rewrite app_nil_r.
    repeat split; [lia | constructor | lia | by right].
  - simpl. case_bool_decide as Hcur.
    { exists []. unfold_m. simpl. rewrite app_nil_r.
      repeat split; [lia | constructor | lia | by left]. }
    destruct (counter_step_log adults cur target s) as (c & Hc & Hlog1 & Hraise).
    simpl in Hlog1, Hraise.
    match goal with
    | |- context [mbind _ ?m s] => destruct (m s) as [[[]|e] s1] eqn:Hstep
    end.
    + rewrite (bind_ok _ _ _ _ _ Hstep). simpl in Hlog1.
      pose proof (read_counter_log (CounterSpan adults) s1) as Hl.
      match goal with
      | |- context [mbind _ ?m s1] =>
          assert (Hread : exists cur' s2, m s1 = (Ok cur', s2) /\ log s2 = log s1)
      end.
      { unfold try_except, mret, M_ret, ret.
        destruct (read_counter py_int (CounterSpan adults) s1) as [[c'|e] s2];
          simpl in Hl; eauto. }
      destruct Hread as (cur' & s2 & Hr & Hl2).
      rewrite (bind_ok _ _ _ _ _ Hr).
      destruct (IH cur' (S tries) s2) as (clicks & Hlog & Hlen & Hall & Hres).
      exists (c :: clicks). rewrite Hlog, Hl2, Hlog1, <- app_assoc. simpl.
      repeat split; [lia | by constructor |].
      destruct (counter_loop py_int adults target budget cur' (S tries) s2).1
        as [[c' t]|e].
      * destruct Hres as [-> Hres]. split; [lia|].
        destruct Hres; [by left | right; lia].
      * destruct Hres as [Hlast Hw]. split; [|done]. by rewrite last_cons, Hlast.
    + rewrite (bind_raise _ _ _ _ _ Hstep). simpl in Hlog1 |- *.
      destruct (Hraise e eq_refl) as [-> Hw].
      exists [Click (PlusBtn adults) false].
      repeat split; [done | simpl; lia | by repeat constructor | by eauto].
Qed.

(** C10: whatever the counter shows and whatever the target, [set_counter]
    clicks at most 30 times, only on the two stepper buttons, and then
    returns: the only exceptions that can leave it are those of the first
    reading and of a click on the plus button.  Running out of the 30
    rounds raises nothing. *)
Theorem set_counter_bounded (kind : string) (target : Z) (s : st W) :
  let adults := bool_decide (kind = "adults") in
  exists clicks,
    log (set_counter py_int kind target s).2 = log s ++ clicks /\
    (length clicks <= 30)%nat /\
    Forall (counter_click adults) clicks /\
    ((set_counter py_int kind target s).1 = Ok tt \/
     exists e, (set_counter py_int kind target s).1 = Raise e /\
       ((clicks = [] /\ (read_counter py_int (CounterSpan adults) s).1 = Raise e) \/
        (last clicks = Some (Click (PlusBtn adults) false) /\
         exists w, (perform (Click (PlusBtn adults) false) w).1 = Raise e))).
Proof.
  intros adults. unfold set_counter. fold adults. unfold_m.
  pose proof (read_counter_log (CounterSpan adults) s) as Hl.
  destruct (read_counter py_int (CounterSpan adults) s) as [[cur|e] s1] eqn:Hr;
    simpl in Hl.
  - destruct (counter_loop_bounded adults target 30 cur 0 s1)
      as (clicks & Hlog & Hlen & Hall & Hres).
    exists clicks.
    destruct (counter_loop py_int adults target 30 cur 0 s1) as [[[c t]|e] s2];
      simpl in *; rewrite Hlog, Hl; repeat split; try done.
    + by left.
    + right. exists e. split; [done|]. by right.
  - exists []. simpl. rewrite app_nil_r, Hl. repeat split; [lia | constructor |].
    right. exists e. split; [done|]. by left.
Qed.

End CounterFacts.

(** A counter stuck at 0 with target 2: thirty clicks on the plus button,
    then a normal return. *)
Lemma set_counter_exhausted :
  set_counter (fun _ => Some 0%Z) "adults" 2 (start stuck_counter)
  = (Ok tt, {| env := Fixed stuck_counter;
               log := replicate 30 (Click (PlusBtn true) false) |}).
Proof. vm_compute. reflexivity. Qed.

(** ** Selecting the Florida locations *)

Section ReturnsFacts.
Context {W : Type} `{Session W}.

Lemma returns_ret {A : Type} (a : A) : returns (mret a : M W A).
Proof. intros s. by eexists _, _. Qed.

Lemma returns_bind {A B : Type} (m : M W A) (f : A -> M W B) :
  returns m -> (forall a, returns (f a)) -> returns (m ≫= f).
Proof.
  intros Hm Hf s. destruct (Hm s) as (a & s1 & Hs).
  rewrite (bind_ok _ _ _ _ _ Hs). apply Hf.
Qed.

Lemma returns_try {A : Type} (m h : M W A) : returns h -> returns (try_except m h).
Proof.
  intros Hh s. unfold try_except.
  destruct (m s) as [[a|e] s1]; [by eexists _, _ | apply Hh].
Qed.

Lemma returns_ask {A : Type} (q : W -> result A * W) :
  never_raises q -> returns (ask q).
Proof.
  intros Hq s. unfold ask. destruct (Hq (env s)) as (a & w & ->). by eexists _, _.
Qed.

Lemma returns_act (c : call) : never_raises (perform c) -> returns (act c).
Proof.
  intros Hq s. unfold act. destruct (Hq (env s)) as (a & w & ->). by eexists _, _.
Qed.

Lemma write_debug_run (stem : string) (s : st W) :
  exists s', write_debug stem s = (Ok tt, s') /\
             log s' = log s ++ debug_calls stem.
Proof.
  unfold write_debug, debug_calls. unfold_m. destruct s as [w lg]. simpl.
  destruct (perform (Screenshot None (stem +:+ ".png")) w) as [[[]|?] w1]; simpl;
    destruct (perform (WriteContent (stem +:+ ".html")) w1) as [[[]|?] w2]; simpl;
    eexists; (split; [reflexivity|]); simpl; by rewrite <- app_assoc.
Qed.

End ReturnsFacts.

(** When the six attempts all fail, the opener writes its snapshot and
    raises; so does [select_all_florida_locations], which calls it first. *)
Lemma open_resorts_dropdown_gives_up {W : Type} `{Session W}
    (looks_done : text -> bool) (s s0 : st W) :
  (act (WaitFor ResortsBtn Visible);; act (ScrollIntoView ResortsBtn) : M W unit) s
    = (Ok tt, s0) ->
  (forall j, (j < 6)%nat ->
     exists e, (attempt_body j (after_attempts (seq 0 j) s0)).1 = Raise e) ->
  exists s',
    open_resorts_dropdown s
    = (Raise (TimeoutError
         "Location listbox did not appear after clicking the dropdown."), s') /\
    select_all_florida_locations looks_done s
    = (Raise (TimeoutError
         "Location listbox did not appear after clicking the dropdown."), s') /\
    log s' = log (after_attempts (seq 0 6) s0) ++ debug_calls "open_dropdown_failed".
Proof.
  intros Hpre Hfail.
  assert (Hatt : attempts (seq 0 6) s0 = (Ok None, after_attempts (seq 0 6) s0)).
  { rewrite <- (app_nil_r (seq 0 6)) at 1. rewrite attempts_skip_failed; [done|].
    intros k j Hk. apply lookup_seq in Hk as [-> Hk].
    change (0 + k)%nat with k.
    rewrite take_seq. replace (k `min` 6)%nat with k by lia. by apply Hfail. }
  destruct (write_debug_run "open_dropdown_failed" (after_attempts (seq 0 6) s0))
    as (s' & Hd & Hl).
  assert (Hopen : open_resorts_dropdown s
    = (Raise (TimeoutError
         "Location listbox did not appear after clicking the dropdown."), s')).
  { rewrite (open_after_prelude s s0 Hpre), Hatt.
    by rewrite (bind_ok _ _ _ _ _ Hd). }
  exists s'. split_and!; [done | | done].
  unfold select_all_florida_locations. by rewrite (bind_raise _ _ _ _ _ Hopen).
Qed.

Section FloridaFacts.
Context {W : Type} `{Session W}.
Hypothesis quiet : unguarded_calls_return W.

Lemma aria_selected_returns (fid : string) : returns (aria_selected (OptionLi fid)).
Proof.
  apply returns_bind; [|intros; apply returns_ret].
  apply returns_ask, quiet.
Qed.

Lemma find_florida_returns (n : nat) : returns (find_florida n).
Proof.
  induction n as [|n IH]; simpl; [apply returns_ret|].
  apply returns_bind; [apply returns_ask, quiet|]. intros c.
  destruct (0 <? c)%nat; [apply returns_ret|].
  apply returns_bind; [|done]. apply returns_try, returns_ret.
Qed.

Lemma collect_ids_returns (n : nat) : forall ids, returns (collect_ids n ids).
Proof.
  induction n as [|n IH]; intros ids; simpl; [apply returns_ret|].
  apply returns_bind.
  { apply returns_bind; [apply returns_ask, quiet | intros; apply returns_ret]. }
  intros snap. destruct (_ && _); [apply returns_ret|].
  apply returns_bind; [|done]. apply returns_try, returns_ret.
Qed.

Lemma poll_selected_returns (n : nat) (fid : string) (want : bool) :
  returns (poll_selected n (OptionLi fid) want).
Proof.
  induction n as [|n IH]; simpl; [apply returns_ret|].
  apply returns_bind; [apply aria_selected_returns|]. intros sel.
  case_bool_decide; [apply returns_ret | done].
Qed.

Lemma select_one_returns (fid : string) : returns (select_one fid).
Proof.
  unfold select_one.
  apply returns_bind; [apply aria_selected_returns|]. intros [|];
    [apply returns_ret|].
  apply returns_bind; [apply returns_try, returns_ret|]. intros _.
  apply returns_bind.
  { unfold click_option. do 2 apply returns_try. apply returns_act, quiet. }
  intros _. apply returns_bind; [apply poll_selected_returns|]. intros [|];
    [apply returns_ret|].
  apply returns_bind; [apply returns_act, quiet|]. intros _.
  apply returns_bind; [apply aria_selected_returns|]. intros; apply returns_ret.
Qed.

Lemma select_each_returns (ids : list string) : returns (select_each ids).
Proof.
  induction ids as [|fid ids IH]; simpl; [apply returns_ret|].
  apply returns_bind; [apply select_one_returns|]. intros n.
  apply returns_bind; [done|]. intros; apply returns_ret.
Qed.

Lemma count_confirmed_returns (ids : list string) : returns (count_confirmed ids).
Proof.
  induction ids as [|fid ids IH]; simpl; [apply returns_ret|].
  apply returns_bind; [apply aria_selected_returns|]. intros n.
  apply returns_bind; [done|]. intros; apply returns_ret.
Qed.

Lemma wait_button_text_returns (n : nat) (looks_done : text -> bool) :
  returns (wait_button_text n looks_done).
Proof.
  induction n as [|n IH]; simpl; [apply returns_ret|].
  apply returns_bind; [apply returns_try, returns_ret|]. intros txt.
  destruct (looks_done txt); [apply returns_ret | done].
Qed.


End FloridaFacts.

Lemma clicks_without_effect_quiet :
  unguarded_calls_return (fixed_world clicks_without_effect).
Proof. split; intros; intros w; by eexists _, _. Qed.



(** ** The unit-size panel *)

Section PanelFacts.
Implicit Types (m : gmap string bool) (os : list outcome) (lg : list call).

Lemma aria_selected_ui id b m os lg :
  m !! id = Some b ->
  aria_selected (UnitLi id) (ui m os lg) = (Ok b, ui m os lg).
Proof.
  intros Hm. unfold aria_selected, ui. unfold_m. simpl.
  unfold panel_get_attribute. simpl. rewrite Hm. by destruct b.
Qed.

Lemma aria_selected_ui_none id m os lg :
  m !! id = None ->
  aria_selected (UnitLi id) (ui m os lg) = (Raise PlaywrightError, ui m os lg).
Proof.
  intros Hm. unfold aria_selected, ui. unfold_m. simpl.
  unfold panel_get_attribute. simpl. by rewrite Hm.
Qed.

Lemma poll_selected_ui n id b want m os lg :
  m !! id = Some b ->
  poll_selected (S n) (UnitLi id) want (ui m os lg)
  = (Ok (bool_decide (b = want)), ui m os lg).
Proof.
  intros Hm. induction n as [|n IH].
  - simpl. rewrite (bind_ok _ _ _ _ _ (aria_selected_ui id b m os lg Hm)).
    by case_bool_decide.
  - change (poll_selected (S (S n)) (UnitLi id) want) with
      (selected ← aria_selected (UnitLi id);
       if bool_decide (selected = want) then mret true
       else poll_selected (S n) (UnitLi id) want : M panel_ui bool).
    rewrite (bind_ok _ _ _ _ _ (aria_selected_ui id b m os lg Hm)).
    case_bool_decide; [done | by rewrite IH].
Qed.

Lemma click_option_ui id b m os lg :
  m !! id = Some b ->
  exists r m' os' lg',
    click_option (UnitRowLabel id) (UnitLi id) (ui m os lg) = (r, ui m' os' lg') /\
    (m' = m \/ m' = <[id := negb b]> m) /\
    os' `suffix_of` os /\
    (Fails ∉ os -> r = Ok tt).
Proof.
  intros Hm. unfold click_option, ui. unfold_m. simpl.
  assert (Ht : toggle id m = <[id := negb b]> m) by (unfold toggle; by rewrite Hm).
  destruct os as [|[| |] [|[| |] [|[| |] os]]]; simpl; rewrite ?Ht;
    (eexists _, _, _, _; split; [reflexivity|];
     split; [first [by left | by right]|];
     split; [first [done | by apply suffix_nil
                   | by apply suffix_cons_r
                   | by do 2 apply suffix_cons_r
                   | by do 3 apply suffix_cons_r]
            | first [done | set_solver]]).
Qed.

Lemma ensure_state_ui name id should m os lg :
  exists r m' os' lg',
    ensure_state name id should (ui m os lg) = (r, ui m' os' lg') /\
    os' `suffix_of` os /\
    (r = Ok tt ->
       m' = match m !! id with Some _ => <[id := should]> m | None => m end) /\
    (Fails ∉ os -> r = Ok tt).
Proof.
  unfold ensure_state.
  destruct (m !! id) as [b|] eqn:Hm.
  - assert (Hc : ask (count (UnitRowLabel id)) (ui m os lg) = (Ok 1%nat, ui m os lg)).
    { unfold ask, ui; simpl. unfold panel_count. by rewrite Hm. }
    rewrite (bind_ok _ _ _ _ _ Hc). rewrite bool_decide_eq_false_2 by done.
    rewrite (bind_ok _ _ _ _ _ (aria_selected_ui id b m os lg Hm)).
    case_bool_decide as Hb.
    { subst. exists (Ok tt), m, os, lg. split_and!; [done | done | | done].
      intros _. by rewrite insert_id. }
    assert (Hneg : negb b = should) by (by destruct b, should).
    destruct (click_option_ui id b m os lg Hm)
      as (r & m1 & os1 & lg1 & Hclick & Hm1 & Hsuf & Hok).
    destruct r as [[]|e].
    + rewrite (bind_ok _ _ _ _ _ Hclick).
      assert (Hb1 : exists b1, m1 !! id = Some b1 /\
                (b1 = should -> m1 = <[id := should]> m) /\
                <[id := should]> m1 = <[id := should]> m).
      { destruct Hm1 as [-> | ->].
        - exists b. split_and!; [done | congruence | done].
        - exists (negb b). rewrite lookup_insert_eq, Hneg.
          split_and!; [done | done |]. by rewrite insert_insert_eq. }
      destruct Hb1 as (b1 & Hl1 & Heq1 & Hins).
      rewrite (bind_ok _ _ _ _ _ (poll_selected_ui 11 id b1 should m1 os1 lg1 Hl1)).
      case_bool_decide as Hseen.
      * exists (Ok tt), m1, os1, lg1. split_and!; [done | done | auto | done].
      * exists (Ok tt), (<[id := should]> m1), os1,
          (lg1 ++ [InjectChecked id should]).
        split_and!; [| done | by rewrite Hins | done].
        unfold act, ui; simpl. by rewrite Hl1.
    + rewrite (bind_raise _ _ _ _ _ Hclick).
      exists (Raise e), m1, os1, lg1. split_and!; [done | done | done |].
      intros Hno. by specialize (Hok Hno).
  - assert (Hc : ask (count (UnitRowLabel id)) (ui m os lg) = (Ok 0%nat, ui m os lg)).
    { unfold ask, ui; simpl. unfold panel_count. by rewrite Hm. }
    rewrite (bind_ok _ _ _ _ _ Hc). rewrite bool_decide_eq_true_2 by done.
    by exists (Ok tt), m, os, lg.
Qed.

Lemma not_elem_of_suffix (os os' : list outcome) :
  os' `suffix_of` os -> Fails ∉ os -> Fails ∉ os'.
Proof. intros [k ->] Hno Hin. apply Hno. set_solver. Qed.

Lemma reconcile_ui desired : forall opts m os lg,
  exists r m' os' lg',
    reconcile opts desired (ui m os lg) = (r, ui m' os' lg') /\
    os' `suffix_of` os /\
    (r = Ok tt -> m' = reconciled desired opts m) /\
    (Fails ∉ os -> r = Ok tt).
Proof.
  induction opts as [|[name id] opts IH]; intros m os lg.
  - by exists (Ok tt), m, os, lg.
  - simpl.
    destruct (ensure_state_ui name id (bool_decide (name ∈ desired)) m os lg)
      as (r & m1 & os1 & lg1 & Hens & Hsuf & Hm1 & Hok).
    destruct r as [[]|e].
    + rewrite (bind_ok _ _ _ _ _ Hens).
      destruct (IH m1 os1 lg1) as (r2 & m2 & os2 & lg2 & Hrec & Hsuf2 & Hm2 & Hok2).
      exists r2, m2, os2, lg2.
      split_and!; [done | by etrans | | by eauto using not_elem_of_suffix].
      intros Hr. rewrite (Hm2 Hr), (Hm1 eq_refl). done.
    + rewrite (bind_raise _ _ _ _ _ Hens).
      exists (Raise e), m1, os1, lg1. split_and!; [done | done | done |].
      intros Hno. by specialize (Hok Hno).
Qed.

Lemma final_selected_ui : forall opts m os lg,
  final_selected opts (ui m os lg)
  = (match confirmed opts m with
     | Some names => Ok names
     | None => Raise PlaywrightError
     end, ui m os lg).
Proof.
  induction opts as [|[name id] opts IH]; intros m os lg; [done|].
  simpl. destruct (m !! id) as [b|] eqn:Hm.
  - rewrite (bind_ok _ _ _ _ _ (aria_selected_ui id b m os lg Hm)).
    unfold_m. rewrite IH. by destruct (confirmed opts m).
  - by rewrite (bind_raise _ _ _ _ _ (aria_selected_ui_none id m os lg Hm)).
Qed.

Lemma ensure_state_converged name id should m os lg :
  m !! id = None \/ m !! id = Some should ->
  ensure_state name id should (ui m os lg) = (Ok tt, ui m os lg).
Proof.
  intros [Hm|Hm]; unfold ensure_state.
  - assert (Hc : ask (count (UnitRowLabel id)) (ui m os lg) = (Ok 0%nat, ui m os lg)).
    { unfold ask, ui; simpl. unfold panel_count. by rewrite Hm. }
    rewrite (bind_ok _ _ _ _ _ Hc). by rewrite bool_decide_eq_true_2.
  - assert (Hc : ask (count (UnitRowLabel id)) (ui m os lg) = (Ok 1%nat, ui m os lg)).
    { unfold ask, ui; simpl. unfold panel_count. by rewrite Hm. }
    rewrite (bind_ok _ _ _ _ _ Hc). rewrite bool_decide_eq_false_2 by done.
    rewrite (bind_ok _ _ _ _ _ (aria_selected_ui id should m os lg Hm)).
    by rewrite bool_decide_eq_true_2.
Qed.

Lemma reconcile_converged desired : forall opts m os lg,
  (forall name id, (name, id) ∈ opts ->
     m !! id = None \/ m !! id = Some (bool_decide (name ∈ desired))) ->
  reconcile opts desired (ui m os lg) = (Ok tt, ui m os lg).
Proof.
  induction opts as [|[name id] opts IH]; intros m os lg Hconv; [done|].
  assert (Hhere : (name, id) ∈ (name, id) :: opts) by (apply elem_of_cons; by left).
  simpl. rewrite (bind_ok _ _ _ _ _
    (ensure_state_converged name id _ m os lg (Hconv name id Hhere))).
  apply IH. intros n i Hin. apply Hconv. apply elem_of_cons. by right.
Qed.

Lemma reconciled_other desired id : forall opts m,
  id ∉ opts.*2 -> reconciled desired opts m !! id = m !! id.
Proof.
  induction opts as [|[n i] opts IH]; intros m Hid; [done|].
  rewrite fmap_cons, not_elem_of_cons in Hid. destruct Hid as [Hne Hid].
  unfold reconciled in *. simpl in *. rewrite IH by done.
  destruct (m !! i); [|done]. by apply lookup_insert_ne.
Qed.

Lemma reconciled_lookup desired name id : forall opts m,
  NoDup opts.*2 -> (name, id) ∈ opts ->
  reconciled desired opts m !! id = None \/
  reconciled desired opts m !! id = Some (bool_decide (name ∈ desired)).
Proof.
  induction opts as [|[n i] opts IH]; intros m Hnd Hin; [set_solver|].
  apply NoDup_cons in Hnd as [Hi Hnd].
  apply elem_of_cons in Hin as [[= <- <-]|Hin].
  - change (reconciled desired ((name, id) :: opts) m) with
      (reconciled desired opts
         (match m !! id with
          | Some _ => <[id := bool_decide (name ∈ desired)]> m
          | None => m
          end)).
    rewrite reconciled_other by done.
    destruct (m !! id) eqn:E; [right; apply lookup_insert_eq | by left].
  - by apply IH.
Qed.

Lemma options_NoDup : NoDup options.*2.
Proof. by apply (bool_decide_unpack _). Qed.

(** One run on the panel, step by step. *)
Lemma set_unit_sizes_ui desired m os lg :
  match os with
  | Fails :: os1 =>
      set_unit_sizes desired (ui m os lg)
      = (Raise PlaywrightError, ui m os1 (lg ++ [Click UnitDropdown false]))
  | _ =>
      exists r m' os' lg',
        reconcile options desired
          (ui m (tail os) (lg ++ [Click UnitDropdown false; WaitFor UnitPanel Visible]))
        = (r, ui m' os' lg') /\
        (r = Ok tt -> m' = reconciled desired options m) /\
        (Fails ∉ os -> r = Ok tt) /\
        set_unit_sizes desired (ui m os lg)
        = match r, confirmed options m' with
          | Ok _, Some names => (Ok names, ui m' os' (lg' ++ [Press "Escape"]))
          | Ok _, None => (Raise PlaywrightError, ui m' os' lg')
          | Raise e, _ => (Raise e, ui m' os' lg')
          end
  end.
Proof.
  assert (Hgo : forall os0,
    (act (Click UnitDropdown false) : M panel_ui unit) (ui m os lg)
      = (Ok tt, ui m os0 (lg ++ [Click UnitDropdown false])) ->
    os0 `suffix_of` os ->
    exists r m' os' lg',
      reconcile options desired
        (ui m os0 (lg ++ [Click UnitDropdown false; WaitFor UnitPanel Visible]))
      = (r, ui m' os' lg') /\
      (r = Ok tt -> m' = reconciled desired options m) /\
      (Fails ∉ os -> r = Ok tt) /\
      set_unit_sizes desired (ui m os lg)
      = match r, confirmed options m' with
        | Ok _, Some names => (Ok names, ui m' os' (lg' ++ [Press "Escape"]))
        | Ok _, None => (Raise PlaywrightError, ui m' os' lg')
        | Raise e, _ => (Raise e, ui m' os' lg')
        end).
  { intros os0 Hopen Hsuf0.
    destruct (reconcile_ui desired options m os0
                (lg ++ [Click UnitDropdown false; WaitFor UnitPanel Visible]))
      as (r & m' & os' & lg' & Hrec & Hsuf & Hm' & Hok).
    exists r, m', os', lg'. split_and!; [done | done | |].
    { intros Hno. apply Hok. by eapply not_elem_of_suffix. }
    unfold set_unit_sizes. rewrite (bind_ok _ _ _ _ _ Hopen).
    assert (Hwait : (act (WaitFor UnitPanel Visible) : M panel_ui unit)
              (ui m os0 (lg ++ [Click UnitDropdown false]))
            = (Ok tt, ui m os0
                 (lg ++ [Click UnitDropdown false; WaitFor UnitPanel Visible]))).
    { unfold act, ui; simpl. by rewrite <- app_assoc. }
    rewrite (bind_ok _ _ _ _ _ Hwait).
    destruct r as [[]|e].
    - rewrite (bind_ok _ _ _ _ _ Hrec).
      pose proof (final_selected_ui options m' os' lg') as Hfin.
      destruct (confirmed options m') as [names|].
      + rewrite (bind_ok _ _ _ _ _ Hfin). reflexivity.
      + by rewrite (bind_raise _ _ _ _ _ Hfin).
    - by rewrite (bind_raise _ _ _ _ _ Hrec). }
  destruct os as [|[| |] os1].
  - apply Hgo; [reflexivity | done].
  - apply Hgo; [reflexivity | by apply suffix_cons_r].
  - apply Hgo; [reflexivity | by apply suffix_cons_r].
  - unfold set_unit_sizes.
    assert (Hf : (act (Click UnitDropdown false) : M panel_ui unit)
                   (ui m (Fails :: os1) lg)
                 = (Raise PlaywrightError,
                    ui m os1 (lg ++ [Click UnitDropdown false])))
      by reflexivity.
    by rewrite (bind_raise _ _ _ _ _ Hf).
Qed.

End PanelFacts.

Lemma reconciled_unit_sizes (a b c d : bool) :
  reconciled UNIT_SIZES options (panel_of a b c d) = panel_of true true false false.
Proof. vm_compute. reflexivity. Qed.

(** C5: with every option rendered and any of them selected at first, a
    run for [["Studio"; "1 Bedroom"]] that returns leaves exactly these
    two selected, and it is the list it confirms; the run does return
    when no click raises. *)
Theorem set_unit_sizes_exact (a b c d : bool) (os : list outcome) :
  (Fails ∉ os ->
   exists s', set_unit_sizes UNIT_SIZES (ui (panel_of a b c d) os [])
              = (Ok ["Studio"; "1 Bedroom"], s')) /\
  (forall names s',
     set_unit_sizes UNIT_SIZES (ui (panel_of a b c d) os []) = (Ok names, s') ->
     names = ["Studio"; "1 Bedroom"] /\
     aria (env s') = panel_of true true false false).
Proof.
  pose proof (set_unit_sizes_ui UNIT_SIZES (panel_of a b c d) os []) as Hrun.
  assert (Hconf : confirmed options (panel_of true true false false)
                  = Some ["Studio"; "1 Bedroom"]) by (by vm_compute).
  split.
  - intros Hno. destruct os as [|[| |] os1];
      try (destruct Hrun as (r & m' & os' & lg' & _ & Hm' & Hok & Hrun);
           rewrite Hrun, (Hok Hno), (Hm' (Hok Hno)), reconciled_unit_sizes, Hconf;
           by eexists).
    exfalso. apply Hno. apply elem_of_cons. by left.
  - intros names s' Hret. destruct os as [|[| |] os1];
      try (destruct Hrun as (r & m' & os' & lg' & _ & Hm' & _ & Hrun);
           rewrite Hrun in Hret; destruct r as [[]|e]; [|discriminate];
           rewrite (Hm' eq_refl), reconciled_unit_sizes, Hconf in Hret;
           by injection Hret as <- <-).
    rewrite Hrun in Hret. discriminate.
Qed.

(** Only "2 Bedroom" selected at first; the clicks on "Studio" and on
    "1 Bedroom" change nothing, so their state is injected. *)
Lemma set_unit_sizes_exact_witness :
  exists s',
    set_unit_sizes UNIT_SIZES
      (ui (panel_of false false true false) [Lands; Misses; Misses] [])
    = (Ok ["Studio"; "1 Bedroom"], s') /\
    aria (env s') = panel_of true true false false.
Proof.
  destruct (set_unit_sizes_exact false false true false [Lands; Misses; Misses])
    as [Hreturns Hexact].
  destruct Hreturns as [s' Hs'].
  - intros Hin. repeat (apply elem_of_cons in Hin as [Hin|Hin]; [discriminate|]).
    by apply elem_of_nil in Hin.
  - exists s'. split; [exact Hs'|]. exact (proj2 (Hexact _ _ Hs')).
Defined.

(** C6: after a run that returned, a second run for the same labels
    returns the same confirmed list and leaves every option as it was; it
    clicks on the drop-down, waits for the panel and presses Escape, and
    does nothing else: no option is clicked, no state is injected. *)
Theorem set_unit_sizes_idempotent (desired : list string)
    (m : gmap string bool) (os : list outcome) (names : list string)
    (s1 : st panel_ui) (os2 : list outcome) :
  set_unit_sizes desired (ui m os []) = (Ok names, s1) ->
  head os2 <> Some Fails ->
  set_unit_sizes desired (ui (aria (env s1)) os2 [])
  = (Ok names,
     ui (aria (env s1)) (tail os2)
        [Click UnitDropdown false; WaitFor UnitPanel Visible; Press "Escape"]).
Proof.
  intros Hrun1 Hhead.
  assert (Hfirst : aria (env s1) = reconciled desired options m /\
                   confirmed options (aria (env s1)) = Some names).
  { pose proof (set_unit_sizes_ui desired m os []) as Hrun.
    destruct os as [|[| |] os1];
      try (destruct Hrun as (r & m' & os' & lg' & _ & Hm' & _ & Hrun);
           rewrite Hrun in Hrun1; destruct r as [[]|e]; [|discriminate];
           destruct (confirmed options m') as [ns|] eqn:Hconf; [|discriminate];
           injection Hrun1 as <- <-; unfold ui; cbn [env aria];
           by rewrite <- (Hm' eq_refl)).
    rewrite Hrun in Hrun1. discriminate. }
  destruct Hfirst as [Hm1 Hconf1].
  assert (Hconv : forall name id, (name, id) ∈ options ->
            aria (env s1) !! id = None \/
            aria (env s1) !! id = Some (bool_decide (name ∈ desired))).
  { intros name id Hin. rewrite Hm1.
    by apply reconciled_lookup; [apply options_NoDup|]. }
  pose proof (set_unit_sizes_ui desired (aria (env s1)) os2 []) as Hrun.
  destruct os2 as [|[| |] os3]; try done;
    destruct Hrun as (r & m' & os' & lg' & Hrec & _ & _ & Hrun);
    rewrite reconcile_converged in Hrec by done;
    injection Hrec as <- <- <- <-; by rewrite Hrun, Hconf1.
Qed.

(** The run of the witness of C5, run again. *)
Lemma set_unit_sizes_idempotent_witness :
  exists s1,
    set_unit_sizes UNIT_SIZES
      (ui (panel_of false false true false) [Lands; Fails; Misses] [])
    = (Ok ["Studio"; "1 Bedroom"], s1) /\
    set_unit_sizes UNIT_SIZES (ui (aria (env s1)) [Misses; Lands] [])
    = (Ok ["Studio"; "1 Bedroom"],
       ui (aria (env s1)) [Lands]
          [Click UnitDropdown false; WaitFor UnitPanel Visible; Press "Escape"]).
Proof.
  eexists. split; [vm_compute; reflexivity|].
  apply (set_unit_sizes_idempotent UNIT_SIZES (panel_of false false true false)
           [Lands; Fails; Misses] ["Studio"; "1 Bedroom"] _ [Misses; Lands]).
  - vm_compute. reflexivity.
  - discriminate.
Defined.

(** ** The end day of the range *)

Section CalendarFacts.
Local Open Scope Z_scope.

Lemma find_day_shape p mb d btn :
  _find_day_btn_in_block p mb d = Some btn -> btn = (mb, d).
Proof.
  unfold _find_day_btn_in_block. destruct (p !! mb) as [b|]; [|done].
  destruct (list_find _ b) as [[i c]|]; [|done].
  destruct (in_button c), (disabled c); by intros [= <-].
Qed.

Lemma find_day_enabled p mb d :
  one_cell_per_day p ->
  _find_day_btn_in_block p mb d = Some (mb, d) <-> enabled p mb d.
Proof.
  intros Hwf. unfold _find_day_btn_in_block, enabled. split.
  - destruct (p !! mb) as [b|] eqn:Hb; [|done].
    destruct (list_find _ b) as [[i c]|] eqn:Hf; [|done].
    apply list_find_Some in Hf as (Hi & Hd & _).
    destruct (in_button c) eqn:Hbtn, (disabled c) eqn:Hdis; try done.
    intros _. exists b, c. split_and!; try done.
    apply list_elem_of_lookup. by exists i.
  - intros (b & c & Hb & Hc & Hd & Hbtn & Hdis). rewrite Hb.
    destruct (list_find_elem_of (fun c => day_num c = d) b c Hc Hd) as [[i c'] Hf].
    rewrite Hf. apply list_find_Some in Hf as (Hi & Hd' & _).
    apply list_elem_of_lookup in Hc as [j Hj].
    assert (i = j) as ->.
    { apply (NoDup_lookup (day_num <$> b) i j d (Hwf mb b Hb));
        rewrite list_lookup_fmap; [by rewrite Hi; simpl; f_equal
                                  | by rewrite Hj; simpl; f_equal]. }
    assert (c' = c) as -> by congruence.
    by rewrite Hbtn, Hdis.
Qed.

Lemma find_day_none p mb d :
  one_cell_per_day p ->
  _find_day_btn_in_block p mb d = None <-> ~ enabled p mb d.
Proof.
  intros Hwf. rewrite <- find_day_enabled by done.
  destruct (_find_day_btn_in_block p mb d) as [btn|] eqn:E.
  - apply find_day_shape in E as ->. split; [done | by intros []].
  - split; [by intros _ [=] | done].
Qed.

Lemma first_found_none p mb days :
  (forall d, d ∈ days -> _find_day_btn_in_block p mb d = None) ->
  first_found p mb days = None.
Proof.
  induction days as [|d days IH]; intros Hall; [done|].
  simpl. rewrite Hall by (apply elem_of_cons; by left).
  apply IH. intros d' Hd'. apply Hall, elem_of_cons. by right.
Qed.

Lemma first_found_at p mb before d after :
  (forall d', d' ∈ before -> _find_day_btn_in_block p mb d' = None) ->
  _find_day_btn_in_block p mb d = Some (mb, d) ->
  first_found p mb (before ++ d :: after) = Some (mb, d).
Proof.
  induction before as [|d0 before IH]; intros Hall Hd; simpl.
  - by rewrite Hd.
  - rewrite Hall by (apply elem_of_cons; by left).
    apply IH; [|done]. intros d' Hd'. apply Hall, elem_of_cons. by right.
Qed.

(** The loop over [range(min_day + 1, 32)] stops at the first day that can
    be clicked. *)
Lemma first_enabled_after_least p mb min_day d :
  one_cell_per_day p ->
  min_day < d <= 31 -> enabled p mb d ->
  (forall d', min_day < d' < d -> ~ enabled p mb d') ->
  _first_enabled_after p mb min_day = Some (mb, d).
Proof.
  intros Hwf Hd Hen Hleast. unfold _first_enabled_after.
  replace (32 - (min_day + 1)) with ((d - (min_day + 1)) + (32 - d)) by lia.
  rewrite seqZ_app by lia.
  replace (min_day + 1 + (d - (min_day + 1))) with d by lia.
  rewrite (seqZ_cons d) by lia.
  apply first_found_at.
  - intros d' Hd'%elem_of_seqZ. apply find_day_none; [done|].
    apply Hleast. lia.
  - by apply find_day_enabled.
Qed.

Lemma first_enabled_after_none p mb min_day :
  one_cell_per_day p ->
  (forall d, min_day < d <= 31 -> ~ enabled p mb d) ->
  _first_enabled_after p mb min_day = None.
Proof.
  intros Hwf Hnone. apply first_found_none.
  intros d Hd%elem_of_seqZ. apply find_day_none; [done|]. apply Hnone. lia.
Qed.

(** The order in which the end button is looked for, whatever the
    comparison of the two locators answers.  The target is the check-in day
    plus [max(1, NIGHTS - 1)].  The button clicked for the end is: the
    target day in the start block if it can be clicked; else the first day
    after the check-in day, up to 31, that can be clicked in the start
    block; else, in the block [other] that the comparison selects, the
    target day less 31 when it is above 31 (the target day itself
    otherwise) if it can be clicked, and else the first button of that
    block that can be clicked.  So day 28 with 7 nights has target 34, and
    it resolves to day 3 of [other] only when none of the days 29 to 31 can
    be clicked in the start block. *)
Theorem end_button_resolution (NIGHTS : Z) (same : nat -> nat -> bool)
    (p : page) (start_mb : nat) (start_day : Z) :
  one_cell_per_day p ->
  let target_end := start_day + Z.max 1 (NIGHTS - 1) in
  let other := if same start_mb 0%nat then 1%nat else 0%nat in
  let wrapped := if 31 <? target_end then target_end - 31 else target_end in
  (enabled p start_mb target_end ->
   end_button NIGHTS same p start_mb start_day = Some (start_mb, target_end)) /\
  (~ enabled p start_mb target_end ->
   forall d, start_day < d <= 31 -> enabled p start_mb d ->
     (forall d', start_day < d' < d -> ~ enabled p start_mb d') ->
     end_button NIGHTS same p start_mb start_day = Some (start_mb, d)) /\
  (~ enabled p start_mb target_end ->
   (forall d, start_day < d <= 31 -> ~ enabled p start_mb d) ->
   (enabled p other wrapped ->
    end_button NIGHTS same p start_mb start_day = Some (other, wrapped)) /\
   (~ enabled p other wrapped ->
    end_button NIGHTS same p start_mb start_day = first_enabled p other)) /\
  (NIGHTS = 7 -> start_day = 28 ->
   target_end = 34 /\ wrapped = 3 /\
   (~ enabled p start_mb 34 ->
    (forall d, 28 < d <= 31 -> ~ enabled p start_mb d) ->
    enabled p other 3 ->
    end_button NIGHTS same p start_mb start_day = Some (other, 3))).
Proof.
  intros Hwf target_end other wrapped.
  assert (H1 : enabled p start_mb target_end ->
    end_button NIGHTS same p start_mb start_day = Some (start_mb, target_end)).
  { intros Hen. unfold end_button. fold target_end.
    by rewrite (proj2 (find_day_enabled p start_mb target_end Hwf) Hen). }
  assert (H2 : ~ enabled p start_mb target_end ->
    forall d, start_day < d <= 31 -> enabled p start_mb d ->
      (forall d', start_day < d' < d -> ~ enabled p start_mb d') ->
      end_button NIGHTS same p start_mb start_day = Some (start_mb, d)).
  { intros Hno d Hd Hen Hleast. unfold end_button. fold target_end.
    rewrite (proj2 (find_day_none p start_mb target_end Hwf) Hno).
    by rewrite (first_enabled_after_least p start_mb start_day d). }
  assert (H3 : ~ enabled p start_mb target_end ->
    (forall d, start_day < d <= 31 -> ~ enabled p start_mb d) ->
    (enabled p other wrapped ->
     end_button NIGHTS same p start_mb start_day = Some (other, wrapped)) /\
    (~ enabled p other wrapped ->
     end_button NIGHTS same p start_mb start_day = first_enabled p other)).
  { intros Hno Hnone. unfold end_button. fold target_end other wrapped.
    rewrite (proj2 (find_day_none p start_mb target_end Hwf) Hno).
    rewrite (first_enabled_after_none p start_mb start_day) by done.
    split.
    - intros Hen. pose proof Hen as (b & _ & -> & _).
      by rewrite (proj2 (find_day_enabled p other wrapped Hwf) Hen).
    - intros Hno'. rewrite (proj2 (find_day_none p other wrapped Hwf) Hno').
      unfold first_enabled. by destruct (p !! other). }
  split_and!; [done | done | done |].
  intros HN Hs. subst NIGHTS start_day.
  assert (Ht : target_end = 34) by reflexivity.
  assert (Hw : wrapped = 3) by reflexivity.
  split_and!; [done | done |].
  intros Hno Hnone Hen. rewrite <- Ht in Hno. rewrite <- Hw in *.
  by apply (proj1 (H3 Hno Hnone)).
Qed.

Lemma month_enabled (p : page) (mb : nat) (n from to d : Z) :
  p !! mb = Some (month n from to) ->
  enabled p mb d <-> (1 <= d <= n) /\ (from <= d <= to).
Proof.
  intros Hb. unfold enabled, month. split.
  - intros (b & c & Hb' & Hc & Hd & _ & Hdis). rewrite Hb in Hb'.
    injection Hb' as <-. apply list_elem_of_fmap in Hc as (d' & -> & Hd').
    apply elem_of_seqZ in Hd'. simpl in *. subst d'.
    apply negb_false_iff, andb_true_iff in Hdis as [?%Z.leb_le ?%Z.leb_le]. lia.
  - intros [Hd Hft].
    exists ((fun d => {| day_num := d; in_button := true;
                         disabled := negb ((from <=? d)%Z && (d <=? to)%Z) |})
              <$> seqZ 1 n),
           {| day_num := d; in_button := true;
              disabled := negb ((from <=? d)%Z && (d <=? to)%Z) |}.
    split_and!; [done | | done | done |].
    + apply list_elem_of_fmap. exists d. split; [done|]. apply elem_of_seqZ. lia.
    + simpl. apply negb_false_iff, andb_true_iff. split; apply Z.leb_le; lia.
Qed.

Lemma month_one_cell (n from to : Z) : NoDup (day_num <$> month n from to).
Proof.
  unfold month. rewrite <- list_fmap_compose.
  rewrite (list_fmap_ext _ id (seqZ 1 n)) by done.
  rewrite list_fmap_id. apply NoDup_seqZ.
Qed.

Lemma two_months_one_cell (b0 b1 : Z * Z * Z) :
  one_cell_per_day [month b0.1.1 b0.1.2 b0.2; month b1.1.1 b1.1.2 b1.2].
Proof.
  intros [|[|mb]] b [= <-]; apply month_one_cell.
Qed.

(** Whatever block the range starts in, the end button lies in that block
    or in the first one: the comparison never selects the second block. *)
Lemma end_button_block (NIGHTS : Z) (p : page) (start_mb : nat) (start_day : Z)
    (mb : nat) (d : Z) :
  end_button NIGHTS locator_eq p start_mb start_day = Some (mb, d) ->
  mb = start_mb \/ mb = 0%nat.
Proof.
  unfold end_button, locator_eq.
  destruct (_find_day_btn_in_block p start_mb _) as [b1|] eqn:E1.
  { apply find_day_shape in E1 as ->. intros [= <- _]. by left. }
  destruct (_first_enabled_after p start_mb start_day) as [b2|] eqn:E2.
  { intros [= ->]. left. unfold _first_enabled_after in E2.
    revert E2. generalize (seqZ (start_day + 1) (32 - (start_day + 1))).
    intros days. induction days as [|d0 days IH]; simpl; [done|].
    destruct (_find_day_btn_in_block p start_mb d0) as [b|] eqn:E0; [|done].
    apply find_day_shape in E0 as ->. by intros [= <- _]. }
  destruct (p !! 0%nat) as [b0|] eqn:E0; [|done].
  destruct (_find_day_btn_in_block p 0 _) as [b3|] eqn:E3.
  { apply find_day_shape in E3 as ->. intros [= <- _]. by right. }
  unfold first_enabled. rewrite E0.
  destruct (list_find _ b0) as [[i c]|]; [|done].
  intros [= <- _]. by right.
Qed.

(** With days 29 to 31 of the start month open, check-in day 28 and 7
    nights end on day 29 of the start block: the start block is searched
    for a later day before any other block is looked at. *)
Lemma end_button_stays_in_start_block :
  end_button 7 locator_eq open_months 0 28 = Some (0%nat, 29) /\
  end_button 7 locator_eq open_months 0 28 <> Some (1%nat, 3) /\
  _try_click_range shown 7 locator_eq 0 28
    {| env := {| shown := open_months |}; log := [] |}
  = (Ok true,
     {| env := {| shown := open_months |};
        log := [ScrollIntoView (DayBtn 0 28); Click (DayBtn 0 28) false;
                ScrollIntoView (DayBtn 0 29); Click (DayBtn 0 29) false] |}).
Proof. split_and!; [by vm_compute | by vm_compute | by vm_compute]. Qed.

(** C1 (the code departs from the claim): check-in day 28 of a 31-day month
    shown in the first block, 7 nights, and none of the days 29 to 31 can
    be clicked.  The target is day 34 and the fallback to the other block
    is reached; there [start_mb == blocks.nth(0)] compares two locator
    objects and is false, so the block consulted is [blocks.nth(0)], the
    start block itself, and the end of the range is day 3 of the start
    month, not day 3 of the next block.  Whatever the input, the end button
    lies in the start block or in the first block. *)
Theorem end_button_misses_next_block :
  end_button 7 locator_eq closing_month 0 28 = Some (0%nat, 3) /\
  _try_click_range shown 7 locator_eq 0 28
    {| env := {| shown := closing_month |}; log := [] |}
  = (Ok true,
     {| env := {| shown := closing_month |};
        log := [ScrollIntoView (DayBtn 0 28); Click (DayBtn 0 28) false;
                ScrollIntoView (DayBtn 0 3); Click (DayBtn 0 3) false] |}) /\
  (forall NIGHTS p start_mb start_day mb d,
     end_button NIGHTS locator_eq p start_mb start_day = Some (mb, d) ->
     mb = start_mb \/ mb = 0%nat).
Proof.
  split_and!.
  - assert (Hwf : one_cell_per_day closing_month)
      by apply (two_months_one_cell (31, 1, 28) (30, 1, 30)).
    destruct (end_button_resolution 7 locator_eq closing_month 0 28 Hwf)
      as (_ & _ & _ & Hex).
    destruct (Hex eq_refl eq_refl) as (_ & _ & Hday3).
    apply Hday3.
    + rewrite (month_enabled closing_month 0 31 1 28) by done. lia.
    + intros d Hd. rewrite (month_enabled closing_month 0 31 1 28) by done. lia.
    + rewrite (month_enabled closing_month 0 31 1 28) by done. lia.
  - by vm_compute.
  - intros NIGHTS p start_mb start_day mb d. apply end_button_block.
Qed.

(** The function, once the start day is found and clicked: the second
    click goes to [end_button] of the blocks as they are then. *)
Lemma try_click_range_run {W : Type} `{Session W} (calendar : W -> page)
    (NIGHTS : Z) (same : nat -> nat -> bool) (start_mb : nat) (start_day : Z)
    (s s1 : st W) (start_btn : day_btn) :
  _find_day_btn_in_block (calendar (env s)) start_mb start_day = Some start_btn ->
  click_day start_btn s = (Ok tt, s1) ->
  _try_click_range calendar NIGHTS same start_mb start_day s
  = match end_button NIGHTS same (calendar (env s1)) start_mb start_day with
    | None => (Ok false, s1)
    | Some end_btn => (click_day end_btn;; mret true : M W bool) s1
    end.
Proof.
  intros Hfind Hclick. unfold _try_click_range, blocks_now.
  unfold mbind at 1, M_bind at 1, bind at 1. rewrite Hfind.
  rewrite (bind_ok _ _ _ _ _ Hclick).
  unfold mbind at 1, M_bind at 1, bind at 1.
  by destruct (end_button _ _ _ _ _).
Qed.

End CalendarFacts.

(** ** Deduplication and the empty result *)

Lemma key_inj (r r' : row) : key r = key r' -> r = r'.
Proof. destruct r, r'. unfold key; simpl. by intros [= -> -> -> ->]. Qed.

Lemma dedup_loop_spec : forall (rows : list row) seen (out : list row),
  (forall k, k ∈ seen <-> k ∈ key <$> out) ->
  NoDup (key <$> out) ->
  NoDup (key <$> dedup_loop rows seen out) /\
  (forall r, r ∈ dedup_loop rows seen out <-> r ∈ out \/ r ∈ rows) /\
  exists kept, dedup_loop rows seen out = out ++ kept /\ kept `sublist_of` rows.
Proof.
  induction rows as [|r rows IH]; intros seen out Hseen Hnd; simpl.
  - split_and!; [done | |].
    + intros r. split; [by left | by intros [?|?%elem_of_nil]].
    + exists []. by rewrite app_nil_r.
  - case_bool_decide as Hin.
    + destruct (IH seen out Hseen Hnd) as (Hnd' & Hmem & kept & Heq & Hsub).
      split_and!; [done | |].
      * intros r'. rewrite Hmem, elem_of_cons. split.
        -- intros [?|?]; [by left | right; by right].
        -- intros [?|[->|?]]; [by left | | by right].
           left. apply Hseen in Hin.
           apply list_elem_of_fmap in Hin as (r0 & Hk & Hr0).
           by rewrite (key_inj _ _ Hk).
      * exists kept. split; [done|]. by apply sublist_cons.
    + destruct (IH ({[key r]} ∪ seen) (out ++ [r])) as (Hnd' & Hmem & kept & Heq & Hsub).
      * intros k. rewrite fmap_app, elem_of_app, elem_of_union, elem_of_singleton.
        rewrite Hseen. simpl. rewrite list_elem_of_singleton. tauto.
      * rewrite fmap_app. apply NoDup_app. split_and!; [done | |].
        -- intros k Hk [->|[]%elem_of_nil]%elem_of_cons. by apply Hin, Hseen.
        -- apply NoDup_singleton.
      * split_and!; [done | |].
        -- intros r'. rewrite Hmem, elem_of_app, list_elem_of_singleton, elem_of_cons.
           tauto.
        -- exists (r :: kept). split; [by rewrite Heq, <- app_assoc|].
           by apply sublist_skip.
Qed.

Lemma dedup_spec (rows : list row) :
  NoDup (key <$> dedup rows) /\
  (forall r, r ∈ dedup rows <-> r ∈ rows) /\
  dedup rows `sublist_of` rows.
Proof.
  destruct (dedup_loop_spec rows ∅ []) as (Hnd & Hmem & kept & Heq & Hsub).
  - intros k. split; [by intros ?%not_elem_of_empty | by intros ?%elem_of_nil].
  - constructor.
  - split_and!; [done | |].
    + intros r. rewrite (Hmem r). split; [by intros [?%elem_of_nil|?] | by right].
    + unfold dedup. by rewrite Heq.
Qed.

Section ScrapingFacts.
Context {W : Type} `{Session W}.

Lemma scrape_results_run (dr : text) (r1 r2 r3 : list row) (s : st W) :
  scrape_results (mret dr) (fun _ => mret r1) (fun _ => mret r2) (fun _ => mret r3) s
  = match dedup (candidates r1 r2 r3) with
    | [] =>
        ((try_except (act (WriteContent "no_results_debug.html")) pass;;
          act (Screenshot None "no_results_debug.png");;
          mret []) : M W (list row)) s
    | out => (Ok out, s)
    end.
Proof.
  unfold scrape_results, candidates. unfold_m.
  destruct r1 as [|a1 r1]; [destruct r2 as [|a2 r2]|]; simpl.
  1: destruct (dedup r3) as [|b o]; simpl.
  3: destruct (dedup (a2 :: r2)) as [|b o]; simpl.
  5: destruct (dedup (a1 :: r1)) as [|b o]; simpl.
  all: try reflexivity.
  all: destruct (perform _ _) as [[[]|?] ?]; simpl;
       destruct (perform _ _) as [[[]|?] ?]; simpl; reflexivity.
Qed.

(** Whatever the computations before the post-pass do, a list that
    [scrape_results] returns comes out of the deduplication loop. *)
Lemma scrape_results_returns_dedup (before_tiers : M W text)
    (tier1 tier2 tier3 : text -> M W (list row)) (s : st W) :
  match (scrape_results before_tiers tier1 tier2 tier3 s).1 with
  | Ok out => exists rows, out = dedup rows
  | Raise _ => True
  end.
Proof.
  unfold scrape_results.
  destruct (before_tiers s) as [[dr|e] s0] eqn:H0;
    [rewrite (bind_ok _ _ _ _ _ H0) | by rewrite (bind_raise _ _ _ _ _ H0)].
  destruct (tier1 dr s0) as [[rows1|e] s1] eqn:H1;
    [rewrite (bind_ok _ _ _ _ _ H1) | by rewrite (bind_raise _ _ _ _ _ H1)].
  match goal with
  | |- context [mbind _ ?m s1] => destruct (m s1) as [[rows2|e] s2] eqn:H2
  end; [rewrite (bind_ok _ _ _ _ _ H2) | by rewrite (bind_raise _ _ _ _ _ H2)].
  match goal with
  | |- context [mbind _ ?m s2] => destruct (m s2) as [[rows3|e] s3] eqn:H3
  end; [rewrite (bind_ok _ _ _ _ _ H3) | by rewrite (bind_raise _ _ _ _ _ H3)].
  match goal with
  | |- context [mbind _ ?m s3] => destruct (m s3) as [[[]|e] s4] eqn:H4
  end; [rewrite (bind_ok _ _ _ _ _ H4) | by rewrite (bind_raise _ _ _ _ _ H4)].
  by exists rows3.
Qed.

(** C4: whatever rows the tiers hand over, the list that is emitted holds
    no two rows with the same four fields; it holds every row that was
    handed over, each once, in the order of first appearance; and it is
    what [scrape_results] returns (an empty list apart, where the
    screenshot can still raise). *)
Theorem scrape_results_no_duplicates (dr : text) (r1 r2 r3 : list row) (s : st W) :
  let rows := candidates r1 r2 r3 in
  let run := scrape_results (mret dr) (fun _ => mret r1) (fun _ => mret r2)
               (fun _ => mret r3) s in
  NoDup (key <$> dedup rows) /\
  (forall r, r ∈ dedup rows <-> r ∈ rows) /\
  dedup rows `sublist_of` rows /\
  (run.1 = Ok (dedup rows) \/ (dedup rows = [] /\ exists e, run.1 = Raise e)).
Proof.
  intros rows run. destruct (dedup_spec rows) as (Hnd & Hmem & Hsub).
  split_and!; [done | done | done |].
  unfold run. rewrite scrape_results_run. fold rows.
  destruct (dedup rows) as [|b o]; [|by left].
  unfold_m. simpl.
  destruct (perform _ _) as [[[]|?] ?]; simpl;
    destruct (perform _ _) as [[[]|?] ?]; simpl; eauto.
Qed.

(** When nothing is found and both debug calls go through (or only the
    markup dump raises), the empty list is returned. *)
Lemma scrape_results_empty_ok (dr : text) (s : st W) w :
  (perform (Screenshot None "no_results_debug.png")
     (perform (WriteContent "no_results_debug.html") (env s)).2).1 = Ok tt ->
  (perform (Screenshot None "no_results_debug.png")
     (perform (WriteContent "no_results_debug.html") (env s)).2).2 = w ->
  scrape_results (mret dr) (fun _ => mret []) (fun _ => mret []) (fun _ => mret []) s
  = (Ok [], {| env := w;
               log := log s ++ [WriteContent "no_results_debug.html";
                                Screenshot None "no_results_debug.png"] |}).
Proof.
  intros Hok Hw. rewrite scrape_results_run. simpl. unfold_m. simpl.
  destruct (perform (WriteContent "no_results_debug.html") (env s)) as [[[]|?] w1];
    simpl in *;
    destruct (perform (Screenshot None "no_results_debug.png") w1) as [[[]|?] w2];
    simpl in *; try discriminate; subst; by rewrite <- app_assoc.
Qed.

End ScrapingFacts.

(** C8 (the code departs from the claim): the three tiers find nothing and
    the page refuses the screenshot; the call stands outside any [try],
    unlike the markup dump before it and the screenshot of [write_debug],
    so [scrape_results] raises instead of returning the empty list. *)
Theorem scrape_results_screenshot_raises :
  scrape_results (mret []) (fun _ => mret []) (fun _ => mret []) (fun _ => mret [])
    (start screenshot_fails)
  = (Raise PlaywrightError,
     {| env := Fixed screenshot_fails;
        log := [WriteContent "no_results_debug.html";
                Screenshot None "no_results_debug.png"] |}).
Proof. reflexivity. Qed.

(** * Properties of the code around the claims *)

Section TextFacts.
Variable U : unicode_tables.

Lemma lstrip_split (s : text) :
  exists w, s = w ++ lstrip U s /\ spaces U w.
Proof.
  induction s as [|c s (w & IH & Hw)]; [exists []; split; [done | apply Forall_nil_2]|].
  simpl. destruct (is_space U c) eqn:E.
  - exists (c :: w). simpl. split; [by rewrite <- IH | by apply Forall_cons].
  - exists []. split; [done | apply Forall_nil_2].
Qed.

Lemma lstrip_head (s : text) c :
  head (lstrip U s) = Some c -> is_space U c = false.
Proof.
  induction s as [|d s IH]; [done|]. simpl.
  destruct (is_space U d) eqn:E; [done|]. simpl. by intros [= <-].
Qed.

Lemma lstrip_id (s : text) :
  (forall c, head s = Some c -> is_space U c = false) -> lstrip U s = s.
Proof.
  destruct s as [|c s]; [done|]. intros H. simpl. by rewrite (H c).
Qed.

Lemma lstrip_last (s : text) c :
  last (lstrip U s) = Some c -> last s = Some c.
Proof.
  destruct (lstrip_split s) as (w & Hs & _). intros H.
  rewrite Hs. rewrite last_app, H. done.
Qed.

Lemma strip_head (s : text) c : head (strip U s) = Some c -> is_space U c = false.
Proof.
  unfold strip. rewrite head_reverse. intros H%lstrip_last.
  rewrite last_reverse in H. by apply lstrip_head in H.
Qed.

Lemma strip_last (s : text) c : last (strip U s) = Some c -> is_space U c = false.
Proof.
  unfold strip. rewrite last_reverse. apply lstrip_head.
Qed.

Lemma strip_id (s : text) :
  (forall c, head s = Some c -> is_space U c = false) ->
  (forall c, last s = Some c -> is_space U c = false) ->
  strip U s = s.
Proof.
  intros Hh Hl. unfold strip. rewrite (lstrip_id s) by done.
  rewrite lstrip_id; [apply reverse_involutive|].
  intros c. rewrite head_reverse. apply Hl.
Qed.

Lemma ink_app (a b : text) : ink U (a ++ b) = ink U a ++ ink U b.
Proof. apply List.filter_app. Qed.

Lemma ink_spaces (w : text) : spaces U w -> ink U w = [].
Proof.
  induction 1 as [|c w Hc _ IH]; [done|]. unfold ink in *. simpl. by rewrite Hc.
Qed.

Lemma ink_nil (w : text) : ink U w = [] -> spaces U w.
Proof.
  induction w as [|c w IH]; [intros _; apply Forall_nil_2|]. unfold ink. simpl.
  destruct (is_space U c) eqn:E; simpl; [|done].
  intros H. apply Forall_cons. split; [done | by apply IH].
Qed.

Lemma ink_reverse (w : text) : ink U (reverse w) = reverse (ink U w).
Proof.
  induction w as [|c w IH]; [done|].
  rewrite reverse_cons, ink_app, IH. unfold ink at 2 3. simpl.
  destruct (is_space U c); simpl.
  - by rewrite app_nil_r.
  - by rewrite reverse_cons.
Qed.

Lemma ink_lstrip (s : text) : ink U (lstrip U s) = ink U s.
Proof.
  destruct (lstrip_split s) as (w & Hs & Hw).
  transitivity (ink U (w ++ lstrip U s)); [|by rewrite <- Hs].
  rewrite ink_app, (ink_spaces w); done.
Qed.

Lemma ink_strip (s : text) : ink U (strip U s) = ink U s.
Proof.
  unfold strip. by rewrite ink_reverse, ink_lstrip, ink_reverse, reverse_involutive, ink_lstrip.
Qed.

Lemma ink_cons c (s : text) :
  ink U (c :: s) = if is_space U c then ink U s else c :: ink U s.
Proof. unfold ink. simpl. by destruct (is_space U c). Qed.

Lemma ink_sub_spaces (s : text) : forall b, ink U (sub_spaces U b s) = ink U s.
Proof.
  induction s as [|c s IH]; intros b; [done|]. cbn [sub_spaces].
  rewrite (ink_cons c s). destruct (is_space U c) eqn:E.
  - destruct b; [apply IH|]. rewrite ink_cons.
    replace (is_space U 32) with true by (by vm_compute). apply IH.
  - rewrite ink_cons, E. f_equal. apply IH.
Qed.

Lemma sub_spaces_head_true (s : text) :
  s <> [] -> (forall c, last s = Some c -> is_space U c = false) ->
  exists d r, sub_spaces U true s = d :: r /\ is_space U d = false.
Proof.
  induction s as [|c s IH]; [done|]. intros _ Hl. simpl.
  destruct (is_space U c) eqn:E; [|by eauto].
  destruct s as [|d s].
  - specialize (Hl c eq_refl). congruence.
  - apply IH; [done|]. intros x Hx. apply Hl. by rewrite last_cons, Hx.
Qed.

Lemma sub_spaces_single (s : text) : forall b,
  (forall c, last s = Some c -> is_space U c = false) ->
  single_spaced U (sub_spaces U b s).
Proof.
  induction s as [|c s IH]; intros b Hl; [done|].
  assert (Hl' : forall x, last s = Some x -> is_space U x = false).
  { intros x Hx. apply Hl. by rewrite last_cons, Hx. }
  simpl. destruct (is_space U c) eqn:E.
  - destruct b; [by apply IH|]. simpl. split; [|by apply IH].
    intros _. split; [done|]. apply sub_spaces_head_true; [|done].
    intros ->. specialize (Hl c eq_refl). congruence.
  - simpl. split; [congruence | by apply IH].
Qed.

Lemma sub_spaces_id (s : text) :
  single_spaced U s ->
  sub_spaces U false s = s /\
  ((forall c, head s = Some c -> is_space U c = false) -> sub_spaces U true s = s).
Proof.
  induction s as [|c s IH]; [done|]. intros [Hc Hs].
  destruct (IH Hs) as [IH1 IH2]. simpl.
  destruct (is_space U c) eqn:E.
  - destruct (Hc eq_refl) as (-> & d & r & -> & Hd). split.
    + f_equal. apply IH2. by intros ? [= <-].
    + intros Hh. specialize (Hh _ eq_refl). congruence.
  - split; [|intros _]; by f_equal.
Qed.

Lemma single_spaced_last (s : text) c :
  single_spaced U s -> last s = Some c -> is_space U c = false.
Proof.
  induction s as [|d s IH]; [done|]. intros [Hd Hs] Hl.
  destruct s as [|e s].
  - injection Hl as ->. destruct (is_space U c) eqn:E; [|done].
    by destruct (Hd eq_refl) as (_ & ? & ? & ? & _).
  - apply IH; [done | exact Hl].
Qed.

Lemma normalize_ws_normalized (s : text) : normalized U (_normalize_ws U s).
Proof.
  unfold _normalize_ws. split.
  - intros c. pose proof (strip_head s) as Hh.
    destruct (strip U s) as [|d t]; [done|]. simpl.
    rewrite (Hh d eq_refl). simpl. by intros [= <-]; apply Hh.
  - apply sub_spaces_single. apply strip_last.
Qed.

Lemma normalize_ws_id (s : text) : normalized U s -> _normalize_ws U s = s.
Proof.
  intros [Hh Hs]. unfold _normalize_ws.
  rewrite strip_id; [by apply sub_spaces_id | done |].
  intros c. by apply single_spaced_last.
Qed.

(** X1: [_normalize_ws] yields a text that neither starts nor ends with white
    space and where white space occurs only as single spaces between other
    characters; such texts are exactly the ones it leaves unchanged, so
    normalising twice changes nothing more. *)
Theorem normalize_ws_shape (s : text) :
  normalized U (_normalize_ws U s) /\
  (normalized U s <-> _normalize_ws U s = s) /\
  _normalize_ws U (_normalize_ws U s) = _normalize_ws U s /\
  _norm U s = _normalize_ws U s.
Proof.
  split_and!.
  - apply normalize_ws_normalized.
  - split; [apply normalize_ws_id|]. intros <-. apply normalize_ws_normalized.
  - apply normalize_ws_id, normalize_ws_normalized.
  - done.
Qed.

(** X2: [_normalize_ws] keeps the characters that are not white space, all of
    them and in their order; its result is empty exactly when the text holds
    nothing but white space. *)
Theorem normalize_ws_keeps_ink (s : text) :
  ink U (_normalize_ws U s) = ink U s /\
  (_normalize_ws U s = [] <-> spaces U s).
Proof.
  assert (Hink : ink U (_normalize_ws U s) = ink U s).
  { unfold _normalize_ws. by rewrite ink_sub_spaces, ink_strip. }
  split; [done|]. split.
  - intros H. rewrite H in Hink. by apply ink_nil.
  - intros H. unfold _normalize_ws, strip.
    assert (lstrip U s = []) as ->; [|done].
    clear Hink. induction s as [|c s IH]; [done|].
    apply Forall_cons in H as [Hc H]. simpl. rewrite Hc. by apply IH.
Qed.

End TextFacts.

Section PatternFacts.
Variable U : unicode_tables.

Lemma search_from_first r : forall txt p mt,
  search_from U r p txt = Some mt ->
  exists pre s, txt = pre ++ s /\
    rmatch U r (prev_after p pre) s None accept = Some mt /\
    forall pre2 s2, txt = pre2 ++ s2 -> (length pre2 < length pre)%nat ->
      rmatch U r (prev_after p pre2) s2 None accept = None.
Proof.
  induction txt as [|c txt IH]; intros p mt H; simpl in H.
  - destruct (rmatch U r p [] None accept) eqn:E; [|discriminate].
    injection H as ->. exists [], []. split_and!; [done | done |].
    intros ? ? _ Hl. simpl in Hl. lia.
  - destruct (rmatch U r p (c :: txt) None accept) eqn:E.
    + injection H as ->. exists [], (c :: txt). split_and!; [done | done |].
      intros ? ? _ Hl. simpl in Hl. lia.
    + apply IH in H as (pre & s & -> & H & Hfirst).
      exists (c :: pre), s. split_and!; [done | by rewrite prev_after_cons |].
      intros pre2 s2 Heq Hl. destruct pre2 as [|c2 pre2].
      * simpl in Heq. subst s2. exact E.
      * injection Heq as <- Heq. rewrite prev_after_cons.
        apply Hfirst; [done | simpl in Hl; lia].
Qed.

Lemma rep_chars_intro (q : N -> bool) lo hi cp s : forall w n p,
  Forall (fun ch => q ch = true) w -> (lo <= n + length w)%nat ->
  (forall h, hi = Some h -> (n + length w <= h)%nat) ->
  rep_rel (matches U (Chr q)) lo hi n
    {| prev := p; rest := w ++ s; cap := cp |}
    {| prev := prev_after p w; rest := s; cap := cp |}.
Proof.
  induction w as [|d w IH]; intros n p Hdig Hlo Hup.
  - apply rep_stop. simpl in Hlo. lia.
  - apply Forall_cons in Hdig as [Hd Hdig]. simpl in Hlo.
    apply rep_more with (c1 := {| prev := Some d; rest := w ++ s; cap := cp |}).
    + destruct hi as [h|]; [|done]. simpl. apply Nat.ltb_lt.
      specialize (Hup h eq_refl). simpl in Hup. lia.
    + simpl. by exists d.
    + simpl. lia.
    + rewrite prev_after_cons. apply IH; [done | lia |].
      intros h Hh. specialize (Hup h Hh). simpl in Hup. lia.
Qed.

Lemma reads_rep (q : N -> bool) lo hi w :
  Forall (fun ch => q ch = true) w -> (lo <= length w)%nat ->
  (forall h, hi = Some h -> (length w <= h)%nat) ->
  reads U (Rep lo hi (Chr q)) w.
Proof. intros Hw Hlo Hhi p s cp. by apply rep_chars_intro. Qed.

Lemma reads_cat r1 r2 w1 w2 :
  reads U r1 w1 -> reads U r2 w2 -> reads U (Cat r1 r2) (w1 ++ w2).
Proof.
  intros H1 H2 p s cp.
  exists {| prev := prev_after p w1; rest := w2 ++ s; cap := cp |}. split.
  - rewrite <- app_assoc. apply H1.
  - rewrite prev_after_app. apply H2.
Qed.

Lemma reads_lit w : reads U (lit w) w.
Proof.
  induction w as [|c w IH]; intros p s cp; [done|].
  exists {| prev := Some c; rest := w ++ s; cap := cp |}. split.
  - exists c. simpl. by rewrite N.eqb_refl.
  - rewrite prev_after_cons. apply IH.
Qed.

Lemma reads_one_of ws w : w ∈ ws -> reads U (one_of ws) w.
Proof.
  induction ws as [|v ws IH]; [by intros ?%elem_of_nil|].
  intros [->|Hin]%elem_of_cons p s cp.
  - destruct ws; [apply reads_lit|]. left. apply reads_lit.
  - destruct ws as [|v' ws]; [by apply elem_of_nil in Hin|].
    right. by apply IH.
Qed.

Lemma yields_rep (q : N -> bool) lo hi :
  yields U (Rep lo hi (Chr q))
    (fun w => Forall (fun ch => q ch = true) w /\ (lo <= length w)%nat /\
              forall h, hi = Some h -> (length w <= h)%nat).
Proof.
  intros c c' H. apply rep_class_inv in H as (w & Hw & Hq & Hlo & Hhi & Hcap).
  exists w. split_and!; [done | done | done | | done].
  intros h Hh. specialize (Hhi h Hh). lia.
Qed.

Lemma yields_cat r1 r2 P1 P2 :
  yields U r1 P1 -> yields U r2 P2 ->
  yields U (Cat r1 r2) (fun w => exists w1 w2, w = w1 ++ w2 /\ P1 w1 /\ P2 w2).
Proof.
  intros H1 H2 c c' (c1 & Hm1 & Hm2).
  apply H1 in Hm1 as (w1 & Hw1 & HP1 & Hc1).
  apply H2 in Hm2 as (w2 & Hw2 & HP2 & Hc2).
  exists (w1 ++ w2). split_and!.
  - by rewrite Hw1, Hw2, <- app_assoc.
  - by exists w1, w2.
  - congruence.
Qed.

Lemma yields_lit w : yields U (lit w) (fun v => v = w).
Proof.
  induction w as [|p w IH]; intros c c' Hm.
  - simpl in Hm. subst. by exists [].
  - destruct Hm as (c1 & (ch & Hrest & Hp & _ & Hcap) & Hm).
    apply IH in Hm as (v & Hv & Hvw & Hc).
    apply N.eqb_eq in Hp. subst ch v.
    exists (p :: w). rewrite Hrest, Hv. split_and!; [done | done | congruence].
Qed.

Lemma yields_one_of ws : yields U (one_of ws) (fun v => v ∈ ws).
Proof.
  induction ws as [|v ws IH]; intros c c' Hm.
  - by destruct Hm as (ch & _ & ? & _).
  - assert (Hlit : matches U (lit v) c c' ->
              exists w, rest c = w ++ rest c' /\ w ∈ v :: ws /\ cap c' = cap c).
    { intros (w & Hw & -> & Hc)%yields_lit. exists v.
      split_and!; [done | by left | done]. }
    destruct ws as [|v' ws]; [by apply Hlit|].
    destruct Hm as [Hm|Hm]; [by apply Hlit|].
    apply IH in Hm as (w & Hw & Hin & Hc). exists w.
    split_and!; [done | by right | done].
Qed.

(** What a match of the date-range pattern is made of. *)
Lemma date_range_re_inv p s c' :
  matches U (date_range_re U) {| prev := p; rest := s; cap := None |} c' ->
  exists w, s = w ++ rest c' /\ date_range_shape U w /\ cap c' = Some w.
Proof.
  intros (cap1 & Hm & Hcap). simpl in Hcap.
  eassert (Hyl : yields U (date_range_body U) _).
  { unfold date_range_body, MONTH_NAME_RE.
    do 10 (eapply yields_cat;
           [first [apply (yields_one_of month_names) | apply yields_lit
                  | apply yields_rep]|]).
    apply (yields_rep (is_digit U) 4 (Some 4)). }
  apply Hyl in Hm as (w & Hw & Hshape & _). clear Hyl.
  simpl in Hw. subst s. exists w. split; [done|].
  split; [|by rewrite Hcap, take_consumed].
  destruct Hshape as (m1 & ? & -> & Hm1 & ? & ? & -> & -> &
                      d1 & ? & -> & (Hd1 & Hd1lo & Hd1hi) &
                      s1 & ? & -> & (Hs1 & _) & ? & ? & -> & -> &
                      s2 & ? & -> & (Hs2 & _) &
                      m2 & ? & -> & Hm2 & ? & ? & -> & -> &
                      d2 & ? & -> & (Hd2 & Hd2lo & Hd2hi) &
                      ? & y & -> & -> & (Hy & Hylo & Hyhi)).
  exists m1, d1, s1, s2, m2, d2, y.
  specialize (Hd1hi _ eq_refl). specialize (Hd2hi _ eq_refl).
  specialize (Hyhi _ eq_refl).
  split_and!; try done; lia.
Qed.

Lemma date_range_re_intro p w post :
  date_range_shape U w ->
  matches U (date_range_re U)
    {| prev := p; rest := w ++ post; cap := None |}
    {| prev := prev_after p w; rest := post; cap := Some w |}.
Proof.
  intros (m1 & d1 & s1 & s2 & m2 & d2 & y & -> & Hm1 & Hm2 & Hd1 & Hl1 &
          Hd2 & Hl2 & Hs1 & Hs2 & Hy & Hly).
  exists None. simpl prev. simpl rest. split; [|by rewrite take_consumed].
  match goal with |- matches _ _ {| rest := ?w ++ _ |} _ =>
    cut (reads U (date_range_body U) w); [intros Hr; apply Hr|] end.
  unfold date_range_body, MONTH_NAME_RE.
  apply reads_cat; [by apply reads_one_of|].
  apply reads_cat; [by apply reads_lit|].
  apply reads_cat; [apply reads_rep; [done | lia | intros ? [= <-]; lia]|].
  apply reads_cat; [apply reads_rep; [done | lia | done]|].
  apply reads_cat; [by apply reads_lit|].
  apply reads_cat; [apply reads_rep; [done | lia | done]|].
  apply reads_cat; [by apply reads_one_of|].
  apply reads_cat; [by apply reads_lit|].
  apply reads_cat; [apply reads_rep; [done | lia | intros ? [= <-]; lia]|].
  apply reads_cat; [by apply reads_lit|].
  apply reads_rep; [done | lia | intros ? [= <-]; lia].
Qed.

Lemma month_name_head m :
  m ∈ month_names -> exists c r, m = c :: r /\ is_space U c = false.
Proof.
  unfold month_names. rewrite !fmap_cons, !elem_of_cons.
  intros H. repeat (destruct H as [->|H]; [by eexists _, _|]).
  by apply elem_of_nil in H.
Qed.

Lemma date_range_shape_strip w : date_range_shape U w -> strip U w <> [].
Proof.
  intros (m1 & d1 & s1 & s2 & m2 & d2 & y & -> & Hm1 & _) Hnil.
  apply month_name_head in Hm1 as (c & r & -> & Hc).
  assert (Hink : ink U (strip U ((c :: r) ++ T " " ++ d1 ++ s1 ++ T "-" ++ s2 ++
                          m2 ++ T " " ++ d2 ++ T ", " ++ y)) = []) by by rewrite Hnil.
  rewrite ink_strip, <- app_comm_cons, ink_cons, Hc in Hink.
  discriminate.
Qed.

Lemma prev_after_None_last (pre : text) : prev_after None pre = last pre.
Proof. unfold prev_after. by destruct (last pre). Qed.

(** X3: the date range of a text is the first part of it, from the left,
    that reads "Month d - Month d, yyyy" (a full English month name with its
    capital, one or two digits, any white space around the dash, four
    digits), stripped; it is empty exactly when the text has no such
    part. *)
Theorem date_range_in_first (full : text) :
  (exists pre w post,
     full = pre ++ w ++ post /\ date_range_shape U w /\
     date_range_in U full = strip U w /\ date_range_in U full <> [] /\
     forall pre2 w2 post2,
       full = pre2 ++ w2 ++ post2 -> date_range_shape U w2 ->
       (length pre <= length pre2)%nat) \/
  (date_range_in U full = [] /\
   forall pre w post, full = pre ++ w ++ post -> ~ date_range_shape U w).
Proof.
  assert (Hocc : forall pre w post, date_range_shape U w ->
            is_Some (rmatch U (date_range_re U) (prev_after None pre) (w ++ post)
                       None accept)).
  { intros pre w post Hshape.
    apply (rmatch_complete U (date_range_re U)
             {| prev := prev_after None pre; rest := w ++ post; cap := None |}
             {| prev := prev_after (prev_after None pre) w; rest := post;
                cap := Some w |}).
    - by apply date_range_re_intro.
    - by eexists. }
  unfold date_range_in.
  destruct (re_search U (date_range_re U) full) as [mt|] eqn:E.
  - left. apply search_from_first in E as (pre & s & -> & Hrun & Hfirst).
    apply rmatch_sound in Hrun as (c' & Hm & Hacc).
    apply date_range_re_inv in Hm as (w & -> & Hshape & Hcap).
    unfold run_k, accept in Hacc. injection Hacc as <-. rewrite Hcap. simpl.
    exists pre, w, (rest c'). split_and!; [done | done | done | |].
    + by apply date_range_shape_strip.
    + intros pre2 w2 post2 Heq Hshape2.
      destruct (decide (length pre2 < length pre)%nat) as [Hlt|]; [|lia].
      specialize (Hfirst pre2 (w2 ++ post2) Heq Hlt).
      destruct (Hocc pre2 w2 post2 Hshape2) as [x Hx]. congruence.
  - right. split; [done|]. intros pre w post -> Hshape.
    assert (Hs : is_Some (re_search U (date_range_re U) (pre ++ w ++ post))).
    { apply search_from_complete. by apply Hocc. }
    rewrite E in Hs. by destruct Hs.
Qed.

(** *** Points *)

Lemma replace_comma_digits g :
  Forall (fun ch => digit_or_comma U ch = true) g -> digits U (replace_comma g).
Proof.
  induction 1 as [|c g Hc _ IH]; [apply Forall_nil_2|].
  unfold replace_comma in *. simpl.
  destruct (c =? comma)%N eqn:E; simpl; [done|].
  apply Forall_cons. split; [|done].
  unfold digit_or_comma in Hc. rewrite E, orb_false_r in Hc. done.
Qed.

Lemma digits_or_comma (w : text) :
  digits U w -> Forall (fun ch => digit_or_comma U ch = true) w.
Proof.
  intros H. eapply Forall_impl; [exact H|].
  intros c Hc. unfold digit_or_comma. by rewrite Hc.
Qed.

Lemma number_shape_chars g :
  number_shape U g -> Forall (fun ch => digit_or_comma U ch = true) g.
Proof.
  intros [(h & gs & -> & _ & Hh & _ & Hgs) | [_ Hd]]; [|by apply digits_or_comma].
  apply Forall_app. split; [by apply digits_or_comma|].
  induction Hgs as [|g gs (d & -> & _ & Hd) _ IH]; [apply Forall_nil_2|].
  simpl. apply Forall_cons. split; [done|].
  apply Forall_app. split; [by apply digits_or_comma | done].
Qed.

Lemma points_digits_only (txt : text) : digits U (clean_points_from_text U txt).
Proof.
  unfold clean_points_from_text. destruct txt as [|c0 txt0]; [apply Forall_nil_2|].
  set (txt := c0 :: txt0).
  destruct (re_search U (points_re U) txt) as [mt|] eqn:E1.
  - apply search_from_sound in E1 as (pre & s & _ & Hrun).
    apply rmatch_sound in Hrun as (c' & Hm & Hacc).
    apply points_re_inv in Hm as (g & sp & post & _ & _ & Hg & _ & _ & Hcap).
    unfold run_k, accept in Hacc. injection Hacc as <-. rewrite Hcap.
    by apply replace_comma_digits.
  - destruct (re_search U (number_re U) txt) as [mt|] eqn:E2; [|apply Forall_nil_2].
    apply search_from_sound in E2 as (pre & s & _ & Hrun).
    apply rmatch_sound in Hrun as (c' & Hm & Hacc).
    apply number_re_inv in Hm as (g & Hcap & _ & Hshape).
    unfold run_k, accept in Hacc. injection Hacc as <-. rewrite Hcap.
    by apply replace_comma_digits, number_shape_chars.
Qed.

(** X4: whatever the text, the points returned consist of digits only (and
    so hold no comma); this holds for both patterns. *)
Theorem clean_points_digits (txt : text) :
  digits U (clean_points_from_text U txt) /\
  (comma ∉ clean_points_from_text U txt) /\
  _points_from_text U txt = clean_points_from_text U txt.
Proof.
  pose proof (points_digits_only txt) as Hd.
  split_and!; [done | | done].
  intros Hin. unfold digits in Hd. rewrite Forall_forall in Hd.
  apply Hd in Hin. vm_compute in Hin. discriminate.
Qed.

Lemma lit_ci_intro w : forall post p cp,
  prefix_ci U w post = true ->
  exists v post', post = v ++ post' /\
    matches U (lit_ci U w) {| prev := p; rest := post; cap := cp |}
                           {| prev := prev_after p v; rest := post'; cap := cp |}.
Proof.
  induction w as [|q w IH]; intros post p cp H.
  - by exists [], post.
  - destruct post as [|c post]; [done|]. simpl in H.
    apply andb_true_iff in H as [Hq H].
    destruct (IH post (Some c) cp H) as (v & post' & -> & Hm).
    exists (c :: v), post'. split; [done|].
    exists {| prev := Some c; rest := v ++ post'; cap := cp |}. split.
    + by exists c.
    + by rewrite prev_after_cons.
Qed.

Lemma points_re_intro p g sp post :
  points_run U g sp post ->
  exists c', matches U (points_re U)
               {| prev := p; rest := g ++ sp ++ post; cap := None |} c'.
Proof.
  intros (Hne & Hg & Hsp & Hpost).
  destruct (lit_ci_intro (T "points") post (prev_after (prev_after p g) sp)
              (Some g) Hpost) as (v & post' & -> & Hlit).
  eexists.
  exists {| prev := prev_after p g; rest := sp ++ v ++ post'; cap := Some g |}.
  split.
  - exists None. simpl. split; [|by rewrite take_consumed].
    apply rep_chars_intro; [done | | done].
    destruct g; [done | simpl; lia].
  - exists {| prev := prev_after (prev_after p g) sp; rest := v ++ post';
              cap := Some g |}.
    split; [|exact Hlit].
    apply rep_chars_intro; [done | lia | done].
Qed.


End PatternFacts.


(** ** The Florida group *)

Lemma after_florida_skip (pre : list item) (hdr : item) (rest : list item) :
  Forall (fun li => li_id li <> "list-item-Florida-id") pre ->
  li_id hdr = "list-item-Florida-id" ->
  after_florida (pre ++ hdr :: rest) = Some rest.
Proof.
  intros Hpre Hhdr. induction Hpre as [|li pre Hli _ IH]; simpl.
  - by rewrite bool_decide_eq_true_2.
  - by rewrite bool_decide_eq_false_2.
Qed.

Lemma after_florida_none (items : list item) :
  Forall (fun li => li_id li <> "list-item-Florida-id") items ->
  after_florida items = None.
Proof.
  induction 1 as [|li items Hli _ IH]; [done|]. simpl.
  by rewrite bool_decide_eq_false_2.
Qed.

Lemma ids_until_group_app (opts tail : list item) :
  Forall (fun li => li_group li = false) opts ->
  (forall li, head tail = Some li -> li_group li = true) ->
  ids_until_group (opts ++ tail) = (omap option_id opts, bool_decide (tail <> [])).
Proof.
  intros Hopts Htail. induction Hopts as [|li opts Hli _ IH]; simpl.
  - destruct tail as [|li tail]; [done|]. simpl.
    by rewrite (Htail li eq_refl).
  - rewrite Hli, IH. unfold option_id.
    destruct (li_input li) as [i|]; [|done]. by destruct (bool_decide (i = EmptyString)).
Qed.

(** X6: the script that reads the list box returns the checkbox ids of
    exactly the options that stand between the Florida header and the label
    of the next group, in their order, skipping options without a checkbox
    id; it reports a next group exactly when something follows them.  When
    no item is the Florida header it returns no id and no next group. *)
Theorem collect_florida_group (pre : list item) (hdr : item) (opts tail : list item) :
  florida_group pre hdr opts tail ->
  collect_florida (pre ++ hdr :: opts ++ tail)
    = (omap option_id opts, bool_decide (tail <> [])) /\
  collect_florida pre = ([], false).
Proof.
  intros (Hpre & Hhdr & Hopts & Htail). unfold collect_florida. split.
  - rewrite after_florida_skip by done. by apply ids_until_group_app.
  - by rewrite after_florida_none.
Qed.

Lemma collect_florida_group_witness :
  collect_florida (take 1 florida_list ++
                   {| li_id := "list-item-Florida-id"; li_group := true;
                      li_input := None |} :: take 1 (drop 2 florida_list) ++
                   drop 3 florida_list)
    = (omap option_id (take 1 (drop 2 florida_list)),
       bool_decide (drop 3 florida_list <> [])) /\
  collect_florida (take 1 florida_list) = ([], false).
Proof.
  apply collect_florida_group. split_and!.
  - by repeat constructor.
  - reflexivity.
  - by repeat constructor.
  - simpl. by intros li [= <-].
Defined.

(** ** Debug snapshots *)

Lemma write_debug_total {W : Type} `{Session W} (stem : string) (s : st W) :
  write_debug stem s
  = (Ok tt,
     {| env := (perform (WriteContent (stem +:+ ".html"))
                  (perform (Screenshot None (stem +:+ ".png")) (env s)).2).2;
        log := log s ++ [Screenshot None (stem +:+ ".png");
                         WriteContent (stem +:+ ".html")] |}).
Proof.
  unfold write_debug. unfold_m.
  destruct (perform (Screenshot None (stem +:+ ".png")) (env s)) as [[[]|e1] w1];
    simpl;
    destruct (perform (WriteContent (stem +:+ ".html")) w1) as [[[]|e2] w2];
    simpl; by rewrite <- app_assoc.
Qed.

(** X7: [write_debug] never raises: whatever the screenshot and the dump of
    the markup do, both are attempted, in this order, each once, and the
    function returns. *)
Theorem write_debug_never_raises {W : Type} `{Session W} (stem : string) (s : st W) :
  exists s',
    write_debug stem s = (Ok tt, s') /\
    (log s' = log s ++ [Screenshot None (stem +:+ ".png");
                        WriteContent (stem +:+ ".html")]) /\
    (env s' = (perform (WriteContent (stem +:+ ".html"))
                 (perform (Screenshot None (stem +:+ ".png")) (env s)).2).2).
Proof. rewrite write_debug_total. by eexists. Qed.

(** ** Counters that obey their buttons *)

Lemma text_of_string_of_text (s : string) :
  string_of_list_ascii (ascii_of_N <$> T s) = s.
Proof.
  unfold T. rewrite <- list_fmap_compose.
  rewrite (list_fmap_ext _ id (list_ascii_of_string s))
    by (intros ? a _; apply ascii_N_embedding).
  rewrite list_fmap_id. apply string_of_list_ascii_of_string.
Qed.

Lemma int_of_numeral_str (z : Z) : int_of_numeral (str z) = Some z.
Proof.
  unfold int_of_numeral, str. rewrite text_of_string_of_text.
  rewrite NilZero.isi.
  - simpl. by rewrite DecimalZ.of_to.
  - destruct z; simpl; try discriminate.
    intros [= Hp]. by apply DecimalPos.Unsigned.to_uint_nonnil in Hp.
  - destruct z; simpl; try discriminate.
    intros [= Hp]. by apply DecimalPos.Unsigned.to_uint_nonnil in Hp.
Qed.

Lemma str_nonempty (z : Z) : str z <> [].
Proof.
  intros H. pose proof (int_of_numeral_str z) as Hz. rewrite H in Hz.
  discriminate.
Qed.

Section CounterWorld.
Variable py_int : text -> option Z.
Hypothesis reads_numerals : forall z, py_int (str z) = Some z.

Lemma read_counter_shown (adults : bool) (s : st counters) :
  read_counter py_int (CounterSpan adults) s = (Ok (shown_count adults (env s)), s).
Proof.
  unfold read_counter. unfold_m. simpl.
  pose proof (str_nonempty (shown_count adults (env s))) as Hne.
  destruct (str (shown_count adults (env s))) as [|c t] eqn:E; [done|].
  rewrite <- E, reads_numerals. by destruct s.
Qed.

Lemma shown_moved (adults : bool) (d : Z) (w : counters) :
  shown_count adults (moved adults d w) = (shown_count adults w + d)%Z /\
  shown_count (negb adults) (moved adults d w) = shown_count (negb adults) w.
Proof. by destruct adults. Qed.

Lemma moved_moved (adults : bool) (d e : Z) (w : counters) :
  moved adults e (moved adults d w) = moved adults (d + e) w.
Proof. destruct adults; unfold moved; simpl; f_equal; lia. Qed.

Lemma moved_zero (adults : bool) (w : counters) : moved adults 0 w = w.
Proof.
  destruct adults, w; unfold moved; simpl; f_equal; lia.
Qed.

Lemma counter_loop_counters (adults : bool) (target : Z) :
  forall (budget : nat) (w : counters) (lg : list call) (tries : nat),
  let cur := shown_count adults w in
  let n := Nat.min budget (Z.to_nat (Z.abs (target - cur))) in
  let d := (Z.of_nat n * Z.sgn (target - cur))%Z in
  counter_loop py_int adults target budget cur tries {| env := w; log := lg |}
  = (Ok ((cur + d)%Z, (tries + n)%nat),
     {| env := moved adults d w;
        log := lg ++ replicate n
                 (Click (if bool_decide (cur < target)%Z
                         then PlusBtn adults else MinusBtn adults) false) |}).
Proof.
  induction budget as [|budget IH]; intros w lg tries cur n d.
  - assert (Hn : n = 0%nat) by (unfold n; lia).
    assert (Hd : d = 0%Z) by (unfold d; lia).
    clearbody n d. subst n d. simpl.
    rewrite moved_zero, app_nil_r, Z.add_0_r, Nat.add_0_r. reflexivity.
  - cbn [counter_loop]. case_bool_decide as Heq.
    + assert (Hn : n = 0%nat) by (unfold n; lia).
      assert (Hd : d = 0%Z) by (unfold d; lia).
      clearbody n d. subst n d. simpl.
      rewrite moved_zero, app_nil_r, Z.add_0_r, Nat.add_0_r. reflexivity.
    + set (c := Click (if bool_decide (cur < target)%Z
                       then PlusBtn adults else MinusBtn adults) false).
      set (sg := Z.sgn (target - cur)).
      assert (Hrun : ((if bool_decide (cur < target)%Z
                       then act (Click (PlusBtn adults) false)
                       else try_except (act (Click (MinusBtn adults) false)) pass)
                      : M counters unit) {| env := w; log := lg |}
                     = (Ok tt, {| env := moved adults sg w; log := lg ++ [c] |})).
      { unfold c, sg. case_bool_decide as Hlt.
        - replace (Z.sgn (target - cur)) with 1%Z by lia. reflexivity.
        - replace (Z.sgn (target - cur)) with (-1)%Z by lia. reflexivity. }
      rewrite (bind_ok _ _ _ _ _ Hrun).
      pose proof (proj1 (shown_moved adults sg w)) as Hshown. fold cur in Hshown.
      assert (Hread : (try_except (read_counter py_int (CounterSpan adults)) (mret cur)
                       : M counters Z)
                        {| env := moved adults sg w; log := lg ++ [c] |}
                      = (Ok (shown_count adults (moved adults sg w)),
                         {| env := moved adults sg w; log := lg ++ [c] |})).
      { unfold try_except. by rewrite read_counter_shown. }
      rewrite (bind_ok _ _ _ _ _ Hread).
      pose proof (IH (moved adults sg w) (lg ++ [c]) (S tries)) as IH'.
      cbv zeta in IH'. rewrite IH'. clear IH' Hread Hrun.
      rewrite Hshown, moved_moved, <- app_assoc.
      set (n1 := Nat.min budget (Z.to_nat (Z.abs (target - (cur + sg))))).
      assert (Hn : n = S n1) by (unfold n, n1, sg; lia).
      assert (Hd : (sg + Z.of_nat n1 * Z.sgn (target - (cur + sg)) = d)%Z).
      { unfold d. rewrite Hn. unfold n1, sg. nia. }
      assert (Hc : replicate n1
                     (Click (if bool_decide (cur + sg < target)%Z
                             then PlusBtn adults else MinusBtn adults) false)
                   = replicate n1 c).
      { destruct (decide (cur + sg = target)%Z) as [Hend|Hne].
        - assert (n1 = 0%nat) as -> by (unfold n1; lia). reflexivity.
        - unfold c. f_equal. f_equal.
          assert (bool_decide (cur + sg < target)%Z = bool_decide (cur < target)%Z)
            as ->; [|done].
          apply bool_decide_ext. unfold sg. lia. }
      rewrite Hc, Hd, Hn. clearbody n n1 d c sg. simpl.
      do 3 f_equal; lia.
Qed.

(** X8: on counters that obey their buttons, [set_counter] returns with
    the counter at the target when the target is at most 30 away, and 30
    nearer to it otherwise; it clicks one button only, once per step, and
    leaves the other counter alone. *)
Theorem set_counter_settles (kind : string) (target : Z) (w : counters)
    (lg : list call) :
  let adults := bool_decide (kind = "adults") in
  let cur := shown_count adults w in
  let n := Nat.min 30 (Z.to_nat (Z.abs (target - cur))) in
  exists w',
    set_counter py_int kind target {| env := w; log := lg |}
    = (Ok tt,
       {| env := w';
          log := lg ++ replicate n
                   (Click (if bool_decide (cur < target)%Z
                           then PlusBtn adults else MinusBtn adults) false) |}) /\
    shown_count adults w' = settled cur target /\
    shown_count (negb adults) w' = shown_count (negb adults) w.
Proof.
  intros adults cur n.
  exists (moved adults (Z.of_nat n * Z.sgn (target - cur)) w).
  split_and!.
  - unfold set_counter. fold adults.
    rewrite (bind_ok _ _ _ _ _ (read_counter_shown adults {| env := w; log := lg |})).
    cbn [env]. fold cur.
    pose proof (counter_loop_counters adults target 30 w lg 0) as Hloop.
    cbv zeta in Hloop. fold cur in Hloop. fold n in Hloop.
    by rewrite (bind_ok _ _ _ _ _ Hloop).
  - rewrite (proj1 (shown_moved _ _ _)). fold cur. unfold settled.
    destruct (Z.leb_spec (Z.abs (target - cur)) 30); subst n; nia.
  - apply shown_moved.
Qed.

End CounterWorld.

Lemma set_counter_settles_witness :
  exists w',
    set_counter int_of_numeral "adults" 2
      {| env := {| adults_shown := 0; children_shown := 0 |}; log := [] |}
    = (Ok tt,
       {| env := w';
          log := [] ++ replicate (Nat.min 30 (Z.to_nat (Z.abs (2 - 0))))
                   (Click (if bool_decide (0 < 2)%Z
                           then PlusBtn (bool_decide ("adults" = "adults"))
                           else MinusBtn (bool_decide ("adults" = "adults")))
                      false) |}) /\
    shown_count (bool_decide ("adults" = "adults")) w' = settled 0 2 /\
    shown_count (negb (bool_decide ("adults" = "adults"))) w'
    = shown_count (negb (bool_decide ("adults" = "adults")))
        {| adults_shown := 0; children_shown := 0 |}.
Proof.
  apply (set_counter_settles int_of_numeral int_of_numeral_str "adults" 2
           {| adults_shown := 0; children_shown := 0 |} []).
Defined.

Lemma try_except_ok {W A : Type} (m h : M W A) s a s' :
  m s = (Ok a, s') -> try_except m h s = (Ok a, s').
Proof. unfold try_except. by intros ->. Qed.

Lemma try_except_raise {W A : Type} (m h : M W A) s e s' :
  m s = (Raise e, s') -> try_except m h s = h s'.
Proof. unfold try_except. by intros ->. Qed.

Lemma try_catch_ok {W A : Type} (m : M W A) (h : exn -> M W A) s a s' :
  m s = (Ok a, s') -> try_catch m h s = (Ok a, s').
Proof. unfold try_catch. by intros ->. Qed.

Lemma try_catch_raise {W A : Type} (m : M W A) (h : exn -> M W A) s e s' :
  m s = (Raise e, s') -> try_catch m h s = h e s'.
Proof. unfold try_catch. by intros ->. Qed.

Ltac step H :=
  first [ rewrite (bind_ok _ _ _ _ _ H)
        | rewrite (bind_raise _ _ _ _ _ H)
        | rewrite (try_except_ok _ _ _ _ _ H)
        | rewrite (try_except_raise _ _ _ _ _ H)
        | rewrite (try_catch_ok _ _ _ _ _ H)
        | rewrite (try_catch_raise _ _ _ _ _ H) ].

Section PageFacts.
Context {W : Type} `{Session W} `{Page W}.

Lemma op_traced (c : op) (s : st (traced W)) :
  exists r s', op_ c s = (r, s') /\ done_since s s' [c] /\ log s' = log s /\
    r = (page_do c (world (env s))).1.
Proof.
  unfold op_, ask, done_since. simpl. unfold traced_do.
  destruct (page_do c (world (env s))) as [r w]. by eexists _, _.
Qed.

Lemma ask_quiet {A : Type} (q : W -> result A * W) (s : st (traced W)) :
  exists r s', ask (quiet q) s = (r, s') /\ done_since s s' [] /\ log s' = log s /\
    r = (q (world (env s))).1.
Proof.
  unfold ask, quiet, done_since.
  destruct (q (world (env s))) as [r w]. eexists _, _. simpl.
  by rewrite app_nil_r.
Qed.

Lemma ask_count (l : loc) (s : st (traced W)) :
  exists r s', ask (page_count l) s = (r, s') /\ done_since s s' [] /\
    log s' = log s /\ r = (page_count l (world (env s))).1.
Proof. apply (ask_quiet (page_count l)). Qed.

Lemma ask_text (l : loc) (s : st (traced W)) :
  exists r s', ask (page_text l) s = (r, s') /\ done_since s s' [] /\
    log s' = log s /\ r = (page_text l (world (env s))).1.
Proof. apply (ask_quiet (page_text l)). Qed.

Lemma ask_visible (l : loc) (s : st (traced W)) :
  exists r s', ask (page_visible l) s = (r, s') /\ done_since s s' [] /\
    log s' = log s /\ r = (page_visible l (world (env s))).1.
Proof. apply (ask_quiet (page_visible l)). Qed.

Lemma ask_attr (l : loc) (name : string) (s : st (traced W)) :
  exists r s', ask (page_attr l name) s = (r, s') /\ done_since s s' [] /\
    log s' = log s /\ r = (page_attr l name (world (env s))).1.
Proof. apply (ask_quiet (page_attr l name)). Qed.

Lemma ask_height (s : st (traced W)) :
  exists r s', ask scroll_height s = (r, s') /\ done_since s s' [] /\
    log s' = log s /\ r = (scroll_height (world (env s))).1.
Proof. apply (ask_quiet scroll_height). Qed.

Lemma done_since_refl (s : st (traced W)) : done_since s s [].
Proof. unfold done_since. by rewrite app_nil_r. Qed.

Lemma done_since_trans (s s1 s2 : st (traced W)) (a b : list op) :
  done_since s s1 a -> done_since s1 s2 b -> done_since s s2 (a ++ b).
Proof. unfold done_since. intros Ha ->. by rewrite Ha, app_assoc. Qed.

Lemma write_debug_traced (stem : string) (s : st (traced W)) :
  exists s', write_debug stem s = (Ok tt, s') /\
             log s' = log s ++ debug_calls stem /\ done_since s s' [].
Proof.
  rewrite write_debug_total. eexists. split_and!; [done | done |].
  unfold done_since. simpl. unfold quiet.
  destruct (perform _ _) as [r1 w1]. simpl.
  destruct (perform _ _) as [r2 w2]. simpl. by rewrite app_nil_r.
Qed.

(** *** Waiting for the results *)

Lemma try_anchors_run : forall (todo : list loc) (last_err : option exn)
    (s : st (traced W)),
  exists r s',
    try_anchors todo last_err s = (Ok r, s') /\ log s' = log s /\
    match r with
    | None =>
        exists i a s1,
          todo !! i = Some a /\ all_raise (waits (take i todo)) s s1 /\
          op_ (PWaitFor a (Some Visible)) s1 = (Ok tt, s') /\
          done_since s s' (waits (take (S i) todo))
    | Some e =>
        done_since s s' (waits todo) /\
        ((todo = [] /\ e = last_err /\ s' = s) \/
         (exists init a s1 err,
            todo = init ++ [a] /\ all_raise (waits init) s s1 /\
            op_ (PWaitFor a (Some Visible)) s1 = (Raise err, s') /\ e = Some err))
    end.
Proof.
  induction todo as [|a todo IH]; intros last_err s.
  - exists (Some last_err), s. simpl.
    split; [done|]. split; [done|]. split; [apply done_since_refl | by left].
  - cbn [try_anchors].
    destruct (op_traced (PWaitFor a (Some Visible)) s)
      as (r0 & s0 & Hrun & Hdone & Hlog & _).
    destruct r0 as [[]|e].
    + assert (Hwait : (op_ (PWaitFor a (Some Visible));; mret None
                       : M (traced W) (option exn)) s = (Ok None, s0))
        by (by step Hrun).
      apply (try_catch_ok _ (fun e => mret (Some e))) in Hwait. step Hwait.
      exists None, s0. split; [done|]. split; [done|].
      exists 0%nat, a, s. by split_and!.
    + assert (Hwait : (op_ (PWaitFor a (Some Visible));; mret None
                       : M (traced W) (option exn)) s = (Raise e, s0))
        by (by step Hrun).
      apply (try_catch_raise _ (fun e => mret (Some e))) in Hwait.
      step Hwait.
      destruct (IH (Some e) s0) as (r & s' & Hrec & Hlog' & Hres).
      exists r, s'. rewrite Hrec.
      split; [done|]. split; [congruence|].
      destruct r as [e'|].
      * destruct Hres as [Hd Hres]. split.
        { by apply (done_since_trans s s0 s' [_]). }
        right. destruct Hres as [(-> & -> & ->)|(init & b & s1 & err & -> & Hall & Hb & ->)].
        -- exists [], a, s, e. by split_and!.
        -- exists (a :: init), b, s1, err. split; [done|].
           split; [by exists e, s0 | done].
      * destruct Hres as (i & b & s1 & Hi & Hall & Hb & Hd).
        exists (S i), b, s1. split; [done|].
        split; [by exists e, s0|]. split; [done|].
        by apply (done_since_trans s s0 s' [_]).
Qed.

(** X9: [wait_for_results] waits for its four anchors in their order and
    returns at the first wait that goes through, every wait before it having
    raised, without touching the debug files; when the four waits raise, one
    after the other, it writes the debug snapshot "results_wait_failed" and
    raises the error that the last wait, for the bare [h2], raised. *)
Theorem wait_for_results_anchors (s : st (traced W)) :
  exists r s',
    wait_for_results s = (r, s') /\
    ((exists i a s1,
        anchors !! i = Some a /\
        all_raise (waits (take i anchors)) s s1 /\
        op_ (PWaitFor a (Some Visible)) s1 = (Ok tt, s') /\
        r = Ok tt /\
        done_since s s' (waits (take (S i) anchors)) /\ log s' = log s) \/
     (exists s1 s2 err,
        all_raise (waits (take 3 anchors)) s s1 /\
        op_ (PWaitFor (Sel "h2") (Some Visible)) s1 = (Raise err, s2) /\
        write_debug "results_wait_failed" s2 = (Ok tt, s') /\
        r = Raise err /\
        done_since s s' (waits anchors) /\
        log s' = log s ++ debug_calls "results_wait_failed")).
Proof.
  unfold wait_for_results.
  destruct (try_anchors_run anchors None s) as (r & s1 & Hrun & Hlog & Hres).
  step Hrun.
  destruct r as [last_err|].
  - destruct Hres as [Hd [(Hnil & _)|(init & a & s0 & err & Hsplit & Hall & Ha & ->)]];
      [discriminate Hnil|].
    assert (init = take 3 anchors /\ a = Sel "h2") as [-> ->].
    { change anchors with (take 3 anchors ++ [Sel "h2"]) in Hsplit.
      by apply app_inj_2 in Hsplit as [<- [= <-]]. }
    destruct (write_debug_traced "results_wait_failed" s1)
      as (s2 & Hdbg & Hlog2 & Hdone2).
    step Hdbg.
    exists (Raise err), s2. split; [done|]. right.
    exists s0, s1, err. split_and!; [done..| |].
    + rewrite <- (app_nil_r (waits anchors)).
      by apply (done_since_trans s s1 s2).
    + by rewrite Hlog2, Hlog.
  - destruct Hres as (i & a & s0 & Hi & Hall & Ha & Hd).
    exists (Ok tt), s1. split; [done|]. left.
    exists i, a, s0. by split_and!.
Qed.

(** *** Picking the year *)

Lemma click_option_run (opt : loc) (s : st (traced W)) :
  exists rp s1,
    op_ (PClick opt false) s = (rp, s1) /\
    match rp with
    | Ok _ =>
        try_except (op_ (PClick opt false)) (op_ (PClick opt true)) s = (Ok tt, s1) /\
        done_since s s1 [PClick opt false]
    | Raise _ =>
        exists rf s2,
          op_ (PClick opt true) s1 = (rf, s2) /\
          try_except (op_ (PClick opt false)) (op_ (PClick opt true)) s = (rf, s2) /\
          done_since s s2 [PClick opt false; PClick opt true]
    end.
Proof.
  destruct (op_traced (PClick opt false) s) as (rp & s1 & H1 & Hd1 & _ & _).
  exists rp, s1. split; [done|].
  destruct rp as [[]|e1].
  - split; [by apply try_except_ok | done].
  - destruct (op_traced (PClick opt true) s1) as (rf & s2 & H2 & Hd2 & _ & _).
    exists rf, s2. split; [done|]. split.
    + by rewrite (try_except_raise _ _ _ _ _ H1).
    + by apply (done_since_trans s s1 s2 [_] [_]).
Qed.

Lemma click_first_present_run : forall (sels : list string) (s : st (traced W)),
  exists r s',
    click_first_present sels s = (r, s') /\
    ((r = Ok false /\ none_matches sels s s' /\ done_since s s' []) \/
     (exists i sel s1,
        sels !! i = Some sel /\ none_matches (take i sels) s s1 /\
        ((exists e,
            ask (page_count (First (Sel sel))) s1 = (Raise e, s') /\
            r = Raise e /\ done_since s s' []) \/
         (exists n s2 rp s3,
            ask (page_count (First (Sel sel))) s1 = (Ok n, s2) /\ (0 < n)%nat /\
            op_ (PClick (First (Sel sel)) false) s2 = (rp, s3) /\
            match rp with
            | Ok _ =>
                r = Ok true /\ s' = s3 /\
                done_since s s' [PClick (First (Sel sel)) false]
            | Raise _ =>
                exists rf,
                  op_ (PClick (First (Sel sel)) true) s3 = (rf, s') /\
                  r = match rf with Ok _ => Ok true | Raise e => Raise e end /\
                  done_since s s' [PClick (First (Sel sel)) false;
                                   PClick (First (Sel sel)) true]
            end)))).
Proof.
  induction sels as [|sel sels IH]; intros s.
  - exists (Ok false), s. simpl.
    split; [done|]. left. split; [done|]. split; [done | apply done_since_refl].
  - cbn [click_first_present].
    destruct (ask_count (First (Sel sel)) s) as (r0 & s0 & Hq & Hd0 & _).
    destruct r0 as [n|e]; step Hq.
    2:{ exists (Raise e), s0. split; [done|]. right.
        exists 0%nat, sel, s. split; [done|]. split; [done|]. left.
        by exists e. }
    destruct (0 <? n)%nat eqn:Hn.
    + apply Nat.ltb_lt in Hn.
      destruct (click_option_run (First (Sel sel)) s0) as (rp & s1 & Hp & Hres).
      destruct rp as [[]|e1].
      * destruct Hres as [Htry Hd1]. step Htry.
        exists (Ok true), s1. split; [done|]. right.
        exists 0%nat, sel, s. split; [done|]. split; [done|]. right.
        exists n, s0, (Ok tt), s1. split_and!; [done..|].
        by apply (done_since_trans s s0 s1 []).
      * destruct Hres as (rf & s2 & Hf & Htry & Hd2).
        exists (match rf with Ok _ => Ok true | Raise e => Raise e end), s2.
        split; [destruct rf as [[]|?]; by step Htry|]. right.
        exists 0%nat, sel, s. split; [done|]. split; [done|]. right.
        exists n, s0, (Raise e1), s1. split_and!; [done..|].
        exists rf. split_and!; [done..|].
        by apply (done_since_trans s s0 s2 []).
    + apply Nat.ltb_ge in Hn. assert (n = 0%nat) as -> by lia.
      destruct (IH s0) as (r & s' & Hrec & Hres).
      exists r, s'. split; [done|].
      destruct Hres as [(-> & Hnone & Hd)|(i & sel' & s1 & Hi & Hnone & Hres)].
      * left. split; [done|]. split; [by exists s0|].
        by apply (done_since_trans s s0 s' [] []).
      * right. exists (S i), sel', s1. split; [done|].
        split; [by exists s0|].
        destruct Hres as [(e & Hc & -> & Hd)|(n & s2 & rp & s3 & Hc & Hn' & Hp & Hres)].
        -- left. exists e. split_and!; [done..|].
           by apply (done_since_trans s s0 s' [] []).
        -- right. exists n, s2, rp, s3. split_and!; [done..|].
           destruct rp as [[]|?].
           ++ destruct Hres as (-> & -> & Hd). split_and!; [done..|].
              by apply (done_since_trans s s0 s3 []).
           ++ destruct Hres as (rf & Hf & -> & Hd). exists rf.
              split_and!; [done..|].
              by apply (done_since_trans s s0 s' []).
Qed.

(** X10: [pick_year] clicks the year picker, an error of this click being
    passed on.  Then the first of its four selectors that counts a match is
    clicked, by force only when the plain click raised, and no later
    selector is counted or clicked; it returns when one of the two clicks
    goes through and passes on the error of the forced click, or of the
    count.  When the four selectors count no match, the option of that name
    is clicked once by role, and [RuntimeError] with the year in its message
    is raised exactly when this click raises. *)
Theorem pick_year_one_option (year : string) (s : st (traced W)) :
  exists r s' r0 s0,
    pick_year year s = (r, s') /\
    op_ (PClick (Sel "#year-picker") false) s = (r0, s0) /\
    match r0 with
    | Raise e =>
        r = Raise e /\ s' = s0 /\ done_since s s' [PClick (Sel "#year-picker") false]
    | Ok _ =>
        (exists i sel s1,
           year_selectors year !! i = Some sel /\
           none_matches (take i (year_selectors year)) s0 s1 /\
           ((exists e,
               ask (page_count (First (Sel sel))) s1 = (Raise e, s') /\
               r = Raise e /\
               done_since s s' [PClick (Sel "#year-picker") false]) \/
            (exists n s2 rp s3,
               ask (page_count (First (Sel sel))) s1 = (Ok n, s2) /\ (0 < n)%nat /\
               op_ (PClick (First (Sel sel)) false) s2 = (rp, s3) /\
               match rp with
               | Ok _ =>
                   r = Ok tt /\ s' = s3 /\
                   done_since s s' [PClick (Sel "#year-picker") false;
                                    PClick (First (Sel sel)) false]
               | Raise _ =>
                   exists rf,
                     op_ (PClick (First (Sel sel)) true) s3 = (rf, s') /\
                     r = rf /\
                     done_since s s' [PClick (Sel "#year-picker") false;
                                      PClick (First (Sel sel)) false;
                                      PClick (First (Sel sel)) true]
               end))) \/
        (exists s1 rr,
           none_matches (year_selectors year) s0 s1 /\
           op_ (PClick (ByRole "option" year) false) s1 = (rr, s') /\
           r = match rr with
               | Ok _ => Ok tt
               | Raise _ => Raise (RuntimeError ("Could not select year " +:+ year))
               end /\
           done_since s s' [PClick (Sel "#year-picker") false;
                            PClick (ByRole "option" year) false])
    end.
Proof.
  unfold pick_year.
  destruct (op_traced (PClick (Sel "#year-picker") false) s)
    as (r0 & s0 & H0' & Hd0 & _ & _).
  destruct r0 as [[]|e0]; step H0'.
  2:{ exists (Raise e0), s0, (Raise e0), s0. by split_and!. }
  destruct (click_first_present_run (year_selectors year) s0)
    as (r1 & s1 & H1 & Hres).
  destruct Hres as [(-> & Hnone & Hd1)|(i & sel & s2 & Hi & Hnone & Hres)].
  - step H1.
    destruct (op_traced (PClick (ByRole "option" year) false) s1)
      as (r2 & s2 & H2 & Hd2 & _ & _).
    exists (match r2 with
            | Ok _ => Ok tt
            | Raise _ => Raise (RuntimeError ("Could not select year " +:+ year))
            end), s2, (Ok tt), s0.
    split.
    { destruct r2 as [[]|e2].
      - assert (Hc : (op_ (PClick (ByRole "option" year) false);; mret true
                      : M (traced W) bool) s1 = (Ok true, s2)) by (by step H2).
        apply (try_except_ok _ (mret false)) in Hc. by step Hc.
      - assert (Hc : (op_ (PClick (ByRole "option" year) false);; mret true
                      : M (traced W) bool) s1 = (Raise e2, s2)) by (by step H2).
        apply (try_except_raise _ (mret false)) in Hc. by step Hc. }
    split; [done|]. right. exists s1, r2. split_and!; [done..|].
    apply (done_since_trans s s0 s2 [_]); [done|].
    by apply (done_since_trans s0 s1 s2 []).
  - destruct Hres as [(e & Hc & -> & Hd)|(n & s3 & rp & s4 & Hc & Hn & Hp & Hres)].
    + step H1. exists (Raise e), s1, (Ok tt), s0. split; [done|]. split; [done|].
      left. exists i, sel, s2. split; [done|]. split; [done|]. left.
      exists e. split_and!; [done..|].
      by apply (done_since_trans s s0 s1 [_] []).
    + destruct rp as [[]|ep].
      * destruct Hres as (-> & -> & Hd). step H1.
        exists (Ok tt), s4, (Ok tt), s0. split; [done|]. split; [done|].
        left. exists i, sel, s2. split; [done|]. split; [done|]. right.
        exists n, s3, (Ok tt), s4. split_and!; [done..|].
        by apply (done_since_trans s s0 s4 [_]).
      * destruct Hres as (rf & Hf & -> & Hd).
        exists (match rf with Ok _ => Ok tt | Raise e => Raise e end), s1, (Ok tt), s0.
        split; [destruct rf as [[]|?]; by step H1|]. split; [done|].
        left. exists i, sel, s2. split; [done|]. split; [done|]. right.
        exists n, s3, (Raise ep), s4. split_and!; [done..|].
        exists rf. split; [done|]. split; [by destruct rf as [[]|?]|].
        by apply (done_since_trans s s0 s1 [_]).
Qed.

End PageFacts.

Section CalendarOpening.
Context {W : Type} `{Session W} `{Page W}.

Lemma click_rounds_run (btn : loc) : forall (n : nat) (s : st (traced W)),
  exists r s' ops,
    click_rounds n btn s = (r, s') /\ done_since s s' ops /\ log s' = log s /\
    Forall (fun c => exists force, c = PClick btn force) ops /\
    (length ops <= 2 * n)%nat.
Proof.
  induction n as [|n IH]; intros s.
  - exists (Ok tt), s, []. simpl.
    split; [done|]. split; [apply done_since_refl|]. split; [done|].
    split; [apply Forall_nil_2 | lia].
  - cbn [click_rounds].
    destruct (op_traced (PClick btn false) s) as (r1 & s1 & H1 & Hd1 & Hl1 & _).
    destruct r1 as [[]|e1].
    + assert (Hc : (op_ (PClick btn false);; mret true : M (traced W) bool) s
                   = (Ok true, s1)) by (by step H1).
      apply (try_except_ok _ (op_ (PClick btn true);; mret false)) in Hc. step Hc.
      exists (Ok tt), s1, [PClick btn false].
      split; [done|]. split; [done|]. split; [done|].
      split; [|simpl; lia]. apply Forall_singleton. by eexists.
    + assert (Hc : (op_ (PClick btn false);; mret true : M (traced W) bool) s
                   = (Raise e1, s1)) by (by step H1).
      apply (try_except_raise _ (op_ (PClick btn true);; mret false)) in Hc.
      destruct (op_traced (PClick btn true) s1) as (r2 & s2 & H2 & Hd2 & Hl2 & _).
      destruct r2 as [[]|e2].
      * assert (Hf : (op_ (PClick btn true);; mret false : M (traced W) bool) s1
                     = (Ok false, s2)) by (by step H2).
        rewrite Hf in Hc. step Hc.
        destruct (IH s2) as (r & s' & ops & Hrec & Hd & Hl & Hall & Hlen).
        exists r, s', ([PClick btn false; PClick btn true] ++ ops).
        split; [done|]. split.
        { apply (done_since_trans s s2 s'); [|done].
          by apply (done_since_trans s s1 s2 [_] [_]). }
        split; [congruence|]. split; [|simpl; lia].
        apply Forall_app. split; [|done].
        apply Forall_cons. split; [by eexists|].
        apply Forall_singleton. by eexists.
      * assert (Hf : (op_ (PClick btn true);; mret false : M (traced W) bool) s1
                     = (Raise e2, s2)) by (by step H2).
        rewrite Hf in Hc. step Hc.
        exists (Raise e2), s2, [PClick btn false; PClick btn true].
        split; [done|]. split; [by apply (done_since_trans s s1 s2 [_] [_])|].
        split; [congruence|]. split; [|simpl; lia].
        apply Forall_cons. split; [by eexists|].
        apply Forall_singleton. by eexists.
Qed.

Lemma opener_op_more (sel : string) (sels : list string) (c : op) :
  opener_op sels c -> opener_op (sel :: sels) c.
Proof.
  intros [?|(sel' & Hin & Hc)]; [by left|right].
  exists sel'. split; [by right | done].
Qed.

Lemma try_op_pass (c : op) (s : st (traced W)) :
  exists s', try_except (op_ c) pass s = (Ok tt, s') /\
             done_since s s' [c] /\ log s' = log s.
Proof.
  destruct (op_traced c s) as (r & s' & Hrun & Hd & Hl & _).
  exists s'. split; [|done].
  destruct r as [[]|e]; by step Hrun.
Qed.

Lemma try_op_bool (c : op) (s : st (traced W)) :
  exists b s',
    try_except (op_ c;; mret true) (mret false) s = (Ok b, s') /\
    done_since s s' [c] /\ log s' = log s /\
    (b = true -> op_ c s = (Ok tt, s')).
Proof.
  destruct (op_traced c s) as (r & s' & Hrun & Hd & Hl & _).
  destruct r as [[]|e].
  - assert (Hc : (op_ c;; mret true : M (traced W) bool) s = (Ok true, s'))
      by (by step Hrun).
    exists true, s'. split; [by step Hc | done].
  - assert (Hc : (op_ c;; mret true : M (traced W) bool) s = (Raise e, s'))
      by (by step Hrun).
    exists false, s'. split; [by step Hc | done].
Qed.

Lemma try_openers_run : forall (sels : list string) (s : st (traced W)),
  exists r s' ops,
    try_openers sels s = (r, s') /\ done_since s s' ops /\ log s' = log s /\
    Forall (opener_op sels) ops /\
    (r = Ok true ->
       exists ops' s1,
         ops = ops' ++ [PWaitFor overlay_loc (Some Visible)] /\
         done_since s s1 ops' /\
         op_ (PWaitFor overlay_loc (Some Visible)) s1 = (Ok tt, s')).
Proof.
  induction sels as [|sel sels IH]; intros s.
  - exists (Ok false), s, []. simpl.
    split; [done|]. split; [apply done_since_refl|]. split; [done|].
    split; [apply Forall_nil_2 | done].
  - cbn [try_openers].
    destruct (ask_count (First (Sel sel)) s) as (r0 & s0 & Hq & Hd0 & Hl0 & _).
    destruct r0 as [n|e]; step Hq.
    2:{ exists (Raise e), s0, [].
        split; [done|]. split; [done|]. split; [done|].
        split; [apply Forall_nil_2 | done]. }
    case_bool_decide as Hn.
    + destruct (IH s0) as (r & s' & ops & Hrec & Hd & Hl & Hall & Hlast).
      exists r, s', ops.
      split; [done|]. split; [by apply (done_since_trans s s0 s' [])|].
      split; [congruence|].
      split; [eapply Forall_impl; [exact Hall|apply opener_op_more]|].
      intros Hr. destruct (Hlast Hr) as (ops' & s1 & -> & Hd' & Hw).
      exists ops', s1. split; [done|].
      split; [by apply (done_since_trans s s0 s1 [])| done].
    + destruct (try_op_pass (PScrollIntoView (First (Sel sel))) s0)
        as (s1 & H1 & Hd1 & Hl1).
      step H1.
      destruct (click_rounds_run (First (Sel sel)) 2 s1)
        as (r2 & s2 & ops2 & H2 & Hd2 & Hl2 & Hall2 & _).
      assert (Hmine : Forall (opener_op (sel :: sels))
                        (PScrollIntoView (First (Sel sel)) :: ops2)).
      { apply Forall_cons. split.
        - right. exists sel. split; [by left | by left].
        - eapply Forall_impl; [exact Hall2|]. intros c [force ->].
          right. exists sel. split; [by left|]. right. by exists force. }
      assert (Hd02 : done_since s s2 (PScrollIntoView (First (Sel sel)) :: ops2)).
      { apply (done_since_trans s s0 s2 []); [done|].
        exact (done_since_trans s0 s1 s2 [_] ops2 Hd1 Hd2). }
      destruct r2 as [[]|e2]; step H2.
      2:{ exists (Raise e2), s2, (PScrollIntoView (First (Sel sel)) :: ops2).
          split; [done|]. split; [done|].
          split; [congruence|]. split; done. }
      destruct (try_op_bool (PWaitFor overlay_loc (Some Visible)) s2)
        as (b & s3 & H3 & Hd3 & Hl3 & Hb).
      step H3.
      assert (Hd03 : done_since s s3
                ((PScrollIntoView (First (Sel sel)) :: ops2)
                 ++ [PWaitFor overlay_loc (Some Visible)])).
      { by apply (done_since_trans s s2 s3). }
      assert (Hall3 : Forall (opener_op (sel :: sels))
                ((PScrollIntoView (First (Sel sel)) :: ops2)
                 ++ [PWaitFor overlay_loc (Some Visible)])).
      { apply Forall_app. split; [done|]. apply Forall_singleton. by left. }
      destruct b.
      * eexists (Ok true), s3, _.
        split; [done|]. split; [exact Hd03|]. split; [congruence|].
        split; [done|]. intros _.
        exists (PScrollIntoView (First (Sel sel)) :: ops2), s2.
        split; [done|]. split; [done|]. by apply Hb.
      * destruct (IH s3) as (r & s' & ops & Hrec & Hd & Hl & Hall & Hlast).
        eexists r, s', _.
        split; [done|]. split; [exact (done_since_trans _ _ _ _ _ Hd03 Hd)|].
        split; [congruence|]. split.
        { apply Forall_app. split; [done|].
          eapply Forall_impl; [exact Hall|apply opener_op_more]. }
        intros Hr. destruct (Hlast Hr) as (ops' & s4 & -> & Hd' & Hw).
        exists (((PScrollIntoView (First (Sel sel)) :: ops2)
                 ++ [PWaitFor overlay_loc (Some Visible)]) ++ ops'), s4.
        split; [by rewrite app_assoc|].
        split; [exact (done_since_trans _ _ _ _ _ Hd03 Hd') | done].
Qed.

(** X11: [_open_calendar] returns without doing anything to the page when the
    overlay is counted and seen to be visible at the start.  In every other
    case it only scrolls to and clicks opener buttons and waits for the
    overlay, and it returns only when the last thing it did was a wait for
    the overlay that went through.  It leaves the debug files alone. *)
Theorem open_calendar_only_openers (s : st (traced W)) :
  exists r s' ops,
    _open_calendar s = (r, s') /\ done_since s s' ops /\ log s' = log s /\
    Forall (opener_op openers) ops /\
    (r = Ok tt ->
       (ops = [] /\
        exists n s0,
          ask (page_count overlay_loc) s = (Ok n, s0) /\ (0 < n)%nat /\
          ask (page_visible overlay_loc) s0 = (Ok true, s')) \/
       (exists ops' s1,
          ops = ops' ++ [PWaitFor overlay_loc (Some Visible)] /\
          done_since s s1 ops' /\
          op_ (PWaitFor overlay_loc (Some Visible)) s1 = (Ok tt, s'))) /\
    (forall n s0 s1,
       ask (page_count overlay_loc) s = (Ok n, s0) -> (0 < n)%nat ->
       ask (page_visible overlay_loc) s0 = (Ok true, s1) ->
       r = Ok tt /\ s' = s1 /\ ops = []).
Proof.
  unfold _open_calendar.
  destruct (ask_count overlay_loc s) as (r0 & s0 & Hq & Hd0 & Hl0 & _).
  destruct r0 as [n|e]; step Hq.
  2:{ exists (Raise e), s0, [].
      split; [done|]. split; [done|]. split; [done|].
      split; [apply Forall_nil_2|]. split; [done|].
      intros n s0' s1 Hc. rewrite Hq in Hc. discriminate. }
  assert (Hvis : exists rv s1,
            ((if (0 <? n)%nat then ask (page_visible overlay_loc) else mret false)
             : M (traced W) bool) s0 = (rv, s1) /\
            done_since s0 s1 [] /\ log s1 = log s0 /\
            ((0 < n)%nat -> ask (page_visible overlay_loc) s0 = (rv, s1)) /\
            (rv = Ok true -> (0 < n)%nat)).
  { destruct (0 <? n)%nat eqn:En.
    - destruct (ask_visible overlay_loc s0) as (rv & s1 & Hv & Hd1 & Hl1 & _).
      exists rv, s1. apply Nat.ltb_lt in En. by split_and!.
    - exists (Ok false), s0. apply Nat.ltb_ge in En.
      split; [done|]. split; [apply done_since_refl|]. split; [done|].
      split; [lia | done]. }
  destruct Hvis as (rv & s1 & Hv & Hd1 & Hl1 & Hrv & Hpos).
  assert (Hd01 : done_since s s1 []) by (by apply (done_since_trans s s0 s1 [] [])).
  assert (Hnot : rv <> Ok true ->
            forall n' s0' s1',
              ask (page_count overlay_loc) s = (Ok n', s0') -> (0 < n')%nat ->
              ask (page_visible overlay_loc) s0' = (Ok true, s1') -> False).
  { intros Hne n' s0' s1' Hc Hn' Hv'. rewrite Hq in Hc. injection Hc as <- <-.
    rewrite (Hrv Hn') in Hv'. by injection Hv' as Hv' _. }
  destruct rv as [[]|e]; step Hv.
  - exists (Ok tt), s1, [].
    split; [done|]. split; [done|].
    split; [congruence|]. split; [apply Forall_nil_2|]. split.
    + intros _. left. split; [done|]. exists n, s0.
      split; [done|]. split; [by apply Hpos | by apply Hrv, Hpos].
    + intros n' s0' s1' Hc Hn' Hv'. rewrite Hq in Hc. injection Hc as <- <-.
      rewrite (Hrv Hn') in Hv'. by injection Hv' as <-.
  - destruct (try_openers_run openers s1)
      as (r2 & s2 & ops & H2 & Hd2 & Hl2 & Hall & Hlast).
    exists (match r2 with
            | Ok true => Ok tt
            | Ok false =>
                Raise (RuntimeError "Could not open the check-in calendar overlay.")
            | Raise e => Raise e
            end), s2, ops.
    split; [destruct r2 as [[]|?]; by step H2|].
    split; [by apply (done_since_trans s s1 s2 [])|].
    split; [congruence|]. split; [done|]. split.
    + intros Hr. right.
      destruct Hlast as (ops' & s3 & -> & Hd' & Hw); [by destruct r2 as [[]|?]|].
      exists ops', s3. split; [done|].
      split; [by apply (done_since_trans s s1 s3 [])| done].
    + intros n' s0' s1' Hc Hn' Hv'. exfalso.
      by apply (Hnot ltac:(done) n' s0' s1').
  - exists (Raise e), s1, [].
    split; [done|]. split; [done|].
    split; [congruence|]. split; [apply Forall_nil_2|]. split; [done|].
    intros n' s0' s1' Hc Hn' Hv'. exfalso.
    by apply (Hnot ltac:(done) n' s0' s1').
Qed.

(** *** Scrolling the results *)

Lemma read_height_run (last_h : option Z) (s : st (traced W)) :
  exists h s', read_height last_h s = (Ok h, s') /\
               done_since s s' [] /\ log s' = log s.
Proof.
  unfold read_height.
  destruct (ask_height s) as (r & s' & Hq & Hd & Hl & _).
  destruct r as [h|e].
  - assert (Hc : (h ← ask scroll_height; mret (Some h) : M (traced W) (option Z)) s
                 = (Ok (Some h), s')) by (by step Hq).
    exists (Some h), s'. split; [by step Hc | done].
  - assert (Hc : (h ← ask scroll_height; mret (Some h) : M (traced W) (option Z)) s
                 = (Raise e, s')) by (by step Hq).
    exists last_h, s'. split; [by step Hc | done].
Qed.

Lemma scroll_loop_run : forall (n : nat) (last_h : option Z) (s : st (traced W)),
  exists r s' ops,
    scroll_loop n last_h s = (r, s') /\ done_since s s' ops /\ log s' = log s /\
    Forall scroll_op ops /\
    (length (List.filter is_wheel ops) <= n)%nat /\
    ((0 < n)%nat -> head ops = Some (MouseWheel 0 2500)) /\
    (forall e, r = Raise e -> last ops = Some (MouseWheel 0 2500)).
Proof.
  induction n as [|n IH]; intros last_h s.
  - exists (Ok tt), s, []. simpl.
    split; [done|]. split; [apply done_since_refl|]. split; [done|].
    split; [apply Forall_nil_2|]. split; [lia|]. split; [lia | done].
  - cbn [scroll_loop].
    destruct (op_traced (MouseWheel 0 2500) s) as (r1 & s1 & H1 & Hd1 & Hl1 & _).
    destruct r1 as [[]|e1]; step H1.
    2:{ exists (Raise e1), s1, [MouseWheel 0 2500].
        split; [done|]. split; [done|]. split; [done|].
        split; [apply Forall_singleton; by left|].
        split; [simpl; lia|]. split; done. }
    destruct (try_op_pass (WaitLoadState "networkidle") s1) as (s2 & H2 & Hd2 & Hl2).
    step H2.
    destruct (read_height_run last_h s2) as (h & s3 & H3 & Hd3 & Hl3).
    step H3.
    assert (Hd03 : done_since s s3 [MouseWheel 0 2500; WaitLoadState "networkidle"]).
    { apply (done_since_trans s s2 s3 [_; _] []); [|done].
      by apply (done_since_trans s s1 s2 [_] [_]). }
    assert (Hall3 : Forall scroll_op
                      [MouseWheel 0 2500; WaitLoadState "networkidle"]).
    { apply Forall_cons. split; [by left|]. apply Forall_singleton. by right. }
    case_bool_decide as Hsame.
    + exists (Ok tt), s3, [MouseWheel 0 2500; WaitLoadState "networkidle"].
      split; [done|]. split; [done|]. split; [congruence|].
      split; [done|]. split; [simpl; lia|]. split; done.
    + destruct (IH h s3) as (r & s' & ops & Hrec & Hd & Hl & Hall & Hlen & _ & Hraise).
      exists r, s', ([MouseWheel 0 2500; WaitLoadState "networkidle"] ++ ops).
      split; [done|]. split; [exact (done_since_trans _ _ _ _ _ Hd03 Hd)|].
      split; [congruence|]. split; [by apply Forall_app|].
      split; [simpl; lia|]. split; [done|].
      intros e He. specialize (Hraise e He). by rewrite last_app, Hraise.
Qed.

(** X12: [scroll_results_into_view] turns the wheel at most [max_scrolls]
    times, and at least once when [max_scrolls] is positive; besides that
    it only waits for the network to rest.  It raises only when a turn of
    the wheel raises, and it leaves the debug files alone. *)
Theorem scroll_results_into_view_bounded (max_scrolls : nat) (s : st (traced W)) :
  exists r s' ops,
    scroll_results_into_view max_scrolls s = (r, s') /\
    done_since s s' ops /\ log s' = log s /\
    Forall scroll_op ops /\
    (length (List.filter is_wheel ops) <= max_scrolls)%nat /\
    ((0 < max_scrolls)%nat -> head ops = Some (MouseWheel 0 2500)) /\
    (forall e, r = Raise e -> last ops = Some (MouseWheel 0 2500)).
Proof.
  unfold scroll_results_into_view.
  destruct (read_height_run None s) as (h & s0 & H0' & Hd0 & Hl0).
  step H0'.
  destruct (scroll_loop_run max_scrolls h s0)
    as (r & s' & ops & Hrun & Hd & Hl & Hall & Hlen & Hhead & Hraise).
  exists r, s', ops.
  split; [done|]. split; [by apply (done_since_trans s s0 s' [])|].
  split; [congruence|]. by split_and!.
Qed.

End CalendarOpening.

(** *** The date range of the results page *)

(** X13: [extract_date_range] never raises: it searches the stripped text of
    the availability bar, or the text of the body when the bar cannot be
    read, or the empty text when neither can, in which case it returns the
    empty string; it does nothing to the page. *)
Theorem extract_date_range_never_raises {W : Type} `{Page W}
    (U : unicode_tables) (s : st W) :
  exists full s',
    extract_date_range U s = (Ok (date_range_in U full), s') /\
    log s' = log s /\
    match page_text (First (ByText "Showing availability for")) (env s) with
    | (Ok t, _) => full = strip U t
    | (Raise _, w) =>
        match page_text (Sel "body") w with
        | (Ok t, _) => full = t
        | (Raise _, _) => full = [] /\ date_range_in U full = []
        end
    end.
Proof.
  unfold extract_date_range. unfold_m. simpl.
  destruct (page_text (First (ByText "Showing availability for")) (env s))
    as [[t|e] w]; simpl.
  - by eexists _, _.
  - destruct (page_text (Sel "body") w) as [[t|e'] w']; simpl.
    + by eexists _, _.
    + exists [], {| env := w'; log := log s |}. by split_and!.
Qed.

Lemma nonempty_true (t : text) : nonempty t = true <-> t <> [].
Proof. by destruct t. Qed.

Lemma normalized_nil (U : unicode_tables) : normalized U [].
Proof. split; [done | exact I]. Qed.

Section TierFacts.
Context {W : Type} `{Page W}.
Variable U : unicode_tables.

Lemma block_text_run (block : loc) (s : st (traced W)) :
  exists t s', block_text block s = (Ok t, s') /\
               done_since s s' [] /\ log s' = log s.
Proof.
  unfold block_text.
  destruct (ask_text block s) as (r & s' & Hq & Hd & Hl & _).
  destruct r as [t|e]; step Hq.
  - by exists t, s'.
  - by exists [], s'.
Qed.

Lemma heading_round_run (block : loc) (sel : string) (cur : text)
    (s : st (traced W)) :
  exists r s', heading_round U block sel cur s = (r, s') /\
    done_since s s' [] /\ log s' = log s /\
    forall c b, r = Ok (c, b) ->
      (normalized U cur -> normalized U c) /\
      (b = false -> cur = [] -> c = []).
Proof.
  unfold heading_round. cbv zeta.
  destruct (ask_count (First (Sub block sel)) s) as (r0 & s0 & Hq & Hd0 & Hl0 & _).
  destruct r0 as [n|e]; step Hq.
  2:{ exists (Raise e), s0. by split_and!. }
  case_bool_decide as Hn.
  - exists (Ok (cur, false)), s0. split_and!; [done..|].
    intros c b [= <- <-]. done.
  - destruct (ask_text (First (Sub block sel)) s0) as (r1 & s1 & H1 & Hd1 & Hl1 & _).
    destruct r1 as [t|e]; step H1.
    2:{ exists (Raise e), s1.
        split; [done|]. split; [by apply (done_since_trans s s0 s1 [] [])|].
        split; [congruence | done]. }
    exists (Ok (_norm U t, nonempty (_norm U t))), s1.
    split; [done|]. split; [by apply (done_since_trans s s0 s1 [] [])|].
    split; [congruence|].
    intros c b [= <- <-]. split.
    + intros _. apply normalize_ws_normalized.
    + intros Hb _. by destruct (_norm U t).
Qed.

Lemma heading_loop_run (guarded : bool) (block : loc) :
  forall (sels : list string) (s : st (traced W)),
  exists r s', heading_loop U guarded block sels [] s = (r, s') /\
    done_since s s' [] /\ log s' = log s /\
    (guarded = true -> exists c, r = Ok c) /\
    (forall c, r = Ok c -> normalized U c).
Proof.
  induction sels as [|sel sels IH]; intros s.
  - exists (Ok []), s. simpl.
    split; [done|]. split; [apply done_since_refl|]. split; [done|].
    split; [by eexists|]. intros c [= <-]. apply normalized_nil.
  - cbn [heading_loop].
    destruct (heading_round_run block sel [] s) as (r0 & s0 & H0' & Hd0 & Hl0 & Hres).
    assert (Hround : exists r1,
              (if guarded
               then try_except (heading_round U block sel []) (mret ([], false))
               else heading_round U block sel []) s = (r1, s0) /\
              (guarded = true -> exists cb, r1 = Ok cb) /\
              (forall c b, r1 = Ok (c, b) ->
                 normalized U c /\ (b = false -> c = []))).
    { destruct guarded.
      - destruct r0 as [[c b]|e].
        + exists (Ok (c, b)). split; [by step H0'|]. split; [by eexists|].
          intros c' b' [= <- <-]. destruct (Hres c b eq_refl) as [Hn Hb].
          split; [apply Hn, normalized_nil | by intros ?; apply Hb].
        + exists (Ok ([], false)). split; [by step H0'|]. split; [by eexists|].
          intros c' b' [= <- <-]. split; [apply normalized_nil | done].
      - exists r0. split; [done|]. split; [done|].
        intros c b ->. destruct (Hres c b eq_refl) as [Hn Hb].
        split; [apply Hn, normalized_nil | by intros ?; apply Hb]. }
    destruct Hround as (r1 & H1 & Htot & Hok).
    destruct r1 as [[c b]|e]; step H1.
    2:{ exists (Raise e), s0. split; [done|]. split; [done|]. split; [done|].
        split; [|done]. intros Hg. destruct (Htot Hg) as [? ?]. done. }
    destruct (Hok c b eq_refl) as [Hn Hb]. simpl.
    destruct b.
    + exists (Ok c), s0. split; [done|]. split; [done|]. split; [done|].
      split; [by eexists|]. by intros c' [= <-].
    + rewrite (Hb eq_refl).
      destruct (IH s0) as (r & s' & Hrec & Hd & Hl & Ht & Hnorm).
      exists r, s'. split; [done|].
      split; [by apply (done_since_trans s s0 s' [] [])|].
      split; [congruence | done].
Qed.

(** A loop over blocks keeps what each round keeps. *)
Lemma for_blocks_run (body : nat -> list row -> M (traced W) (list row))
    (Inv : row -> Prop) (total : Prop) :
  (forall i rows s, exists r s',
     body i rows s = (r, s') /\ done_since s s' [] /\ log s' = log s /\
     (total -> exists rows', r = Ok rows') /\
     (forall rows', r = Ok rows' ->
        rows' = rows \/ exists new, rows' = rows ++ [new] /\ Inv new)) ->
  forall (todo : list nat) (rows : list row) (s : st (traced W)),
  exists r s',
    for_blocks body todo rows s = (r, s') /\ done_since s s' [] /\ log s' = log s /\
    (total -> exists rows', r = Ok rows') /\
    (forall rows', r = Ok rows' ->
       exists more, rows' = rows ++ more /\ Forall Inv more /\
                    (length more <= length todo)%nat).
Proof.
  intros Hbody. induction todo as [|i todo IH]; intros rows s.
  - exists (Ok rows), s. simpl.
    split; [done|]. split; [apply done_since_refl|]. split; [done|].
    split; [by eexists|]. intros rows' [= <-].
    exists []. rewrite app_nil_r. split; [done|]. split; [apply Forall_nil_2 | done].
  - cbn [for_blocks].
    destruct (Hbody i rows s) as (r0 & s0 & H0' & Hd0 & Hl0 & Ht0 & Hres0).
    destruct r0 as [rows0|e]; step H0'.
    2:{ exists (Raise e), s0. split; [done|]. split; [done|]. split; [done|].
        split; [|done]. intros Ht. destruct (Ht0 Ht) as [? ?]. done. }
    destruct (IH rows0 s0) as (r & s' & Hrec & Hd & Hl & Ht & Hres).
    exists r, s'. split; [done|].
    split; [by apply (done_since_trans s s0 s' [] [])|].
    split; [congruence|]. split; [done|].
    intros rows' Hr. destruct (Hres rows' Hr) as (more & -> & Hall & Hlen).
    destruct (Hres0 rows0 eq_refl) as [->|(new & -> & Hnew)].
    + exists more. split; [done|]. split; [done | simpl; lia].
    + exists (new :: more). rewrite <- app_assoc. split; [done|].
      split; [by apply Forall_cons | simpl; lia].
Qed.

Lemma block_rows_run (rsels usels : list string) (block : loc) (dr : text)
    (rows : list row) (s : st (traced W)) :
  exists r s',
    block_rows U rsels usels block dr rows s = (r, s') /\
    done_since s s' [] /\ log s' = log s /\
    (True -> exists rows', r = Ok rows') /\
    (forall rows', r = Ok rows' ->
       rows' = rows \/ exists new, rows' = rows ++ [new] /\ row_ok U dr new).
Proof.
  unfold block_rows.
  destruct (block_text_run block s) as (t & s0 & H0' & Hd0 & Hl0). step H0'.
  destruct (heading_loop_run true block rsels s0)
    as (r1 & s1 & H1 & Hd1 & Hl1 & Ht1 & Hn1).
  destruct (Ht1 eq_refl) as [resort' ->]. step H1.
  destruct (heading_loop_run true block usels s1)
    as (r2 & s2 & H2 & Hd2 & Hl2 & Ht2 & Hn2).
  destruct (Ht2 eq_refl) as [room' ->]. step H2. cbv zeta.
  assert (Hd : done_since s s2 []).
  { apply (done_since_trans s s1 s2 [] []); [|done].
    by apply (done_since_trans s s0 s1 [] []). }
  destruct (nonempty resort' || nonempty room'
            || nonempty (_points_from_text U t)) eqn:Hany.
  - eexists (Ok _), s2. split; [done|]. split; [done|]. split; [congruence|].
    split; [by eexists|]. intros rows' [= <-]. right. eexists. split; [done|].
    split; [done|]. simpl.
    split; [by apply Hn1|]. split; [by apply Hn2|].
    split; [apply points_digits_only|].
    apply orb_true_iff in Hany as [Hany|Hany];
      [apply orb_true_iff in Hany as [Hany|Hany]|];
      apply nonempty_true in Hany; auto.
  - exists (Ok rows), s2. split; [done|]. split; [done|]. split; [congruence|].
    split; [by eexists|]. intros rows' [= <-]. by left.
Qed.

Lemma node_rows_run (node : loc) (dr : text) (rows : list row)
    (s : st (traced W)) :
  exists r s',
    node_rows U node dr rows s = (r, s') /\
    done_since s s' [] /\ log s' = log s /\
    (False -> exists rows', r = Ok rows') /\
    (forall rows', r = Ok rows' ->
       rows' = rows \/ exists new, rows' = rows ++ [new] /\
                                   (row_ok U dr new /\ points new <> [])).
Proof.
  unfold node_rows. cbv zeta.
  set (block := First (Sub node _)).
  destruct (ask_count block s) as (r0 & s0 & Hq & Hd0 & Hl0 & _).
  destruct r0 as [n|e]; step Hq.
  2:{ exists (Raise e), s0. by split_and!. }
  case_bool_decide as Hn.
  { exists (Ok rows), s0. split_and!; [done..|]. intros rows' [= <-]. by left. }
  destruct (block_text_run block s0) as (t & s1 & H1 & Hd1 & Hl1). step H1.
  assert (Hd01 : done_since s s1 []) by (by apply (done_since_trans s s0 s1 [] [])).
  destruct (nonempty (_points_from_text U t)) eqn:Hpts; simpl.
  2:{ exists (Ok rows), s1. split; [done|]. split; [done|]. split; [congruence|].
      split; [done|]. intros rows' [= <-]. by left. }
  apply nonempty_true in Hpts.
  destruct (heading_loop_run false block ["h2"; "header h2"] s1)
    as (r2 & s2 & H2 & Hd2 & Hl2 & _ & Hn2).
  assert (Hd02 : done_since s s2 []) by (by apply (done_since_trans s s1 s2 [] [])).
  destruct r2 as [resort'|e]; step H2.
  2:{ exists (Raise e), s2. split; [done|]. split; [done|]. split; [congruence|].
      done. }
  destruct (heading_loop_run false block ["[data-uitest*='unit-name']"; "h3"; "h4"] s2)
    as (r3 & s3 & H3 & Hd3 & Hl3 & _ & Hn3).
  assert (Hd03 : done_since s s3 []) by (by apply (done_since_trans s s2 s3 [] [])).
  destruct r3 as [room'|e]; step H3.
  2:{ exists (Raise e), s3. split; [done|]. split; [done|]. split; [congruence|].
      done. }
  eexists (Ok _), s3. split; [done|]. split; [done|]. split; [congruence|].
  split; [done|]. intros rows' [= <-]. right. eexists. split; [done|].
  split; [|done]. split; [done|]. simpl.
  split; [by apply Hn2|]. split; [by apply Hn3|].
  split; [apply points_digits_only | auto].
Qed.

Lemma tier1_run (dr : text) (s : st (traced W)) :
  exists r s',
    tier1 U dr s = (r, s') /\ done_since s s' [] /\ log s' = log s /\
    match r with
    | Ok rows => Forall (row_ok U dr) rows
    | Raise e => exists w, (page_count (Sel card_sel) w).1 = Raise e
    end.
Proof.
  unfold tier1. cbv zeta.
  destruct (ask_count (Sel card_sel) s) as (r0 & s0 & Hq & Hd0 & Hl0 & Hr0).
  destruct r0 as [n|e]; step Hq.
  2:{ exists (Raise e), s0. split_and!; [done..|]. by exists (world (env s)). }
  destruct (0 <? n)%nat.
  2:{ exists (Ok []), s0. split_and!; [done..|]. apply Forall_nil_2. }
  destruct (ask_count (Sel card_sel) s0) as (r1 & s1 & H1 & Hd1 & Hl1 & Hr1).
  assert (Hd01 : done_since s s1 []) by (by apply (done_since_trans s s0 s1 [] [])).
  destruct r1 as [m|e]; step H1.
  2:{ exists (Raise e), s1. split; [done|]. split; [done|]. split; [congruence|].
      by exists (world (env s0)). }
  match goal with
  | |- context [for_blocks ?body _ _ _] =>
      destruct (for_blocks_run body (row_ok U dr) True
                  (fun i => block_rows_run _ _ _ dr) (seq 0 m) [] s1)
        as (r & s' & Hrun & Hd & Hl & Ht & Hres)
  end.
  destruct (Ht I) as [rows ->].
  exists (Ok rows), s'. split; [done|].
  split; [by apply (done_since_trans s s1 s' [] [])|]. split; [congruence|].
  destruct (Hres rows eq_refl) as (more & -> & Hall & _). done.
Qed.

Lemma tier2_run (dr : text) (s : st (traced W)) :
  exists r s',
    tier2 U dr s = (r, s') /\ done_since s s' [] /\ log s' = log s /\
    match r with
    | Ok rows => Forall (row_ok U dr) rows
    | Raise e => (page_count blocks_loc (world (env s))).1 = Raise e
    end.
Proof.
  unfold tier2.
  destruct (ask_count blocks_loc s) as (r0 & s0 & Hq & Hd0 & Hl0 & Hr0).
  destruct r0 as [n|e]; step Hq.
  2:{ exists (Raise e), s0. by split_and!. }
  match goal with
  | |- context [for_blocks ?body _ _ _] =>
      destruct (for_blocks_run body (row_ok U dr) True
                  (fun i => block_rows_run _ _ _ dr) (seq 0 n) [] s0)
        as (r & s' & Hrun & Hd & Hl & Ht & Hres)
  end.
  destruct (Ht I) as [rows ->].
  exists (Ok rows), s'. split; [done|].
  split; [by apply (done_since_trans s s0 s' [] [])|]. split; [congruence|].
  destruct (Hres rows eq_refl) as (more & -> & Hall & _). done.
Qed.

Lemma tier3_run (dr : text) (s : st (traced W)) :
  exists r s',
    tier3 U dr s = (r, s') /\ done_since s s' [] /\ log s' = log s /\
    forall rows, r = Ok rows ->
      (length rows <= 60)%nat /\
      Forall (fun r => row_ok U dr r /\ points r <> []) rows.
Proof.
  unfold tier3.
  destruct (ask_count pts_nodes s) as (r0 & s0 & Hq & Hd0 & Hl0 & Hr0).
  destruct r0 as [n|e]; step Hq.
  2:{ exists (Raise e), s0. by split_and!. }
  cbv zeta.
  match goal with
  | |- context [for_blocks ?body _ _ _] =>
      destruct (for_blocks_run body (fun r => row_ok U dr r /\ points r <> []) False
                  (fun i => node_rows_run _ dr) (seq 0 (Nat.min 60 n)) [] s0)
        as (r & s' & Hrun & Hd & Hl & _ & Hres)
  end.
  exists r, s'. split; [done|].
  split; [by apply (done_since_trans s s0 s' [] [])|]. split; [congruence|].
  intros rows Hr. destruct (Hres rows Hr) as (more & -> & Hall & Hlen).
  rewrite length_seq in Hlen. simpl. split; [lia | done].
Qed.

(** X14: the first two tiers only read the page, and raise only when counting
    the cards or blocks raises; every row they build carries the date range
    that was handed in, a resort and a room that are normalized (no white
    space at either end, single spaces inside), points that are digits, and
    at least one of the three is not empty. *)
Theorem guarded_tiers_rows (dr : text) (s : st (traced W)) :
  (exists r s',
     tier1 U dr s = (r, s') /\ done_since s s' [] /\ log s' = log s /\
     match r with
     | Ok rows => Forall (row_ok U dr) rows
     | Raise e => exists w, (page_count (Sel card_sel) w).1 = Raise e
     end) /\
  (exists r s',
     tier2 U dr s = (r, s') /\ done_since s s' [] /\ log s' = log s /\
     match r with
     | Ok rows => Forall (row_ok U dr) rows
     | Raise e => (page_count blocks_loc (world (env s))).1 = Raise e
     end).
Proof. split; [apply tier1_run | apply tier2_run]. Qed.

(** X15: the third tier only reads the page and builds at most 60 rows,
    however many nodes mention points; each of its rows has points that are
    not empty and consist of digits, the date range that was handed in, and
    a normalized resort and room. *)
Theorem tier3_rows (dr : text) (s : st (traced W)) :
  exists r s',
    tier3 U dr s = (r, s') /\ done_since s s' [] /\ log s' = log s /\
    forall rows, r = Ok rows ->
      (length rows <= 60)%nat /\
      Forall (fun r => row_ok U dr r /\ points r <> []) rows.
Proof. apply tier3_run. Qed.

End TierFacts.

Lemma dedup_nonempty (rows : list row) : rows <> [] -> dedup rows <> [].
Proof.
  intros Hne Hnil. destruct rows as [|r rows]; [done|].
  destruct (dedup_spec (r :: rows)) as (_ & Hmem & _).
  assert (Hin : r ∈ dedup (r :: rows)) by (apply Hmem; by left).
  rewrite Hnil in Hin. by apply elem_of_nil in Hin.
Qed.

Lemma scrape_results_after_tiers {W : Type} `{Session W} (rows : list row)
    (s : st W) :
  rows <> [] ->
  ((let out := dedup rows in
    (if bool_decide (length out = 0%nat) then
       try_except (act (WriteContent "no_results_debug.html")) pass;;
       act (Screenshot None "no_results_debug.png")
     else mret tt);;
    mret out) : M W (list row)) s = (Ok (dedup rows), s).
Proof.
  intros Hne. cbv zeta. apply dedup_nonempty in Hne.
  rewrite bool_decide_false; [done|].
  by destruct (dedup rows).
Qed.

(** X16: the tiers are consulted in order and only as far as needed: when the
    first one finds rows, the other two are not run, whatever they would do,
    and when the first finds none and the second finds some, the third is
    not run; the rows found are returned without duplicates and no debug
    file is written. *)
Theorem scrape_results_first_tier_wins {W : Type} `{Session W}
    (before_tiers : M W text) (tier1 tier2 tier3 : text -> M W (list row))
    (s s0 s1 : st W) (dr : text) (rows1 : list row) :
  before_tiers s = (Ok dr, s0) ->
  tier1 dr s0 = (Ok rows1, s1) ->
  (rows1 <> [] ->
     scrape_results before_tiers tier1 tier2 tier3 s = (Ok (dedup rows1), s1)) /\
  (rows1 = [] ->
     forall rows2 s2, tier2 dr s1 = (Ok rows2, s2) -> rows2 <> [] ->
     scrape_results before_tiers tier1 tier2 tier3 s = (Ok (dedup rows2), s2)).
Proof.
  intros Hb H1. unfold scrape_results.
  rewrite (bind_ok _ _ _ _ _ Hb), (bind_ok _ _ _ _ _ H1). split.
  - intros Hne. destruct rows1 as [|r rows1]; [done|].
    assert (Hret : (mret (r :: rows1) : M W (list row)) s1 = (Ok (r :: rows1), s1))
      by done.
    rewrite (bind_ok _ _ _ _ _ Hret), (bind_ok _ _ _ _ _ Hret).
    by apply (scrape_results_after_tiers (r :: rows1)).
  - intros -> rows2 s2 H2 Hne.
    rewrite (bind_ok _ _ _ _ _ H2). destruct rows2 as [|r rows2]; [done|].
    assert (Hret : (mret (r :: rows2) : M W (list row)) s2 = (Ok (r :: rows2), s2))
      by done.
    rewrite (bind_ok _ _ _ _ _ Hret).
    by apply (scrape_results_after_tiers (r :: rows2)).
Qed.

Lemma scrape_results_first_tier_wins_witness :
  let r := {| date_range := T "May 1 - May 8, 2026"; resort := T "Orange Lake";
              room := T "Studio"; points := T "1200" |} in
  scrape_results (mret (T "May 1 - May 8, 2026")) (fun _ => mret [r; r])
    (fun _ => raise PlaywrightError) (fun _ => raise PlaywrightError)
    (start nothing_there)
  = (Ok [r], start nothing_there).
Proof.
  intros r.
  refine (proj1 (scrape_results_first_tier_wins
                   (mret (T "May 1 - May 8, 2026")) (fun _ => mret [r; r])
                   (fun _ => raise PlaywrightError) (fun _ => raise PlaywrightError)
                   (start nothing_there) (start nothing_there) (start nothing_there)
                   (T "May 1 - May 8, 2026") [r; r] _ _) _).
  - reflexivity.
  - reflexivity.
  - discriminate.
Defined.

Section RowsOfThePage.
Context {W : Type} `{Session W} `{Page W}.
Variable U : unicode_tables.

(** X17: whatever is done before the tiers, every row that [scrape_results]
    returns from the page carries the date range found before the tiers, a
    normalized resort and room, and points made of digits, one of the three
    not being empty; from the tiers on the page is only read, and the debug
    files are written only when no row is returned. *)
Theorem scrape_results_rows (before_tiers : M (traced W) text)
    (s : st (traced W)) :
  match before_tiers s with
  | (Raise e, s0) =>
      scrape_results before_tiers (tier1 U) (tier2 U) (tier3 U) s = (Raise e, s0)
  | (Ok dr, s0) =>
      exists r s',
        scrape_results before_tiers (tier1 U) (tier2 U) (tier3 U) s = (r, s') /\
        done_since s0 s' [] /\
        forall out, r = Ok out ->
          Forall (row_ok U dr) out /\ (out <> [] -> log s' = log s0)
  end.
Proof.
  destruct (before_tiers s) as [[dr|e] s0] eqn:Hb; unfold scrape_results;
    [rewrite (bind_ok _ _ _ _ _ Hb) | by rewrite (bind_raise _ _ _ _ _ Hb)].
  destruct (tier1_run U dr s0) as (r1 & s1 & H1 & Hd1 & Hl1 & Hres1).
  destruct r1 as [rows1|e]; step H1.
  2:{ exists (Raise e), s1. by split_and!. }
  assert (H2 : exists r2 s2,
            ((match rows1 with [] => tier2 U dr | _ => mret rows1 end)
             : M (traced W) (list row)) s1 = (r2, s2) /\
            done_since s1 s2 [] /\ log s2 = log s1 /\
            forall rows, r2 = Ok rows -> Forall (row_ok U dr) rows).
  { destruct rows1 as [|a rows1].
    - destruct (tier2_run U dr s1) as (r2 & s2 & H2 & Hd2 & Hl2 & Hres2).
      exists r2, s2. split_and!; [done..|]. by intros rows ->.
    - exists (Ok (a :: rows1)), s1.
      split; [done|]. split; [apply done_since_refl|]. split; [done|].
      by intros rows [= <-]. }
  destruct H2 as (r2 & s2 & H2 & Hd2 & Hl2 & Hres2).
  destruct r2 as [rows2|e]; step H2.
  2:{ exists (Raise e), s2.
      split; [done|]. split; [by apply (done_since_trans s0 s1 s2 [] [])|]. done. }
  assert (H3 : exists r3 s3,
            ((match rows2 with [] => tier3 U dr | _ => mret rows2 end)
             : M (traced W) (list row)) s2 = (r3, s3) /\
            done_since s2 s3 [] /\ log s3 = log s2 /\
            forall rows, r3 = Ok rows -> Forall (row_ok U dr) rows).
  { destruct rows2 as [|a rows2].
    - destruct (tier3_run U dr s2) as (r3 & s3 & H3 & Hd3 & Hl3 & Hres3).
      exists r3, s3. split_and!; [done..|]. intros rows Hr.
      destruct (Hres3 rows Hr) as [_ Hall].
      eapply Forall_impl; [exact Hall|]. by intros ? [? _].
    - exists (Ok (a :: rows2)), s2.
      split; [done|]. split; [apply done_since_refl|]. split; [done|].
      intros rows [= <-]. by apply Hres2. }
  destruct H3 as (r3 & s3 & H3 & Hd3 & Hl3 & Hres3).
  assert (Hd03 : done_since s0 s3 []).
  { apply (done_since_trans s0 s2 s3 [] []); [|done].
    by apply (done_since_trans s0 s1 s2 [] []). }
  destruct r3 as [rows3|e]; step H3.
  2:{ exists (Raise e), s3. by split_and!. }
  specialize (Hres3 rows3 eq_refl). cbv zeta.
  assert (Hout : Forall (row_ok U dr) (dedup rows3)).
  { rewrite Forall_forall. intros r Hr.
    destruct (dedup_spec rows3) as (_ & Hmem & _).
    apply Hmem in Hr. rewrite Forall_forall in Hres3. by apply Hres3. }
  case_bool_decide as Hlen.
  - match goal with
    | |- context [mbind _ ?m s3] => destruct (m s3) as [[[]|e] s4] eqn:H4
    end.
    + step H4. exists (Ok (dedup rows3)), s4. split; [done|].
      assert (Hd4 : done_since s3 s4 []).
      { revert H4. unfold_m. unfold done_since. simpl. unfold quiet.
        destruct (perform _ _) as [[[]|?] w1]; simpl;
          destruct (perform _ _) as [[[]|?] w2]; simpl;
          intros Heq; simplify_eq; simpl; by rewrite app_nil_r. }
      split; [by apply (done_since_trans s0 s3 s4 [] [])|].
      intros out [= <-]. split; [done|].
      intros Hne. by destruct (dedup rows3).
    + step H4. exists (Raise e), s4. split; [done|].
      assert (Hd4 : done_since s3 s4 []).
      { revert H4. unfold_m. unfold done_since. simpl. unfold quiet.
        destruct (perform _ _) as [[[]|?] w1]; simpl;
          destruct (perform _ _) as [[[]|?] w2]; simpl;
          intros Heq; simplify_eq; simpl; by rewrite app_nil_r. }
      split; [by apply (done_since_trans s0 s3 s4 [] [])| done].
  - exists (Ok (dedup rows3)), s3. split; [done|]. split; [done|].
    intros out [= <-]. split; [done|]. intros _. congruence.
Qed.

End RowsOfThePage.

(** *** The CSV file *)

Lemma foldl_writerow (f : list (list text)) (rows : list row) :
  foldl writerow f rows
  = f ++ ((fun r => [date_range r; resort r; room r; points r]) <$> rows).
Proof.
  revert f. induction rows as [|r rows IH]; intros f; simpl.
  - by rewrite app_nil_r.
  - rewrite IH. unfold writerow. by rewrite <- app_assoc.
Qed.

(** X18: [save_csv] appends one record per row, in order, after what the file
    held; the header is written exactly when the file did not exist, so
    saving in two goes gives the same file as saving all rows at once; no
    other file is touched. *)
Theorem save_csv_appends (rows1 rows2 : list row) (csv_path : string)
    (fs : gmap string (list (list text))) :
  save_csv rows2 csv_path (save_csv rows1 csv_path fs)
    = save_csv (rows1 ++ rows2) csv_path fs /\
  save_csv rows1 csv_path fs !! csv_path
    = Some (match fs !! csv_path with
            | Some f => f
            | None => [fieldnames]
            end ++ ((fun r => [date_range r; resort r; room r; points r]) <$> rows1)) /\
  (forall other, other <> csv_path ->
     save_csv rows1 csv_path fs !! other = fs !! other).
Proof.
  split; [|split].
  - unfold save_csv. cbv zeta. rewrite lookup_insert_eq. simpl.
    rewrite insert_insert_eq. f_equal.
    by rewrite foldl_app.
  - unfold save_csv. cbv zeta. rewrite lookup_insert_eq, foldl_writerow.
    by destruct (fs !! csv_path) as [f|] eqn:E.
  - intros other Hne. unfold save_csv. cbv zeta.
    by rewrite lookup_insert_ne.
Qed.
